(** * knut: booking, valuation, diffing, sorting and printing of a journal

    A shallow embedding of the parts of the knut accounting engine that
    book transactions against running balances ([balance] package),
    compute valuation adjustments ([process.Valuator]), turn cumulative
    snapshots into differences ([balance.Diffs], [process.Differ]), emit
    the directives of a journal in order ([process.Sorter]) and print
    transactions ([printer.Printer]). *)

From stdpp Require Import gmap strings list fin_maps sorting pretty.
From Stdlib Require Import ZArith Lia.
From Stdlib Require QArith Qcanon Qpower.

Local Open Scope Z_scope.

(** ** Decimals

    [decimal.Decimal] of the imported package shopspring/decimal: an
    arbitrary-precision coefficient and a base-ten exponent, denoting
    [value * 10 ^ exp].  The exponent is an int32 in Go; it is an unbounded
    integer here.  The zero value of the Go struct (the value a map lookup
    returns for a missing key) behaves as coefficient 0, exponent 0. *)
Module decimal.

Record Decimal : Type := mkDecimal { value : Z; exp : Z }.

#[global] Instance Decimal_eq_dec : EqDecision Decimal.
Proof. solve_decision. Defined.

(** The zero value [Decimal{}]. *)
Definition zero_value : Decimal := {| value := 0; exp := 0 |}.

#[global] Instance Decimal_inhabited : Inhabited Decimal := populate zero_value.

(** [New(v, e)]. *)
Definition New (v e : Z) : Decimal := {| value := v; exp := e |}.

(** [d.rescale(e)]: the same number at exponent [e]; going to a larger
    exponent truncates. *)
Definition rescale (d : Decimal) (e : Z) : Decimal :=
  if decide (exp d = e) then d
  else
    let diff := Z.abs (e - exp d) in
    let expScale := 10 ^ diff in
    if decide (exp d < e)
    then {| value := Z.quot (value d) expScale; exp := e |}
    else {| value := value d * expScale; exp := e |}.

(** [RescalePair(d1, d2)]: both operands at the smaller exponent. *)
Definition RescalePair (d1 d2 : Decimal) : Decimal * Decimal :=
  if decide (exp d1 = exp d2) then (d1, d2)
  else
    let baseScale := Z.min (exp d1) (exp d2) in
    if decide (baseScale ≠ exp d1)
    then (rescale d1 baseScale, d2)
    else (d1, rescale d2 baseScale).

Definition Add (d d2 : Decimal) : Decimal :=
  let '(rd, rd2) := RescalePair d d2 in
  {| value := value rd + value rd2; exp := exp rd |}.

Definition Sub (d d2 : Decimal) : Decimal :=
  let '(rd, rd2) := RescalePair d d2 in
  {| value := value rd - value rd2; exp := exp rd |}.

(** [d.IsZero()]: the sign of the coefficient is zero. *)
Definition IsZero (d : Decimal) : bool := bool_decide (value d = 0).

(** [d.Cmp(d2)] and [d.Equal(d2)]: comparison of the denoted numbers. *)
Definition Cmp (d d2 : Decimal) : comparison :=
  let '(rd, rd2) := RescalePair d d2 in value rd ?= value rd2.

Definition Equal (d d2 : Decimal) : bool :=
  match Cmp d d2 with Eq => true | _ => false end.

End decimal.
Import decimal.

(** ** Accounts, commodities and positions ([ledger] package)

    Accounts and commodities are interned: one object per name, so that
    pointer identity in the Go code is equality of the records here. *)

Inductive AccountType : Type := ASSETS | LIABILITIES | EQUITY | INCOME | EXPENSES.

#[global] Instance AccountType_eq_dec : EqDecision AccountType.
Proof. solve_decision. Defined.

Definition AccountType_to_nat (t : AccountType) : nat :=
  match t with
  | ASSETS => 0 | LIABILITIES => 1 | EQUITY => 2 | INCOME => 3 | EXPENSES => 4
  end%nat.

Definition AccountType_of_nat (n : nat) : option AccountType :=
  match n with
  | 0 => Some ASSETS | 1 => Some LIABILITIES | 2 => Some EQUITY
  | 3 => Some INCOME | 4 => Some EXPENSES | _ => None
  end%nat.

#[global] Instance AccountType_countable : Countable AccountType.
Proof.
  apply (inj_countable AccountType_to_nat AccountType_of_nat).
  by intros [].
Defined.

Record Account : Type := mkAccount { Account_Type : AccountType; Account_String : string }.

#[global] Instance Account_eq_dec : EqDecision Account.
Proof. solve_decision. Defined.

#[global] Instance Account_countable : Countable Account.
Proof.
  apply (inj_countable' (λ a, (Account_Type a, Account_String a))
                        (λ p, mkAccount p.1 p.2)).
  by intros [].
Defined.

Record Commodity : Type := mkCommodity { Commodity_String : string }.

#[global] Instance Commodity_eq_dec : EqDecision Commodity.
Proof. solve_decision. Defined.

#[global] Instance Commodity_countable : Countable Commodity.
Proof.
  apply (inj_countable' Commodity_String mkCommodity). by intros [].
Defined.

(** [balance.CommodityAccount]: a position. *)
Record CommodityAccount : Type :=
  mkCommodityAccount { pos_Account : Account; pos_Commodity : Commodity }.

#[global] Instance CommodityAccount_eq_dec : EqDecision CommodityAccount.
Proof. solve_decision. Defined.

#[global] Instance CommodityAccount_countable : Countable CommodityAccount.
Proof.
  apply (inj_countable' (λ p, (pos_Account p, pos_Commodity p))
                        (λ p, mkCommodityAccount p.1 p.2)).
  by intros [].
Defined.

(** A calendar date ([time.Time] truncated to days), as a day number. *)
Definition Time : Type := Z.

(** Reading a Go map of decimals: a missing key reads as the zero value. *)
Definition get (m : gmap CommodityAccount Decimal) (pos : CommodityAccount) : Decimal :=
  default zero_value (m !! pos).

(** ** Directives of the [ledger] package *)
Module ledger.

Record Posting : Type := mkPosting {
  Credit : Account;
  Debit : Account;
  PCommodity : Commodity;
  Amount : Decimal;
  Value : Decimal
}.

Record Transaction : Type := mkTransaction {
  TDate : Time;
  Description : string;
  Postings : list Posting
}.

Record Open : Type := mkOpen { ODate : Time; OAccount : Account }.
Record Close : Type := mkClose { CDate : Time; CAccount : Account }.

Inductive Directive : Type :=
| DOpen (o : Open)
| DClose (c : Close)
| DTransaction (t : Transaction).

End ledger.

(** ** The [balance] package: running balances and the open-account set *)
Module balance.
Import ledger.

(** Go errors: [fmt.Errorf] values and the package's own [Error]. *)
Inductive error : Type :=
| Errorf (msg : string)
| Error (directive : Directive) (msg : string).

(** *** [Accounts]: [map[*ledger.Account]bool] *)

(** [oa[a]]: a missing key reads as [false]. *)
Definition is_set (oa : gmap Account bool) (a : Account) : bool :=
  default false (oa !! a).

(** [Accounts.Open]. *)
Definition Open (oa : gmap Account bool) (a : Account) : gmap Account bool * option error :=
  if is_set oa a
  then (oa, Some (Errorf ("account " +:+ Account_String a +:+ " is already open")))
  else (<[a := true]> oa, None).

(** [Accounts.Close]. *)
Definition Close (oa : gmap Account bool) (a : Account) : gmap Account bool * option error :=
  if negb (is_set oa a)
  then (oa, Some (Errorf ("account " +:+ Account_String a +:+ " is already closed")))
  else (delete a oa, None).

(** [Accounts.IsOpen]. *)
Definition IsOpen (oa : gmap Account bool) (a : Account) : bool :=
  if is_set oa a then true
  else bool_decide (Account_Type a = EQUITY).

(** [Accounts.Copy]: every key of the source is set to [true]. *)
Definition Accounts_Copy (oa : gmap Account bool) : gmap Account bool :=
  (λ _, true) <$> oa.

(** *** [Balance] *)
Record Balance : Type := mkBalance {
  BDate : Time;
  Amounts : gmap CommodityAccount Decimal;
  Values : gmap CommodityAccount Decimal;
  Accounts : gmap Account bool;
  Valuation : option Commodity;
  NormalizedPrices : gmap Commodity Decimal
}.

(** [New]: the context argument carries no state of its own and is left out. *)
Definition New (valuation : option Commodity) : Balance :=
  {| BDate := 0; Amounts := ∅; Values := ∅; Accounts := ∅;
     Valuation := valuation; NormalizedPrices := ∅ |}.

Definition set_Amounts (b : Balance) (am : gmap CommodityAccount Decimal) : Balance :=
  {| BDate := BDate b; Amounts := am; Values := Values b; Accounts := Accounts b;
     Valuation := Valuation b; NormalizedPrices := NormalizedPrices b |}.

Definition set_Values (b : Balance) (va : gmap CommodityAccount Decimal) : Balance :=
  {| BDate := BDate b; Amounts := Amounts b; Values := va; Accounts := Accounts b;
     Valuation := Valuation b; NormalizedPrices := NormalizedPrices b |}.

Definition set_Accounts (b : Balance) (oa : gmap Account bool) : Balance :=
  {| BDate := BDate b; Amounts := Amounts b; Values := Values b; Accounts := oa;
     Valuation := Valuation b; NormalizedPrices := NormalizedPrices b |}.

Definition crPos (posting : Posting) : CommodityAccount :=
  mkCommodityAccount (Credit posting) (PCommodity posting).

Definition drPos (posting : Posting) : CommodityAccount :=
  mkCommodityAccount (Debit posting) (PCommodity posting).

(** The loop of [bookAmount] over the postings still to be booked.  The
    receiver is mutated in place: on an error the postings booked before
    the offending one stay booked, so the balance is returned next to the
    error. *)
Fixpoint bookAmount_loop (t : Transaction) (postings : list Posting) (b : Balance)
  : Balance * option error :=
  match postings with
  | [] => (b, None)
  | posting :: rest =>
      if negb (IsOpen (Accounts b) (Credit posting)) then
        (b, Some (Error (DTransaction t)
                    ("credit account " +:+ Account_String (Credit posting) +:+ " is not open")))
      else if negb (IsOpen (Accounts b) (Debit posting)) then
        (b, Some (Error (DTransaction t)
                    ("debit account " +:+ Account_String (Debit posting) +:+ " is not open")))
      else
        let b1 := set_Amounts b
          (<[crPos posting := Sub (get (Amounts b) (crPos posting)) (Amount posting)]> (Amounts b)) in
        let b2 := set_Amounts b1
          (<[drPos posting := Add (get (Amounts b1) (drPos posting)) (Amount posting)]> (Amounts b1)) in
        bookAmount_loop t rest b2
  end.

(** [Balance.bookAmount]. *)
Definition bookAmount (b : Balance) (t : Transaction) : Balance * option error :=
  bookAmount_loop t (Postings t) b.

(** The loop of [bookValue]: the values of the postings are booked without
    a look at the open accounts. *)
Fixpoint bookValue_loop (postings : list Posting) (b : Balance) : Balance :=
  match postings with
  | [] => b
  | posting :: rest =>
      let b1 := set_Values b
        (<[crPos posting := Sub (get (Values b) (crPos posting)) (Value posting)]> (Values b)) in
      let b2 := set_Values b1
        (<[drPos posting := Add (get (Values b1) (drPos posting)) (Value posting)]> (Values b1)) in
      bookValue_loop rest b2
  end.

(** [Balance.bookValue]; it always returns nil. *)
Definition bookValue (b : Balance) (t : Transaction) : Balance * option error :=
  (bookValue_loop (Postings t) b, None).

(** What one posting does to the value [v] held at position [k]. *)
Definition posting_value_effect (k : CommodityAccount) (v : Decimal) (posting : Posting) : Decimal :=
  let v1 := if decide (k = crPos posting) then Sub v (Value posting) else v in
  if decide (k = drPos posting) then Add v1 (Value posting) else v1.

(** What one posting does to the amount [v] held at position [k]: the
    quantity is subtracted if [k] is the credit position, then added if [k]
    is the debit position. *)
Definition posting_effect (k : CommodityAccount) (v : Decimal) (posting : Posting) : Decimal :=
  let v1 := if decide (k = crPos posting) then Sub v (Amount posting) else v in
  if decide (k = drPos posting) then Add v1 (Amount posting) else v1.

(** All accounts named by the postings are open. *)
Definition all_open (oa : gmap Account bool) (postings : list Posting) : Prop :=
  ∀ posting, posting ∈ postings →
    IsOpen oa (Credit posting) = true ∧ IsOpen oa (Debit posting) = true.

(** [CommodityAccount.Less]: by account type, then account name, then
    commodity name.  The numbers of the account types are the constants of the
    [ledger] package, taken as given; strings compare byte by byte. *)
Definition Less (type_number : AccountType → Z) (p p1 : CommodityAccount) : bool :=
  if decide (Account_Type (pos_Account p) ≠ Account_Type (pos_Account p1)) then
    bool_decide (type_number (Account_Type (pos_Account p)) <
                 type_number (Account_Type (pos_Account p1)))
  else if decide (Account_String (pos_Account p) ≠ Account_String (pos_Account p1)) then
    String.ltb (Account_String (pos_Account p)) (Account_String (pos_Account p1))
  else
    String.ltb (Commodity_String (pos_Commodity p)) (Commodity_String (pos_Commodity p1)).

(** Booking a list of transactions in turn, whatever each booking returns. *)
Definition book_all (b : Balance) (ts : list Transaction) : Balance :=
  foldl (λ b t, (bookAmount b t).1) b ts.

(** Every entry of the open-account map is [true]. *)
Definition all_true (oa : gmap Account bool) : Prop :=
  map_Forall (λ _ v, v = true) oa.

(** *** Balances on the heap

    [Copy], [Minus] and [Diffs] work on [*Balance] pointers and mutate the
    objects they point to.  A heap maps addresses to balances; the maps of a
    balance are created by [New] and reached only through it.  A missing
    address stands for a nil pointer, whose dereference panics ([None]). *)
Definition loc : Type := positive.

(** The loop [for pos, amt := range m { nm[pos] = amt }] over the entries of
    the source map in iteration order. *)
Definition copy_entries (entries : list (CommodityAccount * Decimal))
  (nm : gmap CommodityAccount Decimal) : gmap CommodityAccount Decimal :=
  foldl (λ acc e, <[e.1 := e.2]> acc) nm entries.

(** [Balance.Copy]: a new object with new maps. *)
Definition Copy (h : gmap loc Balance) (b : loc) : option (gmap loc Balance * loc) :=
  match h !! b with
  | None => None
  | Some bb =>
      let nb := fresh (dom h) in
      let nbal :=
        {| BDate := BDate bb;
           Amounts := copy_entries (map_to_list (Amounts bb)) ∅;
           Values := copy_entries (map_to_list (Values bb)) ∅;
           Accounts := Accounts_Copy (Accounts bb);
           Valuation := Valuation bb;
           NormalizedPrices := NormalizedPrices bb |} in
      Some (<[nb := nbal]> h, nb)
  end.

(** The loop [for pos, va := range bo { m[pos] = m[pos].Sub(va) }] over the
    entries of [bo] in iteration order. *)
Definition Minus_entries (entries : list (CommodityAccount * Decimal))
  (m : gmap CommodityAccount Decimal) : gmap CommodityAccount Decimal :=
  foldl (λ acc e, <[e.1 := Sub (get acc e.1) e.2]> acc) m entries.

(** [Balance.Minus]: the receiver [b] is mutated; [bo] may be the same
    object. *)
Definition Minus (h : gmap loc Balance) (b bo : loc) : option (gmap loc Balance) :=
  match h !! b, h !! bo with
  | Some bb, Some bbo =>
      let h1 := <[b := set_Amounts bb (Minus_entries (map_to_list (Amounts bbo)) (Amounts bb))]> h in
      match h1 !! b, h1 !! bo with
      | Some bb1, Some bbo1 =>
          Some (<[b := set_Values bb1 (Minus_entries (map_to_list (Values bbo1)) (Values bb1))]> h1)
      | _, _ => None
      end
  | _, _ => None
  end.

(** The loop of [Diffs]: [for i := len(bals) - 1; i > 0; i-- { bals[i].Minus(bals[i-1]) }],
    started at [i]. *)
Fixpoint Diffs_loop (bals : list loc) (i : nat) (h : gmap loc Balance) : option (gmap loc Balance) :=
  match i with
  | O => Some h
  | S j =>
      match bals !! S j, bals !! j with
      | Some bi, Some bj =>
          match Minus h bi bj with
          | Some h' => Diffs_loop bals j h'
          | None => None
          end
      | _, _ => None
      end
  end.

(** [Diffs]: the balances are mutated and [bals[1:]] is returned; slicing an
    empty slice from 1 panics. *)
Definition Diffs (h : gmap loc Balance) (bals : list loc) : option (gmap loc Balance * list loc) :=
  match bals with
  | [] => None
  | _ :: rest =>
      match Diffs_loop bals (length bals - 1) h with
      | Some h' => Some (h', rest)
      | None => None
      end
  end.

(** Pointwise subtraction of two amounts mappings, as the specification
    words it: at every key of either operand the difference of the two
    values, a missing entry counting as zero. *)
Definition pointwise_minus (a b : gmap CommodityAccount Decimal) (k : CommodityAccount) : option Decimal :=
  match b !! k with
  | Some vb => Some (Sub (get a k) vb)
  | None => a !! k
  end.

(** The balance [x] after [Minus] with a balance holding [y]. *)
Definition minus_balance (x y : Balance) : Balance :=
  set_Values
    (set_Amounts x (Minus_entries (map_to_list (Amounts y)) (Amounts x)))
    (Minus_entries (map_to_list (Values y)) (Values x)).

(** Two balances agree on everything but the two maps of decimals. *)
Definition same_but_maps (x x' : Balance) : Prop :=
  BDate x' = BDate x ∧ Accounts x' = Accounts x ∧ Valuation x' = Valuation x ∧
  NormalizedPrices x' = NormalizedPrices x.

(** *** Closing accounts *)

(** The account has no position with a nonzero amount. *)
Definition zero_balance (am : gmap CommodityAccount Decimal) (a : Account) : Prop :=
  map_Forall (λ pos amount, pos_Account pos = a → IsZero amount = true) am.

#[global] Instance zero_balance_dec am a : Decision (zero_balance am a).
Proof. unfold zero_balance. apply _. Defined.

(** Modelled from the spec: the processor [AccountCloser], which
    [Builder.Build] runs last for every day, is not in the source.  The
    specification of the booking engine says of a close directive that it
    "requires zero balance across all commodities for that account, else
    fails; otherwise removes from open set"; the removal is [Accounts.Close]
    of the source. *)
Definition AccountCloser_Process (b : Balance) (c : ledger.Close) : Balance * option error :=
  if decide (zero_balance (Amounts b) (CAccount c)) then
    let '(oa, err) := Close (Accounts b) (CAccount c) in
    (set_Accounts b oa, err)
  else (b, Some (Error (DClose c) "account has nonzero position")).

End balance.

(** ** Directives and days of the [ast] package *)
Module ast.

Record Posting : Type := mkPosting {
  Credit : Account;
  Debit : Account;
  PCommodity : Commodity;
  Amount : Decimal;
  Targets : list Commodity
}.

(** Modelled from the spec: [ast.NewPostingWithTargets] is not in the source,
    only its calls in the valuator are.  The specification has a posting as
    "(creditAccount, debitAccount, Commodity, decimal Quantity, optional
    Value)" and the adjustment as a transaction "crediting/debiting a
    deterministic "valuation adjustment" account against the position account,
    sized exactly to the difference"; the constructor is taken to fill the
    posting with its arguments in the order of the call: the credit account,
    the debit account, the commodity, the quantity and the targets. *)
Definition NewPostingWithTargets (crAccount drAccount : Account) (commodity : Commodity)
  (amt : Decimal) (targets : list Commodity) : Posting :=
  {| Credit := crAccount; Debit := drAccount; PCommodity := commodity;
     Amount := amt; Targets := targets |}.

Record Transaction : Type := mkTransaction {
  TDate : Time;
  Description : string;
  Postings : list Posting
}.

Record Open : Type := mkOpen { ODate : Time; OAccount : Account }.

Record Close : Type := mkClose { CDate : Time; CAccount : Account }.

Record Price : Type := mkPrice {
  PDate : Time; PrCommodity : Commodity; PrTarget : Commodity; PrPrice : Decimal
}.

Record Assertion : Type := mkAssertion {
  ADate : Time; AAccount : Account; AAmount : Decimal; ACommodity : Commodity
}.

Record Value : Type := mkValue {
  VDate : Time; VAccount : Account; VAmount : Decimal; VCommodity : Commodity
}.

(** The directive kinds the stages switch over. *)
Inductive Directive : Type :=
| DOpen (o : Open)
| DPrice (p : Price)
| DTransaction (t : Transaction)
| DAssertion (a : Assertion)
| DValue (v : Value)
| DClose (c : Close).

(** [ast.Dated]: an element passed between the stages, with its date. *)
Record Dated : Type := mkDated { Date : Time; Elem : Directive }.

(** [ast.Day]: the directives of one date, split by kind, and the state the
    later stages attach to the day. *)
Record Day : Type := mkDay {
  DayDate : Time;
  Prices : list Price;
  Assertions : list Assertion;
  Values : list Value;
  Openings : list Open;
  Transactions : list Transaction;
  Closings : list Close;
  Amounts : gmap CommodityAccount Decimal;
  DayValue : gmap CommodityAccount Decimal;
  Normalized : gmap Commodity Decimal
}.

(** An empty day, as [AST.Day] creates it for a date seen for the first time. *)
Definition newDay (d : Time) : Day :=
  {| DayDate := d; Prices := []; Assertions := []; Values := []; Openings := [];
     Transactions := []; Closings := []; Amounts := ∅; DayValue := ∅; Normalized := ∅ |}.

End ast.

(** ** Valuated days of the [val] package *)
Module val.

(** [val.Day]; [DayAmounts] is [Day.Amounts] of the booked day it wraps. *)
Record Day : Type := mkDay {
  Date : Time;
  DayAmounts : gmap CommodityAccount Decimal;
  Prices : gmap Commodity Decimal;
  Values : gmap CommodityAccount Decimal;
  Transactions : list ast.Transaction
}.

End val.

(** ** The [amounts] package *)
Module amounts.

(** Modelled from the spec: [Amounts.Book] is not in the source.  Booking is
    specified as [Amounts[credit,commodity] -= qty; Amounts[debit,commodity] += qty],
    the two assignments [Balance.bookAmount] makes for a posting. *)
Definition Book (am : gmap CommodityAccount Decimal) (crAccount drAccount : Account)
  (a : Decimal) (c : Commodity) : gmap CommodityAccount Decimal :=
  let crPos := mkCommodityAccount crAccount c in
  let drPos := mkCommodityAccount drAccount c in
  let am1 := <[crPos := Sub (get am crPos) a]> am in
  <[drPos := Add (get am1 drPos) a]> am1.

(** Modelled from the spec: [Amounts.Clone] is not in the source; it is "an
    independent copy", the same mapping in a new map object. *)
Definition Clone (am : gmap CommodityAccount Decimal) : gmap CommodityAccount Decimal := am.

(** Modelled from the spec: [Amounts.Minus] is not in the source; it is
    "pointwise subtraction", done on the receiver as [Balance.Minus] does it
    for the two maps of a balance. *)
Definition Minus (am a : gmap CommodityAccount Decimal) : gmap CommodityAccount Decimal :=
  balance.Minus_entries (map_to_list a) am.

End amounts.

(** ** The [process] package: valuation adjustments and differences *)
Module process.

(** How a call ends: it returns, or it panics with a message. *)
Inductive outcome (A : Type) : Type :=
| Returned (a : A)
| Panicked (a : A) (msg : string).
Arguments Returned {A} a.
Arguments Panicked {A} a msg.

(** Go errors made by [fmt.Errorf]. *)
Inductive error : Type := Errorf (msg : string).

Section Valuator.

(** [NormalizedPrices.Valuate] and [Context.ValuationAccountFor] are not in
    the source; the valuator is defined over any two such functions.  Only
    whether [Valuate] fails is observed, its error value is dropped. *)
Variable Valuate : gmap Commodity Decimal → Commodity → Decimal → option Decimal.
Variable ValuationAccountFor : Account → Account.

(** [pr.Valuation], nil when no valuation commodity is configured. *)
Variable Valuation : option Commodity.

Definition adjustment_description (pos : CommodityAccount) : string :=
  "Adjust value of " +:+ Commodity_String (pos_Commodity pos) +:+
  " in account " +:+ Account_String (pos_Account pos).

Definition no_valuation_message (pos : CommodityAccount) : string :=
  "no valuation found for commodity " +:+ Commodity_String (pos_Commodity pos).

(** The loop of [computeValuationTransactions] over the entries of
    [day.Day.Amounts] in iteration order; a failing valuation panics. *)
Fixpoint computeValuationTransactions_loop
  (entries : list (CommodityAccount * Decimal)) (day : val.Day) : outcome val.Day :=
  match entries with
  | [] => Returned day
  | (pos, va) :: rest =>
      if bool_decide (Some (pos_Commodity pos) = Valuation) then
        computeValuationTransactions_loop rest day
      else
        let at_ := Account_Type (pos_Account pos) in
        if bool_decide (at_ ≠ ASSETS) && bool_decide (at_ ≠ LIABILITIES) then
          computeValuationTransactions_loop rest day
        else
          match Valuate (val.Prices day) (pos_Commodity pos) va with
          | None => Panicked day (no_valuation_message pos)
          | Some value =>
              let diff := Sub value (get (val.Values day) pos) in
              if IsZero diff then computeValuationTransactions_loop rest day
              else
                let credit := ValuationAccountFor (pos_Account pos) in
                let t :=
                  {| ast.TDate := val.Date day;
                     ast.Description := adjustment_description pos;
                     ast.Postings :=
                       [ast.NewPostingWithTargets credit (pos_Account pos) (pos_Commodity pos)
                          diff [pos_Commodity pos]] |} in
                computeValuationTransactions_loop rest
                  {| val.Date := val.Date day;
                     val.DayAmounts := val.DayAmounts day;
                     val.Prices := val.Prices day;
                     val.Values :=
                       amounts.Book (val.Values day) credit (pos_Account pos) diff (pos_Commodity pos);
                     val.Transactions := val.Transactions day ++ [t] |}
          end
  end.

(** [Valuator.computeValuationTransactions], ranging over the amounts in the
    order [entries]. *)
Definition computeValuationTransactions_in
  (entries : list (CommodityAccount * Decimal)) (day : val.Day) : outcome val.Day :=
  match Valuation with
  | None => Returned day
  | Some _ => computeValuationTransactions_loop entries day
  end.


Definition set_adjusted (d : ast.Day) (value : gmap CommodityAccount Decimal)
  (transactions : list ast.Transaction) : ast.Day :=
  {| ast.DayDate := ast.DayDate d; ast.Prices := ast.Prices d;
     ast.Assertions := ast.Assertions d; ast.Values := ast.Values d;
     ast.Openings := ast.Openings d; ast.Transactions := transactions;
     ast.Closings := ast.Closings d; ast.Amounts := ast.Amounts d;
     ast.DayValue := value; ast.Normalized := ast.Normalized d |}.

(** The loop of [processValuationTransactions2] over the entries of
    [d.Amounts] in iteration order; a failing valuation returns an error,
    after the adjustments already made. *)
Fixpoint processValuationTransactions2_loop
  (entries : list (CommodityAccount * Decimal)) (d : ast.Day) : ast.Day * option error :=
  match entries with
  | [] => (d, None)
  | (pos, va) :: rest =>
      if bool_decide (Some (pos_Commodity pos) = Valuation) then
        processValuationTransactions2_loop rest d
      else
        let at_ := Account_Type (pos_Account pos) in
        if bool_decide (at_ ≠ ASSETS) && bool_decide (at_ ≠ LIABILITIES) then
          processValuationTransactions2_loop rest d
        else
          match Valuate (ast.Normalized d) (pos_Commodity pos) va with
          | None => (d, Some (Errorf (no_valuation_message pos)))
          | Some value =>
              let diff := Sub value (get (ast.DayValue d) pos) in
              if IsZero diff then processValuationTransactions2_loop rest d
              else
                let credit := ValuationAccountFor (pos_Account pos) in
                let t :=
                  {| ast.TDate := ast.DayDate d;
                     ast.Description := adjustment_description pos;
                     ast.Postings :=
                       [ast.NewPostingWithTargets credit (pos_Account pos) (pos_Commodity pos)
                          diff [pos_Commodity pos]] |} in
                processValuationTransactions2_loop rest
                  (set_adjusted d
                     (amounts.Book (ast.DayValue d) credit (pos_Account pos) diff (pos_Commodity pos))
                     (ast.Transactions d ++ [t]))
          end
  end.


(** The booked day of an [ast.Day] seen as a [val.Day]: the same data under
    the field names of the other package. *)
Definition to_val (d : ast.Day) : val.Day :=
  {| val.Date := ast.DayDate d; val.DayAmounts := ast.Amounts d;
     val.Prices := ast.Normalized d; val.Values := ast.DayValue d;
     val.Transactions := ast.Transactions d |}.

(** *** What the valuation adjustment is to compute *)

(** A position that is revalued: its commodity is not the valuation
    commodity and its account is an asset or a liability. *)
Definition revalued (pos : CommodityAccount) : Prop :=
  Some (pos_Commodity pos) ≠ Valuation ∧
  (Account_Type (pos_Account pos) = ASSETS ∨ Account_Type (pos_Account pos) = LIABILITIES).

#[global] Instance revalued_dec pos : Decision (revalued pos).
Proof. unfold revalued. apply _. Defined.

(** The transaction that adjusts the value of [pos] by [diff] on [date]. *)
Definition adjustment_transaction (date : Time) (pos : CommodityAccount) (diff : Decimal)
  : ast.Transaction :=
  {| ast.TDate := date;
     ast.Description := adjustment_description pos;
     ast.Postings :=
       [ast.NewPostingWithTargets (ValuationAccountFor (pos_Account pos)) (pos_Account pos)
          (pos_Commodity pos) diff [pos_Commodity pos]] |}.

(** The adjustment due for an entry of the amounts, given the recorded
    values: the difference between the recomputed and the recorded value of a
    revalued position, when it is not zero. *)
Definition adjustment (prices : gmap Commodity Decimal) (values : gmap CommodityAccount Decimal)
  (e : CommodityAccount * Decimal) : option (CommodityAccount * Decimal) :=
  if decide (revalued e.1) then
    match Valuate prices (pos_Commodity e.1) e.2 with
    | Some value =>
        let diff := Sub value (get values e.1) in
        if IsZero diff then None else Some (e.1, diff)
    | None => None
    end
  else None.

(** A transaction made for a revalued position of [amounts], with a
    difference that is not zero. *)
Definition is_adjustment (date : Time) (amounts : gmap CommodityAccount Decimal)
  (t : ast.Transaction) : Prop :=
  ∃ pos diff, t = adjustment_transaction date pos diff ∧ revalued pos ∧
    is_Some (amounts !! pos) ∧ IsZero diff = false.

(** The valuation account of an asset or liability account is neither. *)
Definition valuation_accounts_apart : Prop :=
  ∀ a, Account_Type a = ASSETS ∨ Account_Type a = LIABILITIES →
       Account_Type (ValuationAccountFor a) ≠ ASSETS ∧
       Account_Type (ValuationAccountFor a) ≠ LIABILITIES.

(** Booking an adjustment on the values. *)
Definition book_adjustment (values : gmap CommodityAccount Decimal)
  (a : CommodityAccount * Decimal) : gmap CommodityAccount Decimal :=
  amounts.Book values (ValuationAccountFor (pos_Account a.1)) (pos_Account a.1) a.2
    (pos_Commodity a.1).

(** A revalued entry for which [Valuate] fails. *)
Definition no_valuation (prices : gmap Commodity Decimal) (e : CommodityAccount * Decimal) : Prop :=
  revalued e.1 ∧ Valuate prices (pos_Commodity e.1) e.2 = None.

#[global] Instance no_valuation_dec prices e : Decision (no_valuation prices e).
Proof. unfold no_valuation. apply _. Defined.

End Valuator.


(** The day an outcome carries. *)
Definition outcome_day {A : Type} (o : outcome A) : A :=
  match o with
  | Returned a => a
  | Panicked a _ => a
  end.

(** *** [Differ] *)

Definition set_DayValue (d : ast.Day) (value : gmap CommodityAccount Decimal) : ast.Day :=
  set_adjusted d value (ast.Transactions d).

(** The loop of [Differ.Process2] over the days popped from the input channel
    until it is closed; every day is pushed to the result channel.  [prev]
    starts as the nil map.  Cancellation of the context is not modelled. *)
Fixpoint Differ_Process2_loop (prev : gmap CommodityAccount Decimal) (inCh : list ast.Day)
  : list ast.Day :=
  match inCh with
  | [] => []
  | d :: rest =>
      let diff := amounts.Minus (amounts.Clone (ast.DayValue d)) prev in
      set_DayValue d diff :: Differ_Process2_loop (ast.DayValue d) rest
  end.

(** [Differ.Process2]: without [Diff] the input channel is handed on. *)
Definition Differ_Process2 (Diff : bool) (inCh : list ast.Day) : list ast.Day :=
  if negb Diff then inCh else Differ_Process2_loop ∅ inCh.

(** The snapshot subtracted from the [i]-th day of the input: the nil map for
    the first day, the value of the preceding day for the others. *)
Definition previous (prev : gmap CommodityAccount Decimal) (inCh : list ast.Day) (i : nat)
  : gmap CommodityAccount Decimal :=
  match i with
  | O => prev
  | S j => default ∅ (ast.DayValue <$> inCh !! j)
  end.

End process.

(** ** The syntax tree and the [Sorter] stage *)
Module sorter.
Import ast.

(** *** [ast.AST]: the days by date *)

(** Modelled from the spec: the methods of [ast.AST] are not in the source.
    The specification has the assembler group "directives by date into an
    ordered sequence of Day nodes", a day holding "all directives dated on
    one calendar date, split by kind", the days "materialized as an ascending
    sequence".  The methods below do that the way [ledger.Builder] of the
    source does it: the day of the directive's date is fetched or created and
    the directive appended to the list of its kind; [SortedDays] sorts the
    days of the map by date. *)
Definition AST_Day (days : gmap Time Day) (d : Time) : Day :=
  default (newDay d) (days !! d).

Definition with_lists (s : Day) (prices : list Price) (assertions : list Assertion)
  (values : list Value) (openings : list Open) (transactions : list Transaction)
  (closings : list Close) : Day :=
  {| DayDate := DayDate s; Prices := prices; Assertions := assertions; Values := values;
     Openings := openings; Transactions := transactions; Closings := closings;
     Amounts := Amounts s; DayValue := DayValue s; Normalized := Normalized s |}.

Definition AddOpen (days : gmap Time Day) (o : Open) : gmap Time Day :=
  let s := AST_Day days (ODate o) in
  <[ODate o := with_lists s (Prices s) (Assertions s) (Values s) (Openings s ++ [o])
                 (Transactions s) (Closings s)]> days.

Definition AddPrice (days : gmap Time Day) (p : Price) : gmap Time Day :=
  let s := AST_Day days (PDate p) in
  <[PDate p := with_lists s (Prices s ++ [p]) (Assertions s) (Values s) (Openings s)
                 (Transactions s) (Closings s)]> days.

Definition AddTransaction (days : gmap Time Day) (t : Transaction) : gmap Time Day :=
  let s := AST_Day days (TDate t) in
  <[TDate t := with_lists s (Prices s) (Assertions s) (Values s) (Openings s)
                 (Transactions s ++ [t]) (Closings s)]> days.

Definition AddAssertion (days : gmap Time Day) (a : Assertion) : gmap Time Day :=
  let s := AST_Day days (ADate a) in
  <[ADate a := with_lists s (Prices s) (Assertions s ++ [a]) (Values s) (Openings s)
                 (Transactions s) (Closings s)]> days.

Definition AddValue (days : gmap Time Day) (v : Value) : gmap Time Day :=
  let s := AST_Day days (VDate v) in
  <[VDate v := with_lists s (Prices s) (Assertions s) (Values s ++ [v]) (Openings s)
                 (Transactions s) (Closings s)]> days.

Definition AddClose (days : gmap Time Day) (c : Close) : gmap Time Day :=
  let s := AST_Day days (CDate c) in
  <[CDate c := with_lists s (Prices s) (Assertions s) (Values s) (Openings s)
                 (Transactions s) (Closings s ++ [c])]> days.

Definition Day_le (d1 d2 : Day) : Prop := (DayDate d1 ≤ DayDate d2)%Z.

#[global] Instance Day_le_dec : RelDecision Day_le.
Proof. intros d1 d2. unfold Day_le. apply _. Defined.

Definition SortedDays (days : gmap Time Day) : list Day :=
  merge_sort Day_le ((map_to_list days).*2).

(** *** [Sorter] *)

(** The state of the sorter: [AST] is nil until the first directive arrives. *)
Record Sorter : Type := mkSorter { AST : option (gmap Time Day) }.

(** [Sorter.Process]; the six kinds are all there are, so the error of the
    default case of the type switch cannot arise. *)
Definition Process (srt : Sorter) (d : Dated) : Sorter :=
  let days := default ∅ (AST srt) in
  match Elem d with
  | DOpen t => mkSorter (Some (AddOpen days t))
  | DPrice t => mkSorter (Some (AddPrice days t))
  | DTransaction t => mkSorter (Some (AddTransaction days t))
  | DAssertion t => mkSorter (Some (AddAssertion days t))
  | DValue t => mkSorter (Some (AddValue days t))
  | DClose t => mkSorter (Some (AddClose days t))
  end.

(** The consumer [next] of the following stage: what it has received, and
    whether it has answered [false], after which [Finalize] returns. *)
Record Sink : Type := mkSink { delivered : list Dated; stopped : bool }.

Section Finalize.

(** The answer of [next] to an element, given what was delivered before. *)
Variable next : list Dated → Dated → bool.

(** One [if !next(...) { return nil }]. *)
Definition call_next (s : Sink) (d : Dated) : Sink :=
  if stopped s then s
  else {| delivered := delivered s ++ [d]; stopped := negb (next (delivered s) d) |}.

(** The body of the loop over the sorted days. *)
Definition Finalize_day (s : Sink) (d : Day) : Sink :=
  let s := foldl (λ s o, call_next s (mkDated (ODate o) (DOpen o))) s (Openings d) in
  let s := foldl (λ s o, call_next s (mkDated (PDate o) (DPrice o))) s (Prices d) in
  let s := foldl (λ s o, call_next s (mkDated (TDate o) (DTransaction o))) s (Transactions d) in
  let s := foldl (λ s o, call_next s (mkDated (VDate o) (DValue o))) s (Values d) in
  let s := foldl (λ s o, call_next s (mkDated (ADate o) (DAssertion o))) s (Assertions d) in
  foldl (λ s o, call_next s (mkDated (CDate o) (DClose o))) s (Closings d).

(** [Sorter.Finalize]: what [next] receives.  With no directive processed
    [srt.AST] is nil and [SortedDays] is called on a nil tree; that case is
    left undefined ([None]). *)
Definition Finalize (srt : Sorter) : option (list Dated) :=
  match AST srt with
  | None => None
  | Some days => Some (delivered (foldl Finalize_day (mkSink [] false) (SortedDays days)))
  end.

End Finalize.

(** The whole stage: every directive is processed, then [Finalize] runs. *)
Definition run (next : list Dated → Dated → bool) (input : list Dated) : option (list Dated) :=
  Finalize next (foldl Process (mkSorter None) input).

(** The date a directive carries. *)
Definition directive_date (e : Directive) : Time :=
  match e with
  | DOpen o => ODate o
  | DPrice p => PDate p
  | DTransaction t => TDate t
  | DAssertion a => ADate a
  | DValue v => VDate v
  | DClose c => CDate c
  end.

(** The place of a kind in the order [Finalize] emits a day in. *)
Definition emitted_rank (e : Directive) : nat :=
  match e with
  | DOpen _ => 0
  | DPrice _ => 1
  | DTransaction _ => 2
  | DValue _ => 3
  | DAssertion _ => 4
  | DClose _ => 5
  end.

(** The same-day priority of the specification: Price, Open, Transaction,
    Value, Assertion, Close. *)
Definition specified_rank (e : Directive) : nat :=
  match e with
  | DPrice _ => 0
  | DOpen _ => 1
  | DTransaction _ => 2
  | DValue _ => 3
  | DAssertion _ => 4
  | DClose _ => 5
  end.

(** Ordered by date, then by the rank of the kind. *)
Definition ordered_by (rank : Directive → nat) (x y : Dated) : Prop :=
  (Date x < Date y)%Z ∨ (Date x = Date y ∧ (rank (Elem x) ≤ rank (Elem y))%nat).

#[global] Instance ordered_by_dec rank : RelDecision (ordered_by rank).
Proof. intros x y. unfold ordered_by. apply _. Defined.

(** Every element of the sequence is followed only by elements it is ordered
    before. *)
Definition in_order (rank : Directive → nat) (l : list Dated) : Prop :=
  StronglySorted (ordered_by rank) l.

(** The directives of a day as [Finalize] hands them on, each under its own
    date. *)
Definition day_items (d : Day) : list Dated :=
  map (λ o, mkDated (ODate o) (DOpen o)) (Openings d) ++
  map (λ o, mkDated (PDate o) (DPrice o)) (Prices d) ++
  map (λ o, mkDated (TDate o) (DTransaction o)) (Transactions d) ++
  map (λ o, mkDated (VDate o) (DValue o)) (Values d) ++
  map (λ o, mkDated (ADate o) (DAssertion o)) (Assertions d) ++
  map (λ o, mkDated (CDate o) (DClose o)) (Closings d).

(** An element under the date its directive carries. *)
Definition own_date (x : Dated) : Dated := mkDated (directive_date (Elem x)) (Elem x).

(** What [Process] does to the days of the tree. *)
Definition add (days : gmap Time Day) (d : Dated) : gmap Time Day :=
  match Elem d with
  | DOpen t => AddOpen days t
  | DPrice t => AddPrice days t
  | DTransaction t => AddTransaction days t
  | DAssertion t => AddAssertion days t
  | DValue t => AddValue days t
  | DClose t => AddClose days t
  end.

(** Every day of the tree is filed under its own date and holds directives
    of that date only. *)
Definition well_dated (days : gmap Time Day) : Prop :=
  ∀ t d, days !! t = Some d → DayDate d = t ∧ Forall (λ x, Date x = t) (day_items d).

End sorter.

(** ** The [printer] package *)
Module printer.

(** *** Directives of the [model] package, as the printer reads them *)

(** [model.Posting]: one side of a booking; a booking is a pair of postings,
    the second seen from the other account. *)
Record Posting : Type := mkPosting {
  PAccount : Account;
  Other : Account;
  Amount : Decimal;
  PCommodity : Commodity
}.

(** [model.Transaction]; [Targets] is [None] for a nil slice. *)
Record Transaction : Type := mkTransaction {
  TDate : Time;
  Description : string;
  Postings : list Posting;
  Targets : option (list Commodity)
}.

Record Open : Type := mkOpen { ODate : Time; OAccount : Account }.

Record Close : Type := mkClose { CDate : Time; CAccount : Account }.

Record Price : Type := mkPrice {
  PDate : Time; PrCommodity : Commodity; PrPrice : Decimal; PrTarget : Commodity
}.

Record Assertion : Type := mkAssertion {
  ADate : Time; AAccount : Account; AAmount : Decimal; ACommodity : Commodity
}.

Inductive Directive : Type :=
| DTransaction (t : Transaction)
| DOpen (o : Open)
| DClose (c : Close)
| DAssertion (a : Assertion)
| DPrice (p : Price).

(** [journal.Day], the lists [PrintJournal] reads. *)
Record Day : Type := mkDay {
  Prices : list Price;
  Openings : list Open;
  Transactions : list Transaction;
  Assertions : list Assertion;
  Closings : list Close
}.

(** *** The writer *)

Definition newline : string := String (Ascii.ascii_of_nat 10) EmptyString.
Definition quote : string := String (Ascii.ascii_of_nat 34) EmptyString.

Fixpoint spaces (n : nat) : string :=
  match n with
  | O => EmptyString
  | S m => String (Ascii.ascii_of_nat 32) (spaces m)
  end.

Inductive error : Type :=
| ErrShortWrite
| Errorf (msg : string).

(** An [io.Writer]: the bytes written so far and, when the writer is bound to
    fail, the number of bytes it still accepts. *)
Record Writer : Type := mkWriter { written : string; room : option nat }.

Definition Writer_Write (w : Writer) (bs : string) : Writer * (Z * option error) :=
  match room w with
  | None => ({| written := written w +:+ bs; room := None |}, (Z.of_nat (String.length bs), None))
  | Some r =>
      if decide (String.length bs ≤ r)%nat then
        ({| written := written w +:+ bs; room := Some (r - String.length bs)%nat |},
         (Z.of_nat (String.length bs), None))
      else
        ({| written := written w +:+ String.substring 0 r bs; room := Some 0%nat |},
         (Z.of_nat r, Some ErrShortWrite))
  end.

(** *** [Printer] *)
Record Printer : Type := mkPrinter { writer : Writer; padding : Z; count : Z }.

(** [New]. *)
Definition New (w : Writer) : Printer := {| writer := w; padding := 0; count := 0 |}.

(** A method of the printer: the state after the call and what it returns. *)
Definition io (A : Type) : Type := Printer → Printer * A.

(** [Printer.Write]. *)
Definition Write (bs : string) : io (Z * option error) := λ p,
  let '(w, (n, err)) := Writer_Write (writer p) bs in
  ({| writer := w; padding := padding p; count := count p + n |}, (n, err)).

(** [fmt.Fprintf(p, ...)] with the formatted text, and [io.WriteString(p, s)]:
    one call of [p.Write]. *)
Definition Fprintf (text : string) : io (Z * option error) := Write text.
Definition WriteString (s : string) : io (Z * option error) := Write s.

(** [if _, err := m; err != nil { return p.count - start, err }], then [k]. *)
Definition or_return (start : Z) (m : io (Z * option error)) (k : io (Z * option error))
  : io (Z * option error) := λ p,
  let '(p1, (_, err)) := m p in
  match err with
  | Some e => (p1, (count p1 - start, Some e))
  | None => k p1
  end.

Section Printer.

(** [time.Time.Format("2006-01-02")], [decimal.Decimal.String] and
    [utf8.RuneCountInString] are library functions. *)
Variable Format : Time → string.
Variable Decimal_String : Decimal → string.
Variable RuneCountInString : string → Z.

(** [Printer.rightPad]. *)
Definition rightPad (p : Printer) (a : Account) : string :=
  Account_String a +:+ spaces (Z.to_nat (padding p - RuneCountInString (Account_String a))).

(** [leftPad]. *)
Definition leftPad (n : nat) (s : string) : string :=
  if decide (n < String.length s)%nat then s
  else spaces (n - String.length s) +:+ s.

Definition posting_text (p : Printer) (t : Posting) : string :=
  rightPad p (Other t) +:+ " " +:+ rightPad p (PAccount t) +:+ " " +:+
  leftPad 10 (Decimal_String (Amount t)) +:+ " " +:+ Commodity_String (PCommodity t).

(** [Printer.printPosting]. *)
Definition printPosting (t : Posting) : io (Z * option error) := λ p,
  Fprintf (posting_text p t) p.

(** The loop of [printTransaction] over the postings from index [i] on. *)
Fixpoint printTransaction_loop (start : Z) (i : nat) (postings : list Posting)
  : io (Z * option error) :=
  match postings with
  | [] => λ p, (p, (count p - start, None))
  | po :: rest =>
      if decide (i mod 2 = 0)%nat then printTransaction_loop start (S i) rest
      else
        or_return start (printPosting po)
          (or_return start (WriteString newline)
             (printTransaction_loop start (S i) rest))
  end.

Definition performance_text (targets : list Commodity) : string :=
  "@performance(" +:+ String.concat "," (map Commodity_String targets) +:+ ")" +:+ newline.

Definition header_text (t : Transaction) : string :=
  Format (TDate t) +:+ " " +:+ quote +:+ Description t +:+ quote.

(** [Printer.printTransaction]. *)
Definition printTransaction (t : Transaction) : io (Z * option error) := λ p,
  let start := count p in
  let annotation : io (Z * option error) :=
    match Targets t with
    | Some targets => Fprintf (performance_text targets)
    | None => λ p, (p, (0, None))
    end in
  or_return start annotation
    (or_return start (Fprintf (header_text t))
       (or_return start (WriteString newline)
          (printTransaction_loop start 0 (Postings t)))) p.

Definition open_text (o : Open) : string :=
  Format (ODate o) +:+ " open " +:+ Account_String (OAccount o).

Definition close_text (c : Close) : string :=
  Format (CDate c) +:+ " close " +:+ Account_String (CAccount c).

Definition price_text (pr : Price) : string :=
  Format (PDate pr) +:+ " price " +:+ Commodity_String (PrCommodity pr) +:+ " " +:+
  Decimal_String (PrPrice pr) +:+ " " +:+ Commodity_String (PrTarget pr).

Definition assertion_text (a : Assertion) : string :=
  Format (ADate a) +:+ " balance " +:+ Account_String (AAccount a) +:+ " " +:+
  Decimal_String (AAmount a) +:+ " " +:+ Commodity_String (ACommodity a).

(** [Printer.PrintDirective]. *)
Definition PrintDirective (directive : Directive) : io (Z * option error) :=
  match directive with
  | DTransaction d => printTransaction d
  | DOpen d => Fprintf (open_text d)
  | DClose d => Fprintf (close_text d)
  | DAssertion d => Fprintf (assertion_text d)
  | DPrice d => Fprintf (price_text d)
  end.

(** [Printer.updatePadding]. *)
Definition updatePadding (t : Transaction) (p : Printer) : Printer :=
  foldl (λ p pt,
    let cr := RuneCountInString (Account_String (PAccount pt)) in
    let dr := RuneCountInString (Account_String (Other pt)) in
    let p1 := if decide (padding p < cr)
              then {| writer := writer p; padding := cr; count := count p |} else p in
    if decide (padding p1 < dr)
    then {| writer := writer p1; padding := dr; count := count p1 |} else p1)
    p (Postings t).

(** [Printer.newline]: written to the writer itself, past the printer's
    byte count. *)
Definition print_newline : io (option error) := λ p,
  let '(w, (_, err)) := Writer_Write (writer p) newline in
  ({| writer := w; padding := padding p; count := count p |}, err).

(** [Printer.writeLn]; the running total it adds to is never read. *)
Definition writeLn (d : Directive) : io (option error) := λ p,
  let '(p1, (_, err)) := PrintDirective d p in
  match err with
  | Some e => (p1, Some e)
  | None => print_newline p1
  end.

(** [for _, x := range l { if err := f(x); err != nil { return err } }], then [k]. *)
Fixpoint for_each {A : Type} (f : A → io (option error)) (l : list A) (k : io (option error))
  : io (option error) :=
  match l with
  | [] => k
  | x :: rest => λ p,
      let '(p1, err) := f x p in
      match err with
      | Some e => (p1, Some e)
      | None => for_each f rest k p1
      end
  end.

(** [if len(l) > 0 { if err := p.newline(w, &n); err != nil { return err } }], then [k]. *)
Definition newline_after {A : Type} (l : list A) (k : io (option error)) : io (option error) :=
  match l with
  | [] => k
  | _ :: _ => λ p,
      let '(p1, err) := print_newline p in
      match err with
      | Some e => (p1, Some e)
      | None => k p1
      end
  end.

(** The body of the second loop of [PrintJournal] for one day. *)
Definition PrintJournal_day (day : Day) (k : io (option error)) : io (option error) :=
  for_each (λ pr, writeLn (DPrice pr)) (Prices day)
    (newline_after (Prices day)
       (for_each (λ o, writeLn (DOpen o)) (Openings day)
          (newline_after (Openings day)
             (for_each (λ t, writeLn (DTransaction t)) (Transactions day)
                (for_each (λ a, writeLn (DAssertion a)) (Assertions day)
                   (newline_after (Assertions day)
                      (for_each (λ c, writeLn (DClose c)) (Closings day)
                         (newline_after (Closings day) k)))))))).

(** [PrintJournal] on the sorted days of the journal. *)
Definition PrintJournal (w : Writer) (days : list Day) : Printer * option error :=
  let p := New w in
  let p := foldl (λ p day, foldl (λ p t, updatePadding t p) p (Transactions day)) p days in
  foldr PrintJournal_day (λ p, (p, None)) days p.

(** The lines of the given postings, each ended by a newline. *)
Definition posting_lines (p : Printer) (postings : list Posting) : string :=
  foldr (λ po rest, posting_text p po +:+ newline +:+ rest) EmptyString postings.

(** The line [printTransaction] writes first when the transaction has targets. *)
Definition annotation_text (t : Transaction) : string :=
  match Targets t with
  | Some targets => performance_text targets
  | None => EmptyString
  end.

(** The lines of the given directives, each ended by a newline; a
    transaction takes its header line and the lines of [printed] of its
    postings. *)
Definition directive_text (printed : list Posting → list Posting) (p : Printer) (d : Directive)
  : string :=
  match d with
  | DTransaction t =>
      annotation_text t +:+ header_text t +:+ newline +:+ posting_lines p (printed (Postings t))
  | DOpen o => open_text o
  | DClose c => close_text c
  | DAssertion a => assertion_text a
  | DPrice pr => price_text pr
  end.

End Printer.

(** The elements at the odd indices 1, 3, 5, ... of a list. *)
Fixpoint odd_indexed {A : Type} (l : list A) : list A :=
  match l with
  | _ :: y :: rest => y :: odd_indexed rest
  | _ => []
  end.

(** The elements at the even indices 0, 2, 4, ... of a list. *)
Definition even_indexed {A : Type} (l : list A) : list A :=
  match l with
  | x :: rest => x :: odd_indexed rest
  | [] => []
  end.

(** The postings the loop prints when it starts at index [i]. *)
Definition printed_from (i : nat) (postings : list Posting) : list Posting :=
  if decide (i mod 2 = 0)%nat then odd_indexed postings else even_indexed postings.

(** *** What a writer takes *)

(** The part of a text a writer with the given room accepts, whether all of
    the text fits, and the room that is left. *)
Definition accepted (room : option nat) (text : string) : string :=
  match room with
  | None => text
  | Some r => String.substring 0 r text
  end.

Definition fits (room : option nat) (text : string) : bool :=
  match room with
  | None => true
  | Some r => bool_decide (String.length text ≤ r)%nat
  end.

Definition left_room (room : option nat) (text : string) : option nat :=
  match room with
  | None => None
  | Some r => Some (r - String.length text)%nat
  end.

(** The transactions among the directives, and the accounts of the postings
    of the given transactions. *)
Definition transactions_of (directives : list Directive) : list Transaction :=
  omap (λ d, if d is DTransaction t then Some t else None) directives.

Definition accounts_of (ts : list Transaction) : list Account :=
  ts ≫= λ t, Postings t ≫= λ po, [PAccount po; Other po].

Section Layout.

Variable Format : Time → string.
Variable Decimal_String : Decimal → string.
Variable RuneCountInString : string → Z.

(** [Printer.Initialize]. *)
Definition Initialize (directive : list Directive) (p : Printer) : Printer :=
  foldl (λ p d,
    match d with
    | DTransaction t => updatePadding RuneCountInString t p
    | _ => p
    end) p directive.

(** The lines of a list of items, each ended by a newline. *)
Definition lines {A : Type} (text : A → string) (l : list A) : string :=
  foldr (λ x rest, text x +:+ newline +:+ rest) EmptyString l.

(** A group of lines, followed by an empty line unless the group is empty. *)
Definition group {A : Type} (text : A → string) (l : list A) : string :=
  match l with
  | [] => EmptyString
  | _ :: _ => lines text l +:+ newline
  end.

(** The text of a day and of a journal, for the padding of the printer. *)
Definition day_text (p : Printer) (day : Day) : string :=
  group (price_text Format Decimal_String) (Prices day) +:+
  group (open_text Format) (Openings day) +:+
  lines (λ t, directive_text Format Decimal_String RuneCountInString odd_indexed p
                (DTransaction t)) (Transactions day) +:+
  group (assertion_text Format Decimal_String) (Assertions day) +:+
  group (close_text Format) (Closings day).

Definition journal_text (p : Printer) (days : list Day) : string :=
  foldr (λ day rest, day_text p day +:+ rest) EmptyString days.

End Layout.

End printer.

(** ** The number a decimal denotes *)
Module numeric.
Import QArith Qcanon.
Local Open Scope Z_scope.

(** [value * 10 ^ exp] as a fraction, and as a rational number in lowest
    terms (on which equality is equality of numbers). *)
Definition rational (d : Decimal) : Q :=
  (inject_Z (value d) * inject_Z 10 ^ exp d)%Q.

Definition number (d : Decimal) : Qc := Q2Qc (rational d).

(** The sum of the numbers of a list of decimals. *)
Definition sum (l : list Decimal) : Qc := foldr (λ d acc, (number d + acc)%Qc) (Q2Qc 0) l.

(** What a position contributes to the total of a commodity. *)
Definition share (c : Commodity) (k : CommodityAccount) (v : Decimal) : Qc :=
  if decide (pos_Commodity k = c) then number v else Q2Qc 0.

(** The total of a commodity over all accounts of an amounts mapping. *)
Definition total (c : Commodity) (am : gmap CommodityAccount Decimal) : Qc :=
  map_fold (λ k v acc, (share c k v + acc)%Qc) (Q2Qc 0) am.

End numeric.

(** ** Fixtures used by the examples *)
Module fixtures.

Definition Assets_Cash : Account := mkAccount ASSETS "Assets:Cash".
Definition Assets_Broker : Account := mkAccount ASSETS "Assets:Broker".
Definition Expenses_Food : Account := mkAccount EXPENSES "Expenses:Food".
Definition Equity_Opening : Account := mkAccount EQUITY "Equity:Opening".
Definition Equity_Valuation : Account := mkAccount EQUITY "Equity:Valuation".
Definition USD : Commodity := mkCommodity "USD".
Definition CHF : Commodity := mkCommodity "CHF".
Definition AAPL : Commodity := mkCommodity "AAPL".

Definition Cash_USD : CommodityAccount := mkCommodityAccount Assets_Cash USD.
Definition Food_USD : CommodityAccount := mkCommodityAccount Expenses_Food USD.

(** 10.00 *)
Definition ten : Decimal := decimal.New 1000 (-2).

(** 2023-01-01 and 2023-01-02 as day numbers. *)
Definition day1 : Time := 19358.
Definition day2 : Time := 19359.

Definition food_posting : ledger.Posting :=
  {| ledger.Credit := Assets_Cash; ledger.Debit := Expenses_Food; ledger.PCommodity := USD;
     ledger.Amount := ten; ledger.Value := zero_value |}.

(** A transaction crediting Assets:Cash and debiting Expenses:Food with 10.00 USD. *)
Definition food : ledger.Transaction :=
  {| ledger.TDate := day1; ledger.Description := "Lunch"; ledger.Postings := [food_posting] |}.

(** A new balance on which the listed accounts have been opened. *)
Definition opened (accounts : list Account) : balance.Balance :=
  foldl (λ b a, balance.set_Accounts b (balance.Open (balance.Accounts b) a).1)
    (balance.New None) accounts.

(** A valuation by direct price lookup: the amount times the price of the
    commodity, and a failure when the commodity has no price. *)
Definition price_lookup (prices : gmap Commodity Decimal) (c : Commodity) (a : Decimal)
  : option Decimal :=
  match prices !! c with
  | Some p => Some {| value := value a * value p; exp := exp a + exp p |}
  | None => None
  end.


(** One valuation account for all accounts. *)
Definition valuation_account (a : Account) : Account := Equity_Valuation.

Definition Broker_AAPL : CommodityAccount := mkCommodityAccount Assets_Broker AAPL.

(** A booked day holding 3 AAPL at the broker, AAPL priced at 150.00 CHF,
    with no value recorded yet. *)
Definition broker_day : val.Day :=
  {| val.Date := day1;
     val.DayAmounts := {[ Broker_AAPL := decimal.New 3 0 ]};
     val.Prices := {[ AAPL := decimal.New 15000 (-2) ]};
     val.Values := ∅;
     val.Transactions := [] |}.

(** The same day as an [ast.Day], on a given date. *)
Definition broker_ast_day (date : Time) : ast.Day :=
  {| ast.DayDate := date; ast.Prices := []; ast.Assertions := []; ast.Values := [];
     ast.Openings := []; ast.Transactions := []; ast.Closings := [];
     ast.Amounts := {[ Broker_AAPL := decimal.New 3 0 ]};
     ast.DayValue := ∅;
     ast.Normalized := {[ AAPL := decimal.New 15000 (-2) ]} |}.

(** A booked day holding 3 AAPL at the broker and 100 USD in cash, USD priced
    at 0.90 CHF and AAPL without a price, with no value recorded yet; the same
    day as an [ast.Day]; and its amounts with the broker position first. *)
Definition unpriced_day : val.Day :=
  {| val.Date := day1;
     val.DayAmounts := {[ Broker_AAPL := decimal.New 3 0; Cash_USD := decimal.New 100 0 ]};
     val.Prices := {[ USD := decimal.New 90 (-2) ]};
     val.Values := ∅;
     val.Transactions := [] |}.

Definition unpriced_ast_day : ast.Day :=
  {| ast.DayDate := day1; ast.Prices := []; ast.Assertions := []; ast.Values := [];
     ast.Openings := []; ast.Transactions := []; ast.Closings := [];
     ast.Amounts := {[ Broker_AAPL := decimal.New 3 0; Cash_USD := decimal.New 100 0 ]};
     ast.DayValue := ∅;
     ast.Normalized := {[ USD := decimal.New 90 (-2) ]} |}.

Definition unpriced_entries : list (CommodityAccount * Decimal) :=
  [(Broker_AAPL, decimal.New 3 0); (Cash_USD, decimal.New 100 0)].

(** A valuation account that is itself an asset account, and a booked day
    holding 3 AAPL at the broker and 1 AAPL in that account, AAPL priced at
    150.00 CHF, with no value recorded yet. *)
Definition cash_as_valuation_account (a : Account) : Account := Assets_Cash.

Definition Cash_AAPL : CommodityAccount := mkCommodityAccount Assets_Cash AAPL.

Definition shared_day : val.Day :=
  {| val.Date := day1;
     val.DayAmounts := {[ Broker_AAPL := decimal.New 3 0; Cash_AAPL := decimal.New 1 0 ]};
     val.Prices := {[ AAPL := decimal.New 15000 (-2) ]};
     val.Values := ∅;
     val.Transactions := [] |}.

Definition shared_entries : list (CommodityAccount * Decimal) :=
  [(Broker_AAPL, decimal.New 3 0); (Cash_AAPL, decimal.New 1 0)].

(** Two balances with amounts: lunch paid once, and lunch paid twice. *)
Definition lunch_once : balance.Balance :=
  balance.book_all (opened [Assets_Cash; Expenses_Food]) [food].

Definition lunch_twice : balance.Balance :=
  balance.book_all (opened [Assets_Cash; Expenses_Food]) [food; food].

(** A balance of 2023-01-01 valued in CHF, with lunch paid, its value
    recorded, both accounts open and a price for USD. *)
Definition valued_books : balance.Balance :=
  {| balance.BDate := day1;
     balance.Amounts := balance.Amounts lunch_once;
     balance.Values := {[ Cash_USD := decimal.New (-900) (-2); Food_USD := decimal.New 900 (-2) ]};
     balance.Accounts := balance.Accounts lunch_once;
     balance.Valuation := Some CHF;
     balance.NormalizedPrices := {[ USD := decimal.New 90 (-2) ]} |}.

(** Two days on which the broker position is valued at 450.00 and at 480.00. *)
Definition valued_day (date : Time) (value : Decimal) : ast.Day :=
  process.set_DayValue (broker_ast_day date) {[ Broker_AAPL := value ]}.

(** A price and an open directive of the same day, as the parser hands them
    on. *)
Definition a_price : ast.Dated :=
  ast.mkDated day1 (ast.DPrice (ast.mkPrice day1 AAPL CHF (decimal.New 15000 (-2)))).

Definition an_open : ast.Dated :=
  ast.mkDated day1 (ast.DOpen (ast.mkOpen day1 Assets_Cash)).

(** A consumer that takes everything. *)
Definition always (h : list ast.Dated) (x : ast.Dated) : bool := true.

(** A writer that never fails, with nothing written yet. *)
Definition buffer : printer.Writer := printer.mkWriter EmptyString None.

(** Dates and decimals shown by their day number and coefficient; a rune per
    byte. *)
Definition show_date (t : Time) : string := pretty t.
Definition show_decimal (d : Decimal) : string := pretty (value d) +:+ "e" +:+ pretty (exp d).
Definition count_bytes (s : string) : Z := Z.of_nat (String.length s).

(** The two postings of one booking, and a transaction holding them. *)
Definition cash_side : printer.Posting :=
  printer.mkPosting Assets_Cash Expenses_Food (decimal.New (-1000) (-2)) USD.

Definition food_side : printer.Posting :=
  printer.mkPosting Expenses_Food Assets_Cash ten USD.

Definition lunch : printer.Transaction :=
  printer.mkTransaction day1 "Lunch" [cash_side; food_side] None.

(** A transaction with one posting only. *)
Definition half_lunch : printer.Transaction :=
  printer.mkTransaction day1 "Lunch" [cash_side] None.

End fixtures.

(** * Properties *)

Lemma RescalePair_same d : RescalePair d d = (d, d).
Proof. unfold RescalePair. by rewrite decide_True. Qed.

Lemma Sub_self d : Sub d d = {| value := 0; exp := exp d |}.
Proof. unfold Sub. rewrite RescalePair_same. f_equal. lia. Qed.

Lemma IsZero_Sub_self d : IsZero (Sub d d) = true.
Proof. by rewrite Sub_self. Qed.

Lemma Sub_zero_value_l d :
  exp d ≤ 0 → Sub zero_value d = {| value := - value d; exp := exp d |}.
Proof.
  intros Hd. unfold Sub, RescalePair, zero_value; simpl.
  destruct (decide (0 = exp d)) as [He|He].
  - rewrite <- He. f_equal; lia.
  - rewrite Z.min_r by lia. rewrite decide_True by lia.
    unfold rescale; simpl. rewrite decide_False by lia.
    rewrite decide_False by lia. simpl. f_equal.
Qed.

(** ** Booking and the open-account set *)
Module balance_props.
Import ledger balance fixtures.

Lemma get_insert (m : gmap CommodityAccount Decimal) (k k' : CommodityAccount) (v : Decimal) :
  get (<[k' := v]> m) k = if decide (k = k') then v else get m k.
Proof.
  unfold get. destruct (decide (k = k')) as [->|Hne].
  - by rewrite lookup_insert_eq.
  - by rewrite lookup_insert_ne.
Qed.

Lemma get_empty (k : CommodityAccount) : get ∅ k = zero_value.
Proof. unfold get. by rewrite lookup_empty. Qed.

Lemma set_Amounts_twice b am1 am2 : set_Amounts (set_Amounts b am1) am2 = set_Amounts b am2.
Proof. reflexivity. Qed.

Lemma IsOpen_true (oa : gmap Account bool) (a : Account) :
  IsOpen oa a = true ↔ oa !! a = Some true ∨ Account_Type a = EQUITY.
Proof.
  unfold IsOpen, is_set. destruct (oa !! a) as [[]|] eqn:Ha; simpl.
  - split; [by left | done].
  - rewrite bool_decide_eq_true. split; [by right | by intros [?|?]].
  - rewrite bool_decide_eq_true. split; [by right | by intros [?|?]].
Qed.

Lemma IsOpen_equity (oa : gmap Account bool) (a : Account) :
  Account_Type a = EQUITY → IsOpen oa a = true.
Proof. intros Ha. apply IsOpen_true. by right. Qed.

(** One round of the loop when both accounts are open. *)
Lemma bookAmount_loop_cons_open t posting rest b :
  IsOpen (Accounts b) (Credit posting) = true →
  IsOpen (Accounts b) (Debit posting) = true →
  bookAmount_loop t (posting :: rest) b =
  bookAmount_loop t rest
    (set_Amounts b
       (<[drPos posting :=
            Add (get (<[crPos posting := Sub (get (Amounts b) (crPos posting)) (Amount posting)]>
                        (Amounts b)) (drPos posting)) (Amount posting)]>
          (<[crPos posting := Sub (get (Amounts b) (crPos posting)) (Amount posting)]>
             (Amounts b)))).
Proof. intros Hc Hd. simpl. by rewrite Hc, Hd. Qed.

Lemma all_open_cons oa posting rest :
  all_open oa (posting :: rest) ↔
  (IsOpen oa (Credit posting) = true ∧ IsOpen oa (Debit posting) = true) ∧ all_open oa rest.
Proof.
  unfold all_open. split.
  - intros H. split; [apply H; left|]. intros p Hp. apply H. by right.
  - intros [Hp Hrest] p [->|Hin]%elem_of_cons; auto.
Qed.

(** With every account open the loop books all postings: only [Amounts]
    changes, and each position evolves on its own. *)
Lemma bookAmount_loop_all_open t postings b :
  all_open (Accounts b) postings →
  ∃ am, bookAmount_loop t postings b = (set_Amounts b am, None) ∧
    (∀ k, get am k = foldl (posting_effect k) (get (Amounts b) k) postings) ∧
    (∀ k, (∀ posting, posting ∈ postings → k ≠ crPos posting ∧ k ≠ drPos posting) →
          am !! k = Amounts b !! k).
Proof.
  revert b. induction postings as [|posting rest IH]; intros b Hopen.
  - exists (Amounts b). split; [by destruct b|]. split; done.
  - apply all_open_cons in Hopen as [[Hc Hd] Hrest].
    rewrite bookAmount_loop_cons_open by done.
    set (am1 := <[crPos posting := _]> (Amounts b)).
    set (am2 := <[drPos posting := _]> am1).
    destruct (IH (set_Amounts b am2)) as (am & Heq & Hget & Hframe); [exact Hrest|].
    exists am. split; [by rewrite Heq|]. split.
    + intros k. rewrite Hget. simpl. f_equal.
      unfold posting_effect, am2, am1. rewrite !get_insert.
      repeat case_decide; subst; congruence.
    + intros k Hk. rewrite Hframe.
      * destruct (Hk posting) as [Hkc Hkd]; [left|]. simpl. unfold am2, am1.
        by rewrite !lookup_insert_ne.
      * intros p Hp. apply Hk. by right.
Qed.

(** The loop fails exactly when some posting names an account that is not
    open. *)
Lemma bookAmount_loop_error t postings b :
  (∃ e, (bookAmount_loop t postings b).2 = Some e) ↔
  ∃ posting, posting ∈ postings ∧
    (IsOpen (Accounts b) (Credit posting) = false ∨ IsOpen (Accounts b) (Debit posting) = false).
Proof.
  revert b. induction postings as [|posting rest IH]; intros b.
  - simpl. split; [by intros [e He]|]. intros (p & Hp & _). by apply elem_of_nil in Hp.
  - destruct (IsOpen (Accounts b) (Credit posting)) eqn:Hc;
      [destruct (IsOpen (Accounts b) (Debit posting)) eqn:Hd|].
    + rewrite bookAmount_loop_cons_open by done. rewrite IH. simpl.
      split; intros (p & Hp & Hor).
      * exists p. split; [by right | done].
      * apply elem_of_cons in Hp as [->|Hp]; [|by exists p].
        destruct Hor; congruence.
    + simpl. rewrite Hc, Hd. simpl. split; [|eauto].
      intros _. exists posting. split; [left | by right].
    + simpl. rewrite Hc. simpl. split; [|eauto].
      intros _. exists posting. split; [left | by left].
Qed.

(** C10: for an Equity-typed account that was never opened, [Accounts.IsOpen]
    reports it open, yet [Accounts.Close] returns the error "account ... is
    already closed" and leaves the set as it was: the close operation and the
    open check disagree on implicitly open equity accounts. *)
Theorem C10_equity_IsOpen_yet_Close_fails (oa : gmap Account bool) (a : Account) :
  Account_Type a = EQUITY →
  oa !! a = None →
  IsOpen oa a = true ∧
  Close oa a = (oa, Some (Errorf ("account " +:+ Account_String a +:+ " is already closed"))).
Proof.
  intros Hty Hnone. split.
  - by apply IsOpen_equity.
  - unfold Close, is_set. by rewrite Hnone.
Qed.

Lemma C10_witness :
  IsOpen ∅ Equity_Opening = true ∧
  Close ∅ Equity_Opening =
    (∅, Some (Errorf ("account " +:+ Account_String Equity_Opening +:+ " is already closed"))).
Proof.
  apply (C10_equity_IsOpen_yet_Close_fails ∅ Equity_Opening); reflexivity.
Defined.

(** C2: processing a transaction fails with an error exactly when the credit
    or the debit account of one of its postings is not open, where an account
    is open when it is in the open-account set or has type Equity; the error
    names the first such account.  Equity accounts are exempt: [IsOpen] holds
    for them on any set, the empty one included, and a transaction between
    equity accounts never fails the check, even if no account was ever
    opened. *)
Theorem C2_bookAmount_fails_iff_account_not_open (b : Balance) (t : Transaction) :
  ((∃ e, (bookAmount b t).2 = Some e) ↔
   ∃ posting, posting ∈ Postings t ∧
     (IsOpen (Accounts b) (Credit posting) = false ∨
      IsOpen (Accounts b) (Debit posting) = false)) ∧
  (∀ oa a, IsOpen oa a = false ↔ oa !! a ≠ Some true ∧ Account_Type a ≠ EQUITY) ∧
  (∀ oa a, Account_Type a = EQUITY → IsOpen oa a = true) ∧
  ((∀ posting, posting ∈ Postings t →
      Account_Type (Credit posting) = EQUITY ∧ Account_Type (Debit posting) = EQUITY) →
   (bookAmount b t).2 = None ∧ (bookAmount (New None) t).2 = None).
Proof.
  split; [apply bookAmount_loop_error|]. split; [|split].
  - intros oa a. rewrite <- not_true_iff_false, IsOpen_true. tauto.
  - apply IsOpen_equity.
  - intros Heq.
    assert (∀ b0, (bookAmount b0 t).2 = None) as Hall; [|by split].
    intros b0. unfold bookAmount.
    destruct (bookAmount_loop_all_open t (Postings t) b0) as (am & -> & _); [|done].
    intros p Hp. destruct (Heq p Hp). split; by apply IsOpen_equity.
Qed.

Lemma C2_witness :
  (bookAmount (New None)
     {| TDate := day1; Description := "Opening balance";
        Postings := [ {| Credit := Equity_Opening; Debit := Equity_Valuation; PCommodity := USD;
                         Amount := ten; Value := zero_value |} ] |}).2 = None.
Proof.
  refine (proj1 (proj2 (proj2 (proj2
    (C2_bookAmount_fails_iff_account_not_open (New None)
       {| TDate := day1; Description := "Opening balance";
          Postings := [ {| Credit := Equity_Opening; Debit := Equity_Valuation; PCommodity := USD;
                           Amount := ten; Value := zero_value |} ] |}))) _)).
  intros posting Hp. apply list_elem_of_singleton in Hp. subst posting. split; reflexivity.
Defined.

(** The first account found closed is the one the error names. *)
Lemma bookAmount_credit_not_open b t posting rest :
  Postings t = posting :: rest →
  IsOpen (Accounts b) (Credit posting) = false →
  bookAmount b t =
    (b, Some (Error (DTransaction t)
                ("credit account " +:+ Account_String (Credit posting) +:+ " is not open"))).
Proof. intros Hp Hc. unfold bookAmount. rewrite Hp. simpl. by rewrite Hc. Qed.

Lemma bookAmount_debit_not_open b t posting rest :
  Postings t = posting :: rest →
  IsOpen (Accounts b) (Credit posting) = true →
  IsOpen (Accounts b) (Debit posting) = false →
  bookAmount b t =
    (b, Some (Error (DTransaction t)
                ("debit account " +:+ Account_String (Debit posting) +:+ " is not open"))).
Proof. intros Hp Hc Hd. unfold bookAmount. rewrite Hp. simpl. by rewrite Hc, Hd. Qed.

(** C1, as the code has it: when the credit and debit accounts of every
    posting are open, booking succeeds, changes nothing but [Amounts], and
    every position ends with each posting's quantity subtracted where it is
    the credit position and added where it is the debit position; positions
    that are neither keep their entry.  After opening Assets:Cash and
    Expenses:Food, booking a transaction that credits Assets:Cash and debits
    Expenses:Food with 10.00 USD leaves -10.00 at (Assets:Cash, USD) and 10.00
    at (Expenses:Food, USD). *)
Theorem C1_bookAmount_moves_quantity (b : Balance) (t : Transaction) :
  (all_open (Accounts b) (Postings t) →
   ∃ am, bookAmount b t = (set_Amounts b am, None) ∧
     (∀ k, get am k = foldl (posting_effect k) (get (Amounts b) k) (Postings t)) ∧
     (∀ k, (∀ posting, posting ∈ Postings t → k ≠ crPos posting ∧ k ≠ drPos posting) →
           am !! k = Amounts b !! k)) ∧
  (let b0 := opened [Assets_Cash; Expenses_Food] in
   (bookAmount b0 food).2 = None ∧
   Amounts (bookAmount b0 food).1 =
     {[ Cash_USD := decimal.New (-1000) (-2); Food_USD := decimal.New 1000 (-2) ]}).
Proof.
  split.
  - apply bookAmount_loop_all_open.
  - split; [reflexivity|]. apply map_eq. intros k.
    vm_compute (Amounts _).
    reflexivity.
Qed.

Lemma C1_witness :
  ∃ am, bookAmount (opened [Assets_Cash; Expenses_Food]) food =
          (set_Amounts (opened [Assets_Cash; Expenses_Food]) am, None) ∧
    (∀ k, get am k =
          foldl (posting_effect k) (get (Amounts (opened [Assets_Cash; Expenses_Food])) k)
            (Postings food)) ∧
    (∀ k, (∀ posting, posting ∈ Postings food → k ≠ crPos posting ∧ k ≠ drPos posting) →
          am !! k = Amounts (opened [Assets_Cash; Expenses_Food]) !! k).
Proof.
  apply (proj1 (C1_bookAmount_moves_quantity (opened [Assets_Cash; Expenses_Food]) food)).
  intros posting Hp. apply list_elem_of_singleton in Hp. subst posting. split; reflexivity.
Defined.

(** With only Assets:Cash opened, as the example of the claim has it, the
    booking is refused because Expenses:Food is not open, and no amount is
    recorded at either position. *)
Lemma C1_counterexample :
  bookAmount (opened [Assets_Cash]) food =
    (opened [Assets_Cash],
     Some (Error (DTransaction food) "debit account Expenses:Food is not open")) ∧
  Equal (get (Amounts (bookAmount (opened [Assets_Cash]) food).1) Cash_USD)
        (decimal.New (-1000) (-2)) = false ∧
  Equal (get (Amounts (bookAmount (opened [Assets_Cash]) food).1) Food_USD)
        (decimal.New 1000 (-2)) = false.
Proof. split; [reflexivity|]. split; reflexivity. Qed.

End balance_props.

(** ** Copies, differences and closing *)
Module heap_props.
Import ledger balance fixtures balance_props.

(** *** Ranging over the entries of a map *)

Lemma copy_entries_lookup (entries : list (CommodityAccount * Decimal))
  (nm : gmap CommodityAccount Decimal) (k : CommodityAccount) :
  NoDup entries.*1 →
  copy_entries entries nm !! k =
    match (list_to_map entries : gmap CommodityAccount Decimal) !! k with
    | Some v => Some v
    | None => nm !! k
    end.
Proof.
  revert nm. induction entries as [|[k0 v0] rest IH]; intros nm Hnd.
  - simpl. by rewrite lookup_empty.
  - apply NoDup_cons in Hnd as [Hk0 Hnd]. simpl. rewrite IH by done.
    destruct (decide (k = k0)) as [->|Hne].
    + rewrite (not_elem_of_list_to_map_1 _ k0) by done.
      by rewrite !lookup_insert_eq.
    + by rewrite !lookup_insert_ne.
Qed.

(** Copying the entries of a map into an empty map gives the map back, in
    whatever order the entries are visited. *)
Lemma copy_entries_range (m : gmap CommodityAccount Decimal)
  (entries : list (CommodityAccount * Decimal)) :
  entries ≡ₚ map_to_list m → copy_entries entries ∅ = m.
Proof.
  intros Hperm. apply map_eq. intros k.
  assert (NoDup entries.*1) as Hnd.
  { rewrite Hperm. apply NoDup_fst_map_to_list. }
  rewrite copy_entries_lookup by done.
  assert ((list_to_map entries : gmap CommodityAccount Decimal) = m) as ->.
  { rewrite (list_to_map_proper entries (map_to_list m)) by done. apply list_to_map_to_list. }
  rewrite lookup_empty. by destruct (m !! k).
Qed.

Lemma Minus_entries_lookup (entries : list (CommodityAccount * Decimal))
  (m : gmap CommodityAccount Decimal) (k : CommodityAccount) :
  NoDup entries.*1 →
  Minus_entries entries m !! k =
    pointwise_minus m (list_to_map entries) k.
Proof.
  unfold pointwise_minus.
  revert m. induction entries as [|[k0 v0] rest IH]; intros m Hnd.
  - simpl. by rewrite lookup_empty.
  - apply NoDup_cons in Hnd as [Hk0 Hnd]. simpl. rewrite IH by done.
    destruct (decide (k = k0)) as [->|Hne].
    + rewrite (not_elem_of_list_to_map_1 _ k0) by done.
      by rewrite !lookup_insert_eq.
    + rewrite !lookup_insert_ne by done. by rewrite get_insert, decide_False.
Qed.

(** Subtracting the entries of [bo] is pointwise subtraction, in whatever
    order the entries are visited. *)
Lemma Minus_entries_range (m bo : gmap CommodityAccount Decimal)
  (entries : list (CommodityAccount * Decimal)) (k : CommodityAccount) :
  entries ≡ₚ map_to_list bo →
  Minus_entries entries m !! k = pointwise_minus m bo k.
Proof.
  intros Hperm.
  assert (NoDup entries.*1) as Hnd.
  { rewrite Hperm. apply NoDup_fst_map_to_list. }
  rewrite Minus_entries_lookup by done.
  assert ((list_to_map entries : gmap CommodityAccount Decimal) = bo) as ->; [|done].
  rewrite (list_to_map_proper entries (map_to_list bo)) by done. apply list_to_map_to_list.
Qed.

Lemma pointwise_minus_empty (m : gmap CommodityAccount Decimal) (k : CommodityAccount) :
  pointwise_minus m ∅ k = m !! k.
Proof. unfold pointwise_minus. by rewrite lookup_empty. Qed.

Lemma pointwise_minus_self (m : gmap CommodityAccount Decimal) (k : CommodityAccount) :
  pointwise_minus m m k = (λ v, Sub v v) <$> m !! k.
Proof. unfold pointwise_minus, get. by destruct (m !! k). Qed.

(** *** [Minus] on the heap *)

Lemma Minus_spec (h : gmap loc Balance) (b bo : loc) (bb bbo : Balance) :
  h !! b = Some bb → h !! bo = Some bbo →
  Minus h b bo = Some (<[b := minus_balance bb bbo]> h).
Proof.
  intros Hb Hbo. unfold Minus. rewrite Hb, Hbo. rewrite lookup_insert_eq.
  destruct (decide (b = bo)) as [->|Hne].
  - rewrite lookup_insert_eq. rewrite insert_insert_eq. by simplify_eq.
  - rewrite lookup_insert_ne by done. rewrite Hbo. by rewrite insert_insert_eq.
Qed.

Lemma minus_balance_same_but_maps x y : same_but_maps x (minus_balance x y).
Proof. by repeat split. Qed.

Lemma minus_balance_Amounts x y k :
  Amounts (minus_balance x y) !! k = pointwise_minus (Amounts x) (Amounts y) k.
Proof. simpl. by apply Minus_entries_range. Qed.

Lemma minus_balance_Values x y k :
  Values (minus_balance x y) !! k = pointwise_minus (Values x) (Values y) k.
Proof. simpl. by apply Minus_entries_range. Qed.

(** *** The loop of [Diffs] *)

Lemma Diffs_loop_spec (bals : list loc) :
  NoDup bals →
  ∀ (i : nat) (h : gmap loc Balance),
    (i < length bals)%nat →
    (∀ l, l ∈ bals → is_Some (h !! l)) →
    ∃ h', Diffs_loop bals i h = Some h' ∧
      (∀ j bj bj1 x y, (j < i)%nat →
         bals !! S j = Some bj → bals !! j = Some bj1 →
         h !! bj = Some x → h !! bj1 = Some y →
         h' !! bj = Some (minus_balance x y)) ∧
      (∀ l, (∀ j, (j < i)%nat → bals !! S j ≠ Some l) → h' !! l = h !! l).
Proof.
  intros Hnd. induction i as [|i IH]; intros h Hi Hdom.
  - exists h. split; [done|]. split; [intros; lia | done].
  - destruct (lookup_lt_is_Some_2 bals (S i)) as [bi Hbi]; [lia|].
    destruct (lookup_lt_is_Some_2 bals i) as [bi1 Hbi1]; [lia|].
    destruct (Hdom bi) as [x Hx]; [by eapply list_elem_of_lookup_2|].
    destruct (Hdom bi1) as [y Hy]; [by eapply list_elem_of_lookup_2|].
    simpl. rewrite Hbi, Hbi1. rewrite (Minus_spec h bi bi1 x y) by done.
    set (h1 := <[bi := minus_balance x y]> h).
    assert (∀ l, l ≠ bi → h1 !! l = h !! l) as Hh1.
    { intros l Hl. unfold h1. by rewrite lookup_insert_ne. }
    assert (∀ j l, (j ≤ i)%nat → bals !! j = Some l → l ≠ bi) as Hother.
    { intros j l Hj Hl ->. assert (j = S i) by (eapply NoDup_lookup; eauto). lia. }
    destruct (IH h1) as (h' & Hloop & Hdiff & Hframe); [lia| |].
    { intros l Hl. destruct (decide (l = bi)) as [->|Hne].
      - unfold h1. rewrite lookup_insert_eq. eauto.
      - rewrite Hh1 by done. by apply Hdom. }
    exists h'. split; [done|]. split.
    + intros j bj bj1 x' y' Hj Hbj Hbj1 Hx' Hy'.
      destruct (decide (j = i)) as [->|Hji].
      * simplify_eq. rewrite Hframe.
        -- unfold h1. by rewrite lookup_insert_eq.
        -- intros j Hj' Hl. assert (S j = S i) by (eapply NoDup_lookup; eauto). lia.
      * apply Hdiff with j bj1; [lia|done|done| |].
        -- rewrite Hh1; [done|]. apply (Hother (S j)); [lia|done].
        -- rewrite Hh1; [done|]. apply (Hother j); [lia|done].
    + intros l Hl. rewrite Hframe.
      * apply Hh1. intros ->. by apply (Hl i); [lia|].
      * intros j Hj. apply Hl. lia.
Qed.

(** [Diffs] on distinct balances: one element fewer, each the difference to
    its predecessor; nothing else on the heap changes. *)
Lemma Diffs_spec (h : gmap loc Balance) (bals : list loc) :
  bals ≠ [] →
  NoDup bals →
  (∀ l, l ∈ bals → is_Some (h !! l)) →
  ∃ h', Diffs h bals = Some (h', tail bals) ∧
    (∀ i bi bi1 x y,
       bals !! S i = Some bi → bals !! i = Some bi1 →
       h !! bi = Some x → h !! bi1 = Some y →
       h' !! bi = Some (minus_balance x y)) ∧
    (∀ l, l ∉ tail bals → h' !! l = h !! l).
Proof.
  intros Hne Hnd Hdom. destruct bals as [|b0 rest]; [done|].
  destruct (Diffs_loop_spec (b0 :: rest) Hnd (length (b0 :: rest) - 1) h)
    as (h' & Hloop & Hdiff & Hframe); [simpl; lia | done |].
  exists h'. unfold Diffs. rewrite Hloop. split; [done|]. split.
  - intros i bi bi1 x y Hbi Hbi1 Hx Hy. apply Hdiff with i bi1; try done.
    apply lookup_lt_Some in Hbi. simpl in *. lia.
  - intros l Hl. apply Hframe. intros j _ Hj. apply Hl. simpl in *.
    by eapply list_elem_of_lookup_2.
Qed.

(** *** [Copy] *)

Lemma Copy_spec (h : gmap loc Balance) (b : loc) (bal : Balance) :
  h !! b = Some bal →
  Copy h b =
    Some (<[fresh (dom h) :=
              {| BDate := BDate bal; Amounts := Amounts bal; Values := Values bal;
                 Accounts := Accounts_Copy (Accounts bal); Valuation := Valuation bal;
                 NormalizedPrices := NormalizedPrices bal |}]> h,
          fresh (dom h)).
Proof.
  intros Hb. unfold Copy. rewrite Hb.
  by rewrite (copy_entries_range (Amounts bal)), (copy_entries_range (Values bal)).
Qed.

Lemma fresh_not_allocated (h : gmap loc Balance) : h !! fresh (dom h) = None.
Proof. apply not_elem_of_dom. apply is_fresh. Qed.

(** C8: for every balance [b] on the heap, [b.Copy()] is a new object that
    leaves the heap as it was and holds the state of [b]: the same date,
    amounts, values, valuation commodity and prices, and the open-account map
    of [b] with every entry set to true, which is the map of [b] itself when
    that holds only true (as every map made by [Open] and [Close] does).  The
    copy is independent: subtracting [b] from the copy leaves [b] and every
    other object as they were, and subtracting the copy from [b] leaves the
    copy as it was.  After subtracting [b] from it, the copy holds a zero
    amount and a zero value at every key of [b] (the keys of the copy are
    those of [b]), so that every position of the copy reads as zero; its
    other fields are those it had. *)
Theorem C8_Copy_Minus_is_zero (h : gmap loc Balance) (b : loc) (bal : Balance) :
  h !! b = Some bal →
  ∃ h1 nb h2 copy diff,
    Copy h b = Some (h1, nb) ∧
    h !! nb = None ∧ nb ≠ b ∧
    h1 !! nb = Some copy ∧ Amounts copy = Amounts bal ∧ Values copy = Values bal ∧
    h1 !! b = Some bal ∧
    Minus h1 nb b = Some h2 ∧
    h2 !! b = Some bal ∧
    (∀ l, l ≠ nb → h2 !! l = h !! l) ∧
    h2 !! nb = Some diff ∧
    (∀ k, Amounts diff !! k = (λ v, Sub v v) <$> Amounts bal !! k) ∧
    (∀ k, Values diff !! k = (λ v, Sub v v) <$> Values bal !! k) ∧
    (∀ k, IsZero (get (Amounts diff) k) = true ∧ IsZero (get (Values diff) k) = true) ∧
    (∀ l, l ≠ nb → h1 !! l = h !! l) ∧
    BDate copy = BDate bal ∧ Valuation copy = Valuation bal ∧
    NormalizedPrices copy = NormalizedPrices bal ∧
    (∀ a, Accounts copy !! a = (λ _, true) <$> Accounts bal !! a) ∧
    (∀ a, is_set (Accounts bal) a = true → IsOpen (Accounts copy) a = true) ∧
    (all_true (Accounts bal) → copy = bal) ∧
    BDate diff = BDate copy ∧ Accounts diff = Accounts copy ∧
    Valuation diff = Valuation copy ∧ NormalizedPrices diff = NormalizedPrices copy ∧
    (∃ h3, Minus h1 b nb = Some h3 ∧ h3 !! nb = Some copy).
Proof.
  intros Hb. pose proof (fresh_not_allocated h) as Hfresh.
  set (nb := fresh (dom h)) in *.
  assert (nb ≠ b) as Hne by (intros ->; congruence).
  set (copy := {| BDate := BDate bal; Amounts := Amounts bal; Values := Values bal;
                  Accounts := Accounts_Copy (Accounts bal); Valuation := Valuation bal;
                  NormalizedPrices := NormalizedPrices bal |}).
  set (h1 := <[nb := copy]> h).
  assert (h1 !! nb = Some copy) as Hnb by apply lookup_insert_eq.
  assert (h1 !! b = Some bal) as Hb1 by (unfold h1; by rewrite lookup_insert_ne).
  assert (∀ k, Amounts (minus_balance copy bal) !! k = (λ v, Sub v v) <$> Amounts bal !! k) as HA.
  { intros k. rewrite minus_balance_Amounts. apply pointwise_minus_self. }
  assert (∀ k, Values (minus_balance copy bal) !! k = (λ v, Sub v v) <$> Values bal !! k) as HV.
  { intros k. rewrite minus_balance_Values. apply pointwise_minus_self. }
  assert (∀ a, Accounts copy !! a = (λ _, true) <$> Accounts bal !! a) as Hacc.
  { intros a. unfold copy, Accounts_Copy. simpl. apply lookup_fmap. }
  exists h1, nb, (<[nb := minus_balance copy bal]> h1), copy, (minus_balance copy bal).
  split; [by apply Copy_spec|]. do 6 (split; [done|]).
  split; [by apply Minus_spec|].
  split; [by rewrite lookup_insert_ne|].
  split; [intros l Hl; unfold h1; by rewrite !lookup_insert_ne|].
  split; [apply lookup_insert_eq|]. split; [done|]. split; [done|].
  split.
  { intros k. unfold get. rewrite HA, HV. split.
    - destruct (Amounts bal !! k); [apply IsZero_Sub_self | done].
    - destruct (Values bal !! k); [apply IsZero_Sub_self | done]. }
  split; [intros l Hl; unfold h1; by rewrite lookup_insert_ne|].
  do 3 (split; [done|]). split; [done|].
  split.
  { intros a Ha. unfold IsOpen, is_set in *. rewrite Hacc.
    by destruct (Accounts bal !! a). }
  split.
  { intros Hall. unfold copy. destruct bal as [d am va oa v np]. simpl in *. f_equal.
    apply map_eq. intros a. unfold Accounts_Copy. rewrite lookup_fmap.
    destruct (oa !! a) as [x|] eqn:Ha; [|done]. simpl. by rewrite (Hall a x Ha). }
  destruct (minus_balance_same_but_maps copy bal) as (HD & HAc & HVa & HNp).
  do 4 (split; [done|]).
  exists (<[b := minus_balance bal copy]> h1). split; [by apply Minus_spec|].
  by rewrite lookup_insert_ne.
Qed.

Lemma C8_witness :
  ∃ h1 nb h2 copy diff,
    Copy {[ 1%positive := valued_books ]} 1%positive = Some (h1, nb) ∧
    ({[ 1%positive := valued_books ]} : gmap loc Balance) !! nb = None ∧
    nb ≠ 1%positive ∧
    h1 !! nb = Some copy ∧
    Amounts copy = Amounts valued_books ∧
    Values copy = Values valued_books ∧
    h1 !! 1%positive = Some valued_books ∧
    Minus h1 nb 1%positive = Some h2 ∧
    h2 !! 1%positive = Some valued_books ∧
    (∀ l, l ≠ nb → h2 !! l = ({[ 1%positive := valued_books ]} : gmap loc Balance) !! l) ∧
    h2 !! nb = Some diff ∧
    (∀ k, Amounts diff !! k = (λ v, Sub v v) <$> Amounts valued_books !! k) ∧
    (∀ k, Values diff !! k = (λ v, Sub v v) <$> Values valued_books !! k) ∧
    (∀ k, IsZero (get (Amounts diff) k) = true ∧ IsZero (get (Values diff) k) = true) ∧
    (∀ l, l ≠ nb → h1 !! l = ({[ 1%positive := valued_books ]} : gmap loc Balance) !! l) ∧
    BDate copy = BDate valued_books ∧
    Valuation copy = Valuation valued_books ∧
    NormalizedPrices copy = NormalizedPrices valued_books ∧
    (∀ a, Accounts copy !! a = (λ _, true) <$> Accounts valued_books !! a) ∧
    (∀ a, is_set (Accounts valued_books) a = true → IsOpen (Accounts copy) a = true) ∧
    (all_true (Accounts valued_books) → copy = valued_books) ∧
    BDate diff = BDate copy ∧ Accounts diff = Accounts copy ∧
    Valuation diff = Valuation copy ∧ NormalizedPrices diff = NormalizedPrices copy ∧
    (∃ h3, Minus h1 1%positive nb = Some h3 ∧ h3 !! nb = Some copy).
Proof.
  apply (C8_Copy_Minus_is_zero {[ 1%positive := valued_books ]} 1%positive valued_books).
  reflexivity.
Defined.

(** *** Closing an account *)

Lemma not_zero_balance (am : gmap CommodityAccount Decimal) (a : Account) :
  ¬ zero_balance am a ↔
  ∃ c amount, am !! mkCommodityAccount a c = Some amount ∧ IsZero amount = false.
Proof.
  unfold zero_balance. rewrite map_not_Forall by (intros; apply _). split.
  - intros ([a' c] & amount & Hlook & Hnot). simpl in Hnot.
    destruct (decide (a' = a)) as [->|Hne]; [|by destruct Hnot].
    exists c, amount. split; [done|]. destruct (IsZero amount); [by destruct Hnot | done].
  - intros (c & amount & Hlook & Hz). exists (mkCommodityAccount a c), amount.
    split; [done|]. simpl. intros H. specialize (H eq_refl). congruence.
Qed.

Lemma set_Accounts_same b : set_Accounts b (Accounts b) = b.
Proof. by destruct b. Qed.

(** C3, as the code has it: closing an account fails if any (account,
    commodity) balance of that account is nonzero, and it also fails, with
    "account ... is already closed", if the account is not in the
    open-account set; if all its balances are zero and the account is in the
    set, the close succeeds and removes the account from the set.  Closing
    Assets:Cash after 10.00 USD were paid from it fails. *)
Theorem C3_close_needs_zero_balance_and_open_account (b : Balance) (c : ledger.Close) :
  ((∃ co amount, Amounts b !! mkCommodityAccount (CAccount c) co = Some amount ∧
                 IsZero amount = false) →
   AccountCloser_Process b c = (b, Some (Error (DClose c) "account has nonzero position"))) ∧
  (zero_balance (Amounts b) (CAccount c) →
   Accounts b !! CAccount c = Some true →
   AccountCloser_Process b c = (set_Accounts b (delete (CAccount c) (Accounts b)), None) ∧
   delete (CAccount c) (Accounts b) !! CAccount c = None ∧
   (∀ a, a ≠ CAccount c → delete (CAccount c) (Accounts b) !! a = Accounts b !! a)) ∧
  (zero_balance (Amounts b) (CAccount c) →
   is_set (Accounts b) (CAccount c) = false →
   AccountCloser_Process b c =
     (b, Some (Errorf ("account " +:+ Account_String (CAccount c) +:+ " is already closed")))) ∧
  AccountCloser_Process (bookAmount (opened [Assets_Cash; Expenses_Food]) food).1
      (mkClose day2 Assets_Cash) =
    ((bookAmount (opened [Assets_Cash; Expenses_Food]) food).1,
     Some (Error (DClose (mkClose day2 Assets_Cash)) "account has nonzero position")).
Proof.
  split; [|split; [|split]].
  - intros Hnz%not_zero_balance. unfold AccountCloser_Process. by rewrite decide_False.
  - intros Hz Hopen. unfold AccountCloser_Process, Close, is_set.
    rewrite decide_True by done. rewrite Hopen. simpl.
    split; [done|]. split; [apply lookup_delete_eq|].
    intros a Ha. by rewrite lookup_delete_ne.
  - intros Hz Hclosed. unfold AccountCloser_Process, Close.
    rewrite decide_True by done. rewrite Hclosed. simpl. by rewrite set_Accounts_same.
  - reflexivity.
Qed.

Lemma C3_witness :
  AccountCloser_Process (opened [Assets_Cash]) (mkClose day2 Assets_Cash) =
    (set_Accounts (opened [Assets_Cash]) (delete Assets_Cash (Accounts (opened [Assets_Cash]))),
     None) ∧
  delete Assets_Cash (Accounts (opened [Assets_Cash])) !! Assets_Cash = None ∧
  (∀ a, a ≠ Assets_Cash →
     delete Assets_Cash (Accounts (opened [Assets_Cash])) !! a =
     Accounts (opened [Assets_Cash]) !! a).
Proof.
  apply (proj1 (proj2
    (C3_close_needs_zero_balance_and_open_account (opened [Assets_Cash])
       (mkClose day2 Assets_Cash)))).
  - apply map_Forall_empty.
  - reflexivity.
Defined.

(** An account that was never opened has no balance at all, and still its
    close fails. *)
Lemma C3_counterexample :
  zero_balance (Amounts (New None)) Assets_Cash ∧
  AccountCloser_Process (New None) (mkClose day2 Assets_Cash) =
    (New None, Some (Errorf "account Assets:Cash is already closed")).
Proof. split; [apply map_Forall_empty | reflexivity]. Qed.

End heap_props.

(** ** Valuation adjustments *)
Module valuator_props.
Import process fixtures balance_props.

Section Valuator.

Variable Valuate : gmap Commodity Decimal → Commodity → Decimal → option Decimal.
Variable ValuationAccountFor : Account → Account.
Variable Valuation : option Commodity.

Abbreviation revalued := (revalued Valuation).
Abbreviation adjustment := (adjustment Valuate Valuation).
Abbreviation no_valuation := (no_valuation Valuate Valuation).
Abbreviation book_adjustment := (book_adjustment ValuationAccountFor).
Abbreviation adjustment_transaction := (adjustment_transaction ValuationAccountFor).
Abbreviation compute_loop := (computeValuationTransactions_loop Valuate ValuationAccountFor Valuation).
Abbreviation process2_loop := (processValuationTransactions2_loop Valuate ValuationAccountFor Valuation).

(** The two guards of the loop let exactly the revalued positions through. *)
Lemma guards_revalued (pos : CommodityAccount) :
  (if bool_decide (Some (pos_Commodity pos) = Valuation) then true
   else bool_decide (Account_Type (pos_Account pos) ≠ ASSETS) &&
        bool_decide (Account_Type (pos_Account pos) ≠ LIABILITIES)) = false ↔
  revalued pos.
Proof.
  unfold process.revalued.
  repeat case_bool_decide; simpl; destruct (Account_Type (pos_Account pos)); intuition congruence.
Qed.

Lemma guards_not_revalued (pos : CommodityAccount) :
  ¬ revalued pos →
  (if bool_decide (Some (pos_Commodity pos) = Valuation) then true
   else bool_decide (Account_Type (pos_Account pos) ≠ ASSETS) &&
        bool_decide (Account_Type (pos_Account pos) ≠ LIABILITIES)) = true.
Proof. intros Hn. apply not_false_iff_true. by rewrite guards_revalued. Qed.

(** One round of the loop of [computeValuationTransactions]. *)
Lemma compute_loop_cons pos va rest (day : val.Day) :
  compute_loop ((pos, va) :: rest) day =
  if decide (revalued pos) then
    match Valuate (val.Prices day) (pos_Commodity pos) va with
    | None => Panicked day (no_valuation_message pos)
    | Some value =>
        if IsZero (Sub value (get (val.Values day) pos)) then compute_loop rest day
        else compute_loop rest
               {| val.Date := val.Date day; val.DayAmounts := val.DayAmounts day;
                  val.Prices := val.Prices day;
                  val.Values :=
                    book_adjustment (val.Values day) (pos, Sub value (get (val.Values day) pos));
                  val.Transactions :=
                    val.Transactions day ++
                    [adjustment_transaction (val.Date day) pos
                       (Sub value (get (val.Values day) pos))] |}
    end
  else compute_loop rest day.
Proof.
  simpl. destruct (decide (revalued pos)) as [Hr|Hr].
  - apply guards_revalued in Hr.
    destruct (bool_decide (Some (pos_Commodity pos) = Valuation)); [done|]. by rewrite Hr.
  - apply guards_not_revalued in Hr.
    destruct (bool_decide (Some (pos_Commodity pos) = Valuation)); [done|]. by rewrite Hr.
Qed.

(** One round of the loop of [processValuationTransactions2]. *)
Lemma process2_loop_cons pos va rest (d : ast.Day) :
  process2_loop ((pos, va) :: rest) d =
  if decide (revalued pos) then
    match Valuate (ast.Normalized d) (pos_Commodity pos) va with
    | None => (d, Some (Errorf (no_valuation_message pos)))
    | Some value =>
        if IsZero (Sub value (get (ast.DayValue d) pos)) then process2_loop rest d
        else process2_loop rest
               (set_adjusted d
                  (book_adjustment (ast.DayValue d) (pos, Sub value (get (ast.DayValue d) pos)))
                  (ast.Transactions d ++
                   [adjustment_transaction (ast.DayDate d) pos
                      (Sub value (get (ast.DayValue d) pos))]))
    end
  else process2_loop rest d.
Proof.
  simpl. destruct (decide (revalued pos)) as [Hr|Hr].
  - apply guards_revalued in Hr.
    destruct (bool_decide (Some (pos_Commodity pos) = Valuation)); [done|]. by rewrite Hr.
  - apply guards_not_revalued in Hr.
    destruct (bool_decide (Some (pos_Commodity pos) = Valuation)); [done|]. by rewrite Hr.
Qed.

(** [processValuationTransactions2] does on an [ast.Day] what
    [computeValuationTransactions] does on the [val.Day] with the same data,
    returning an error where the other panics; of the day only the values
    and the transactions change. *)
Lemma process2_loop_simulates entries (d : ast.Day) :
  compute_loop entries (to_val d) =
    match (process2_loop entries d).2 with
    | None => Returned (to_val (process2_loop entries d).1)
    | Some (Errorf msg) => Panicked (to_val (process2_loop entries d).1) msg
    end ∧
  (process2_loop entries d).1 =
    set_adjusted d (ast.DayValue (process2_loop entries d).1)
      (ast.Transactions (process2_loop entries d).1).
Proof.
  revert d. induction entries as [|[pos va] rest IH]; intros d.
  - simpl. split; [done | by destruct d].
  - rewrite compute_loop_cons, process2_loop_cons.
    destruct (decide (revalued pos)); [|apply IH]. simpl.
    destruct (Valuate (ast.Normalized d) (pos_Commodity pos) va) as [value|];
      [|split; [done | by destruct d]].
    destruct (IsZero (Sub value (get (ast.DayValue d) pos))); [apply IH|].
    destruct (IH (set_adjusted d
                    (book_adjustment (ast.DayValue d) (pos, Sub value (get (ast.DayValue d) pos)))
                    (ast.Transactions d ++
                     [adjustment_transaction (ast.DayDate d) pos
                        (Sub value (get (ast.DayValue d) pos))]))) as [IH1 IH2].
    split; [exact IH1|]. rewrite IH2 at 1. done.
Qed.

(** Whatever the outcome, the amounts, the date and the prices of the day are
    as before, and the transactions are the old ones followed by adjustments
    of revalued positions. *)
Lemma compute_loop_frame (amounts0 : gmap CommodityAccount Decimal)
  (entries : list (CommodityAccount * Decimal)) (day : val.Day) :
  (∀ e, e ∈ entries → is_Some (amounts0 !! e.1)) →
  val.DayAmounts (outcome_day (compute_loop entries day)) = val.DayAmounts day ∧
  val.Date (outcome_day (compute_loop entries day)) = val.Date day ∧
  val.Prices (outcome_day (compute_loop entries day)) = val.Prices day ∧
  ∃ new, val.Transactions (outcome_day (compute_loop entries day)) =
           val.Transactions day ++ new ∧
         Forall (is_adjustment ValuationAccountFor Valuation (val.Date day) amounts0) new.
Proof.
  revert day. induction entries as [|[pos va] rest IH]; intros day Hin.
  - simpl. repeat split. exists []. by rewrite app_nil_r.
  - assert (∀ e, e ∈ rest → is_Some (amounts0 !! e.1)) as Hrest.
    { intros e He. apply Hin. by right. }
    rewrite compute_loop_cons.
    destruct (decide (revalued pos)) as [Hr|]; [|by apply IH].
    destruct (Valuate (val.Prices day) (pos_Commodity pos) va) as [value|].
    + destruct (IsZero (Sub value (get (val.Values day) pos))) eqn:Hz; [by apply IH|].
      destruct (IH {| val.Date := val.Date day; val.DayAmounts := val.DayAmounts day;
                      val.Prices := val.Prices day;
                      val.Values :=
                        book_adjustment (val.Values day) (pos, Sub value (get (val.Values day) pos));
                      val.Transactions :=
                        val.Transactions day ++
                        [adjustment_transaction (val.Date day) pos
                           (Sub value (get (val.Values day) pos))] |} Hrest)
        as (HA & HD & HP & new & HT & Hnew).
      simpl in *. repeat split; try done.
      exists (adjustment_transaction (val.Date day) pos (Sub value (get (val.Values day) pos)) :: new).
      split; [by rewrite HT, <- app_assoc|].
      apply Forall_cons. split; [|done].
      exists pos, (Sub value (get (val.Values day) pos)).
      split; [done|]. split; [done|]. split; [|done].
      apply (Hin (pos, va)). by left.
    + simpl. repeat split. exists []. by rewrite app_nil_r.
Qed.

Lemma omap_cons_eq {A B : Type} (f : A → option B) (x : A) (l : list A) :
  omap f (x :: l) = match f x with Some y => y :: omap f l | None => omap f l end.
Proof. reflexivity. Qed.

Lemma adjustment_ext prices (v1 v : gmap CommodityAccount Decimal)
  (entries : list (CommodityAccount * Decimal)) :
  (∀ e, e ∈ entries → revalued e.1 → get v1 e.1 = get v e.1) →
  omap (adjustment prices v1) entries = omap (adjustment prices v) entries.
Proof.
  induction entries as [|e rest IH]; intros Hget; [done|].
  rewrite !omap_cons_eq. rewrite IH.
  - assert (adjustment prices v1 e = adjustment prices v e) as ->; [|done].
    unfold process.adjustment. destruct (decide (revalued e.1)); [|done].
    rewrite Hget; [done | by left | done].
  - intros e' He'. apply Hget. by right.
Qed.

Lemma adjustment_not_revalued prices (v : gmap CommodityAccount Decimal) e :
  ¬ revalued e.1 → adjustment prices v e = None.
Proof. intros Hn. unfold process.adjustment. by rewrite decide_False. Qed.

Lemma adjustment_zero prices (v : gmap CommodityAccount Decimal) pos va value :
  revalued pos → Valuate prices (pos_Commodity pos) va = Some value →
  IsZero (Sub value (get v pos)) = true →
  adjustment prices v (pos, va) = None.
Proof.
  intros Hr Hval Hz. unfold process.adjustment. simpl.
  by rewrite decide_True, Hval, Hz.
Qed.

Lemma adjustment_nonzero prices (v : gmap CommodityAccount Decimal) pos va value :
  revalued pos → Valuate prices (pos_Commodity pos) va = Some value →
  IsZero (Sub value (get v pos)) = false →
  adjustment prices v (pos, va) = Some (pos, Sub value (get v pos)).
Proof.
  intros Hr Hval Hz. unfold process.adjustment. simpl.
  by rewrite decide_True, Hval, Hz.
Qed.

(** Booking an adjustment leaves the values of the other revalued positions
    alone, when valuation accounts are kept apart from assets and
    liabilities. *)
Lemma book_adjustment_other (v : gmap CommodityAccount Decimal) pos diff pos' :
  valuation_accounts_apart ValuationAccountFor →
  revalued pos → revalued pos' → pos' ≠ pos →
  get (book_adjustment v (pos, diff)) pos' = get v pos'.
Proof.
  intros Hapart [_ Hty] [_ Hty'] Hne.
  unfold process.book_adjustment, amounts.Book. simpl.
  destruct (Hapart _ Hty) as [HA HL].
  rewrite !get_insert.
  rewrite decide_False by (by destruct pos, pos'; simpl in *; congruence).
  rewrite decide_False; [done|].
  intros ->. simpl in *. destruct Hty'; congruence.
Qed.

(** When every revalued position can be valuated, the step returns, having
    made one adjustment for each revalued position whose recomputed value
    differs from the value recorded when the step began. *)
Lemma compute_loop_exact (entries : list (CommodityAccount * Decimal)) (day : val.Day) :
  NoDup entries.*1 →
  valuation_accounts_apart ValuationAccountFor →
  (∀ e, e ∈ entries → ¬ no_valuation (val.Prices day) e) →
  compute_loop entries day =
    Returned
      {| val.Date := val.Date day; val.DayAmounts := val.DayAmounts day;
         val.Prices := val.Prices day;
         val.Values :=
           foldl book_adjustment (val.Values day)
             (omap (adjustment (val.Prices day) (val.Values day)) entries);
         val.Transactions :=
           val.Transactions day ++
           map (λ a, adjustment_transaction (val.Date day) a.1 a.2)
             (omap (adjustment (val.Prices day) (val.Values day)) entries) |}.
Proof.
  intros Hnd Hapart. revert day.
  induction entries as [|[pos va] rest IH]; intros day Hok.
  - simpl. rewrite app_nil_r. by destruct day.
  - rewrite fmap_cons in Hnd. apply NoDup_cons in Hnd as [Hpos Hnd]. specialize (IH Hnd).
    assert (∀ e, e ∈ rest → ¬ no_valuation (val.Prices day) e) as Hrest.
    { intros e He. apply Hok. by right. }
    rewrite compute_loop_cons, !omap_cons_eq.
    destruct (decide (revalued pos)) as [Hr|Hr];
      [|rewrite adjustment_not_revalued by done; by apply IH].
    destruct (Valuate (val.Prices day) (pos_Commodity pos) va) as [value|] eqn:Hval.
    + destruct (IsZero (Sub value (get (val.Values day) pos))) eqn:Hz;
        [rewrite (adjustment_zero _ _ _ _ value) by done; by apply IH|].
      rewrite (adjustment_nonzero _ _ _ _ value) by done.
      rewrite IH by done. simpl.
      rewrite (adjustment_ext (val.Prices day)
                 (book_adjustment (val.Values day) (pos, Sub value (get (val.Values day) pos)))
                 (val.Values day) rest).
      * by rewrite <- app_assoc.
      * intros e He Hre. apply book_adjustment_other; try done.
        intros <-. apply Hpos. apply list_elem_of_fmap. by exists e.
    + destruct (Hok (pos, va)); [by left | done].
Qed.


End Valuator.

Lemma range_NoDup (m : gmap CommodityAccount Decimal)
  (entries : list (CommodityAccount * Decimal)) :
  entries ≡ₚ map_to_list m → NoDup entries.*1.
Proof. intros ->. apply NoDup_fst_map_to_list. Qed.

Lemma range_lookup (m : gmap CommodityAccount Decimal)
  (entries : list (CommodityAccount * Decimal)) e :
  entries ≡ₚ map_to_list m → e ∈ entries → is_Some (m !! e.1).
Proof.
  intros Hperm He. rewrite Hperm in He. destruct e as [k v].
  apply elem_of_map_to_list in He. by exists v.
Qed.

(** An adjustment is dated as given and has one posting, which debits an
    asset or liability account, never an income, expense or equity account,
    in a commodity other than the valuation commodity, and credits the
    valuation account of the debited account. *)
Lemma is_adjustment_posting ValuationAccountFor Valuation date amounts0 t :
  is_adjustment ValuationAccountFor Valuation date amounts0 t →
  ast.TDate t = date ∧
  ∃ posting, ast.Postings t = [posting] ∧
    (Account_Type (ast.Debit posting) = ASSETS ∨ Account_Type (ast.Debit posting) = LIABILITIES) ∧
    Some (ast.PCommodity posting) ≠ Valuation ∧
    ast.Credit posting = ValuationAccountFor (ast.Debit posting) ∧
    is_Some (amounts0 !! mkCommodityAccount (ast.Debit posting) (ast.PCommodity posting)) ∧
    IsZero (ast.Amount posting) = false.
Proof.
  intros (pos & diff & -> & [Hc Hty] & Hin & Hz). split; [done|].
  eexists. split; [reflexivity|]. simpl. by destruct pos.
Qed.

(** C5, as the code has it: with a valuation commodity configured, the
    valuation-adjustment step
    leaves the amounts, the date and the prices of the day as they are and
    only appends transactions to the day's list, each dated as the day, with
    one posting that debits an asset or liability position of the day's
    amounts in a commodity other than the valuation commodity and credits its
    valuation account, for a difference that is not zero; so no position of
    an income, expense or equity account is revalued.  When every revalued
    position can be valuated (and valuation accounts are neither assets nor
    liabilities), the step returns with exactly one such transaction for each
    asset or liability position whose commodity differs from the valuation
    commodity and whose recomputed value differs from the recorded value,
    sized to that difference, the values booked accordingly.  This holds for
    [computeValuationTransactions] and for [processValuationTransactions2],
    in any iteration order of the amounts. *)
Theorem C5_valuation_step_adjusts_values_only
  (Valuate : gmap Commodity Decimal → Commodity → Decimal → option Decimal)
  (ValuationAccountFor : Account → Account) (valuation : Commodity)
  (entries : list (CommodityAccount * Decimal)) (day : val.Day) (d : ast.Day) :
  (entries ≡ₚ map_to_list (val.DayAmounts day) →
   let out := computeValuationTransactions_in Valuate ValuationAccountFor (Some valuation)
                entries day in
   let adjustments :=
     omap (adjustment Valuate (Some valuation) (val.Prices day) (val.Values day)) entries in
   val.DayAmounts (outcome_day out) = val.DayAmounts day ∧
   val.Date (outcome_day out) = val.Date day ∧
   val.Prices (outcome_day out) = val.Prices day ∧
   (∃ new, val.Transactions (outcome_day out) = val.Transactions day ++ new ∧
      Forall (is_adjustment ValuationAccountFor (Some valuation) (val.Date day)
                (val.DayAmounts day)) new) ∧
   (valuation_accounts_apart ValuationAccountFor →
    (∀ e, e ∈ entries → ¬ no_valuation Valuate (Some valuation) (val.Prices day) e) →
    out = Returned
      {| val.Date := val.Date day; val.DayAmounts := val.DayAmounts day;
         val.Prices := val.Prices day;
         val.Values := foldl (book_adjustment ValuationAccountFor) (val.Values day) adjustments;
         val.Transactions :=
           val.Transactions day ++
           map (λ a, adjustment_transaction ValuationAccountFor (val.Date day) a.1 a.2)
             adjustments |})) ∧
  (entries ≡ₚ map_to_list (ast.Amounts d) →
   let r := processValuationTransactions2_loop Valuate ValuationAccountFor (Some valuation)
              entries d in
   let adjustments :=
     omap (adjustment Valuate (Some valuation) (ast.Normalized d) (ast.DayValue d)) entries in
   r.1 = set_adjusted d (ast.DayValue r.1) (ast.Transactions r.1) ∧
   (∃ new, ast.Transactions r.1 = ast.Transactions d ++ new ∧
      Forall (is_adjustment ValuationAccountFor (Some valuation) (ast.DayDate d)
                (ast.Amounts d)) new) ∧
   (valuation_accounts_apart ValuationAccountFor →
    (∀ e, e ∈ entries → ¬ no_valuation Valuate (Some valuation) (ast.Normalized d) e) →
    r = (set_adjusted d
           (foldl (book_adjustment ValuationAccountFor) (ast.DayValue d) adjustments)
           (ast.Transactions d ++
            map (λ a, adjustment_transaction ValuationAccountFor (ast.DayDate d) a.1 a.2)
              adjustments),
         None))) ∧
  (∀ t, is_adjustment ValuationAccountFor (Some valuation) (val.Date day) (val.DayAmounts day) t →
     ast.TDate t = val.Date day ∧
     ∃ posting, ast.Postings t = [posting] ∧
       (Account_Type (ast.Debit posting) = ASSETS ∨
        Account_Type (ast.Debit posting) = LIABILITIES) ∧
       ast.PCommodity posting ≠ valuation ∧
       ast.Credit posting = ValuationAccountFor (ast.Debit posting) ∧
       IsZero (ast.Amount posting) = false).
Proof.
  split; [|split].
  - intros Hperm. simpl.
    destruct (compute_loop_frame Valuate ValuationAccountFor (Some valuation)
                (val.DayAmounts day) entries day) as (HA & HD & HP & HT).
    { intros e He. by apply (range_lookup _ entries). }
    do 4 (split; [done|]). intros Hapart Hok.
    apply compute_loop_exact; try done. by apply (range_NoDup (val.DayAmounts day)).
  - intros Hperm. simpl.
    destruct (process2_loop_simulates Valuate ValuationAccountFor (Some valuation) entries d)
      as [Hsim Hset].
    destruct (compute_loop_frame Valuate ValuationAccountFor (Some valuation)
                (ast.Amounts d) entries (to_val d)) as (_ & _ & _ & new & HT & Hnew).
    { intros e He. by apply (range_lookup _ entries). }
    split; [done|]. split.
    + exists new. split; [|done]. rewrite Hsim in HT.
      destruct (processValuationTransactions2_loop _ _ _ entries d) as [d' [[msg]|]]; done.
    + intros Hapart Hok.
      pose proof (compute_loop_exact Valuate ValuationAccountFor (Some valuation) entries
                    (to_val d) (range_NoDup (ast.Amounts d) entries Hperm) Hapart Hok) as Hex.
      rewrite Hsim in Hex.
      destruct (processValuationTransactions2_loop _ _ _ entries d) as [d' [[msg]|]];
        [done|]. simpl in *. rewrite Hset.
      unfold to_val in Hex. injection Hex as _ _ _ HV HTr. by rewrite HV, HTr.
  - intros t Ht. apply is_adjustment_posting in Ht as (Hd & posting & Hp & Hty & Hc & Hcr & _ & Hz).
    split; [done|]. exists posting. repeat split; try done. congruence.
Qed.

Lemma C5_witness :
  computeValuationTransactions_in price_lookup valuation_account (Some CHF)
    [(Broker_AAPL, decimal.New 3 0)] broker_day =
  Returned
    {| val.Date := day1;
       val.DayAmounts := val.DayAmounts broker_day;
       val.Prices := val.Prices broker_day;
       val.Values :=
         foldl (book_adjustment valuation_account) ∅
           [(Broker_AAPL, decimal.New 45000 (-2))];
       val.Transactions :=
         [adjustment_transaction valuation_account day1 Broker_AAPL (decimal.New 45000 (-2))] |}.
Proof.
  refine (proj2 (proj2 (proj2 (proj2 (proj1
    (C5_valuation_step_adjusts_values_only price_lookup valuation_account CHF
       [(Broker_AAPL, decimal.New 3 0)] broker_day (broker_ast_day day1)) _)))) _ _).
  - reflexivity.
  - intros a _. split; discriminate.
  - intros e He [_ Hnone]. apply list_elem_of_singleton in He. subst e. discriminate Hnone.
Defined.

(** The claim fails on a day on which a position cannot be valuated: the
    broker position, visited first, has no price, so the step stops (it panics,
    or returns the error) without a transaction for the cash position, whose
    recomputed value of 90.00 differs from the value recorded, none.  And
    where the valuation account is itself an asset account holding a position,
    the adjustment of the broker position changes the value recorded for that
    position before it is visited: its transaction is for 600.00, not for the
    150.00 between its recomputed value and the value recorded before the
    step. *)
Lemma C5_counterexample :
  unpriced_entries ≡ₚ map_to_list (val.DayAmounts unpriced_day) ∧
  adjustment price_lookup (Some CHF) (val.Prices unpriced_day) (val.Values unpriced_day)
    (Cash_USD, decimal.New 100 0) = Some (Cash_USD, decimal.New 9000 (-2)) ∧
  computeValuationTransactions_in price_lookup valuation_account (Some CHF)
    unpriced_entries unpriced_day =
    Panicked unpriced_day "no valuation found for commodity AAPL" ∧
  val.Transactions unpriced_day = [] ∧
  processValuationTransactions2_loop price_lookup valuation_account (Some CHF)
    unpriced_entries unpriced_ast_day =
    (unpriced_ast_day, Some (Errorf "no valuation found for commodity AAPL")) ∧
  ast.Transactions unpriced_ast_day = [] ∧
  shared_entries ≡ₚ map_to_list (val.DayAmounts shared_day) ∧
  adjustment price_lookup (Some CHF) (val.Prices shared_day) (val.Values shared_day)
    (Cash_AAPL, decimal.New 1 0) = Some (Cash_AAPL, decimal.New 15000 (-2)) ∧
  val.Transactions (outcome_day
    (computeValuationTransactions_in price_lookup cash_as_valuation_account (Some CHF)
       shared_entries shared_day)) =
    [adjustment_transaction cash_as_valuation_account day1 Broker_AAPL (decimal.New 45000 (-2));
     adjustment_transaction cash_as_valuation_account day1 Cash_AAPL (decimal.New 60000 (-2))].
Proof.
  split; [vm_compute; solve_Permutation|].
  split; [reflexivity|]. split; [reflexivity|]. split; [reflexivity|].
  split; [reflexivity|]. split; [reflexivity|].
  split; [vm_compute; solve_Permutation|].
  split; reflexivity.
Qed.




End valuator_props.

(** ** Differences of snapshots *)
Module differ_props.
Import balance process fixtures heap_props.

Lemma amounts_Minus_lookup (am a : gmap CommodityAccount Decimal) (k : CommodityAccount) :
  amounts.Minus am a !! k = pointwise_minus am a k.
Proof. unfold amounts.Minus. by apply Minus_entries_range. Qed.

Lemma amounts_Minus_nil (am : gmap CommodityAccount Decimal) : amounts.Minus am ∅ = am.
Proof. unfold amounts.Minus. by rewrite map_to_list_empty. Qed.

Lemma set_DayValue_same (d : ast.Day) : set_DayValue d (ast.DayValue d) = d.
Proof. by destruct d. Qed.

Lemma Differ_Process2_loop_length prev (inCh : list ast.Day) :
  length (Differ_Process2_loop prev inCh) = length inCh.
Proof. revert prev. induction inCh as [|d rest IH]; intros prev; simpl; [done | by rewrite IH]. Qed.

Lemma Differ_Process2_loop_lookup prev (inCh : list ast.Day) (i : nat) (d : ast.Day) :
  inCh !! i = Some d →
  Differ_Process2_loop prev inCh !! i =
    Some (set_DayValue d (amounts.Minus (ast.DayValue d) (previous prev inCh i))).
Proof.
  revert prev i. induction inCh as [|d0 rest IH]; intros prev i Hi; [done|].
  destruct i as [|i]; simpl in *.
  - by simplify_eq.
  - rewrite (IH _ _ Hi). destruct i as [|i]; [done|]. done.
Qed.

(** C4, as the code has it.  [Diffs], given N >= 1 distinct balances, returns
    the N-1 balances after the first, each holding at every key the pointwise
    subtraction of the preceding input balance from that input balance; its
    other fields are unchanged.  The streaming [Differ.Process2] drops
    nothing: for N input days it pushes N days, the first with its value
    unchanged and every later one with its value minus the value of the
    preceding input day. *)
Theorem C4_Diffs_drops_first_and_Differ_keeps_it
  (h : gmap loc Balance) (bals : list loc) (inCh : list ast.Day) :
  (bals ≠ [] → NoDup bals → (∀ l, l ∈ bals → is_Some (h !! l)) →
   ∃ h', Diffs h bals = Some (h', tail bals) ∧
     length (tail bals) = (length bals - 1)%nat ∧
     ∀ i bi bi1 x y,
       bals !! S i = Some bi → bals !! i = Some bi1 →
       h !! bi = Some x → h !! bi1 = Some y →
       ∃ x', h' !! bi = Some x' ∧ tail bals !! i = Some bi ∧ same_but_maps x x' ∧
         (∀ k, Amounts x' !! k = pointwise_minus (Amounts x) (Amounts y) k) ∧
         (∀ k, Values x' !! k = pointwise_minus (Values x) (Values y) k)) ∧
  (length (Differ_Process2 true inCh) = length inCh ∧
   (∀ d, inCh !! 0%nat = Some d → Differ_Process2 true inCh !! 0%nat = Some d) ∧
   (∀ i d0 d, inCh !! i = Some d0 → inCh !! S i = Some d →
      ∃ d', Differ_Process2 true inCh !! S i = Some d' ∧
        d' = set_DayValue d (ast.DayValue d') ∧
        ∀ k, ast.DayValue d' !! k = pointwise_minus (ast.DayValue d) (ast.DayValue d0) k) ∧
   Differ_Process2 false inCh = inCh).
Proof.
  split.
  - intros Hne Hnd Hdom.
    destruct (Diffs_spec h bals Hne Hnd Hdom) as (h' & HD & Hdiff & _).
    exists h'. split; [done|]. split; [by destruct bals; simpl; lia|].
    intros i bi bi1 x y Hbi Hbi1 Hx Hy. exists (minus_balance x y).
    split; [by eapply Hdiff|]. split; [by destruct bals|].
    split; [apply minus_balance_same_but_maps|].
    split; intros k; [apply minus_balance_Amounts | apply minus_balance_Values].
  - unfold Differ_Process2. simpl. split; [apply Differ_Process2_loop_length|].
    split; [|split; [|done]].
    + intros d Hd. rewrite (Differ_Process2_loop_lookup _ _ _ _ Hd). simpl.
      unfold amounts.Clone. by rewrite amounts_Minus_nil, set_DayValue_same.
    + intros i d0 d Hd0 Hd. rewrite (Differ_Process2_loop_lookup _ _ _ _ Hd). simpl.
      rewrite Hd0. simpl. eexists. split; [reflexivity|]. split; [done|].
      intros k. simpl. apply amounts_Minus_lookup.
Qed.

Lemma C4_witness :
  ∃ h', Diffs {[ 1%positive := New None;
                 2%positive := (bookAmount (opened [Assets_Cash; Expenses_Food]) food).1 ]}
          [1%positive; 2%positive] = Some (h', [2%positive]).
Proof.
  destruct (proj1 (C4_Diffs_drops_first_and_Differ_keeps_it
    {[ 1%positive := New None;
       2%positive := (bookAmount (opened [Assets_Cash; Expenses_Food]) food).1 ]}
    [1%positive; 2%positive] [])) as (h' & HD & _).
  - discriminate.
  - apply NoDup_cons. split; [|apply NoDup_singleton].
    intros Hin. apply list_elem_of_singleton in Hin. discriminate Hin.
  - intros l Hl. apply elem_of_cons in Hl as [->|Hl]; [by eexists|].
    apply list_elem_of_singleton in Hl. subst l. by eexists.
  - by exists h'.
Defined.

(** For one snapshot, [Differ.Process2] pushes one day, the snapshot itself:
    the output has N and not N-1 elements and the first is not dropped. *)
Lemma C4_counterexample :
  Differ_Process2 true [broker_ast_day day1] = [broker_ast_day day1] ∧
  length (Differ_Process2 true [broker_ast_day day1]) ≠
    (length [broker_ast_day day1] - 1)%nat.
Proof. split; [reflexivity | discriminate]. Qed.

End differ_props.

(** ** The order of the emitted directives *)
Module sorter_props.
Import ast sorter fixtures.

(** *** What [next] receives *)

Section Finalize.

Variable next : list Dated → Dated → bool.

Lemma foldl_call_next_map {A : Type} (f : A → Dated) (l : list A) (s : Sink) :
  foldl (λ s o, call_next next s (f o)) s l = foldl (call_next next) s (map f l).
Proof. revert s. induction l as [|x l IH]; intros s; simpl; [done | by rewrite IH]. Qed.

Lemma Finalize_day_items (s : Sink) (d : Day) :
  Finalize_day next s d = foldl (call_next next) s (day_items d).
Proof.
  unfold Finalize_day, day_items. rewrite !foldl_app.
  rewrite (foldl_call_next_map (λ o, mkDated (ODate o) (DOpen o))).
  rewrite (foldl_call_next_map (λ o, mkDated (PDate o) (DPrice o))).
  rewrite (foldl_call_next_map (λ o, mkDated (TDate o) (DTransaction o))).
  rewrite (foldl_call_next_map (λ o, mkDated (VDate o) (DValue o))).
  rewrite (foldl_call_next_map (λ o, mkDated (ADate o) (DAssertion o))).
  by rewrite (foldl_call_next_map (λ o, mkDated (CDate o) (DClose o))).
Qed.

Lemma foldl_Finalize_day (s : Sink) (days : list Day) :
  foldl (Finalize_day next) s days = foldl (call_next next) s (days ≫= day_items).
Proof.
  revert s. induction days as [|d days IH]; intros s; [done|].
  simpl. rewrite foldl_app, IH. by rewrite Finalize_day_items.
Qed.

Lemma foldl_call_next_stopped (s : Sink) (l : list Dated) :
  stopped s = true → foldl (call_next next) s l = s.
Proof.
  intros Hs. induction l as [|x l IH]; [done|].
  simpl. unfold call_next at 2. by rewrite Hs.
Qed.

(** What is delivered is what was delivered before and a prefix of the
    elements offered. *)
Lemma foldl_call_next_prefix (s : Sink) (l : list Dated) :
  ∃ k, delivered (foldl (call_next next) s l) = delivered s ++ take k l.
Proof.
  revert s. induction l as [|x l IH]; intros s.
  - exists 0%nat. simpl. by rewrite app_nil_r.
  - simpl. unfold call_next at 2. destruct (stopped s) eqn:Hs.
    + exists 0%nat. rewrite foldl_call_next_stopped by done. simpl. by rewrite app_nil_r.
    + destruct (IH {| delivered := delivered s ++ [x];
                      stopped := negb (next (delivered s) x) |}) as [k Hk].
      exists (S k). rewrite Hk. simpl. by rewrite <- app_assoc.
Qed.

Lemma foldl_call_next_all (s : Sink) (l : list Dated) :
  (∀ h x, next h x = true) → stopped s = false →
  delivered (foldl (call_next next) s l) = delivered s ++ l.
Proof.
  intros Hnext. revert s. induction l as [|x l IH]; intros s Hs.
  - simpl. by rewrite app_nil_r.
  - simpl. unfold call_next at 2. rewrite Hs. rewrite IH.
    + simpl. by rewrite <- app_assoc.
    + simpl. by rewrite Hnext.
Qed.

End Finalize.

(** *** The tree after a directive was added *)

Lemma day_items_newDay (t : Time) : day_items (newDay t) = [].
Proof. reflexivity. Qed.

(** The six [Add] methods replace the day of the directive's date by that day
    with the directive appended to one of its lists. *)
Lemma add_eq (days : gmap Time Day) (x : Dated) :
  ∃ f : Day → Day,
    add days x = <[directive_date (Elem x) := f (AST_Day days (directive_date (Elem x)))]> days ∧
    (∀ s, DayDate (f s) = DayDate s) ∧
    (∀ s, day_items (f s) ≡ₚ own_date x :: day_items s).
Proof.
  destruct x as [date [o|p|t|a|v|c]]; unfold add, own_date; simpl.
  - exists (λ s, with_lists s (Prices s) (Assertions s) (Values s) (Openings s ++ [o])
                   (Transactions s) (Closings s)).
    split; [done|]. split; [done|]. intros s. unfold day_items. simpl.
    rewrite map_app. simpl. solve_Permutation.
  - exists (λ s, with_lists s (Prices s ++ [p]) (Assertions s) (Values s) (Openings s)
                   (Transactions s) (Closings s)).
    split; [done|]. split; [done|]. intros s. unfold day_items. simpl.
    rewrite map_app. simpl. solve_Permutation.
  - exists (λ s, with_lists s (Prices s) (Assertions s) (Values s) (Openings s)
                   (Transactions s ++ [t]) (Closings s)).
    split; [done|]. split; [done|]. intros s. unfold day_items. simpl.
    rewrite map_app. simpl. solve_Permutation.
  - exists (λ s, with_lists s (Prices s) (Assertions s ++ [a]) (Values s) (Openings s)
                   (Transactions s) (Closings s)).
    split; [done|]. split; [done|]. intros s. unfold day_items. simpl.
    rewrite map_app. simpl. solve_Permutation.
  - exists (λ s, with_lists s (Prices s) (Assertions s) (Values s ++ [v]) (Openings s)
                   (Transactions s) (Closings s)).
    split; [done|]. split; [done|]. intros s. unfold day_items. simpl.
    rewrite map_app. simpl. solve_Permutation.
  - exists (λ s, with_lists s (Prices s) (Assertions s) (Values s) (Openings s)
                   (Transactions s) (Closings s ++ [c])).
    split; [done|]. split; [done|]. intros s. unfold day_items. simpl.
    rewrite map_app. simpl. solve_Permutation.
Qed.

(** The directives of all days, in the order of the map. *)
Lemma all_items_add (days : gmap Time Day) (x : Dated) :
  (map_to_list (add days x)).*2 ≫= day_items ≡ₚ
  own_date x :: ((map_to_list days).*2 ≫= day_items).
Proof.
  destruct (add_eq days x) as (f & -> & _ & Hf).
  set (t := directive_date (Elem x)). unfold AST_Day.
  destruct (days !! t) as [s|] eqn:Hs; simpl.
  - rewrite <- insert_delete_eq.
    rewrite map_to_list_insert by apply lookup_delete_eq.
    rewrite <- (map_to_list_delete days t s Hs).
    rewrite !fmap_cons, !bind_cons. simpl. by rewrite Hf.
  - rewrite map_to_list_insert by done.
    rewrite fmap_cons, bind_cons. simpl. by rewrite Hf, day_items_newDay.
Qed.

Lemma well_dated_add (days : gmap Time Day) (x : Dated) :
  well_dated days → well_dated (add days x).
Proof.
  intros Hwd. destruct (add_eq days x) as (f & -> & Hdate & Hf).
  set (t := directive_date (Elem x)).
  intros t' d'. destruct (decide (t' = t)) as [->|Hne].
  - rewrite lookup_insert_eq. intros [= <-]. rewrite Hdate, Hf. unfold AST_Day.
    destruct (days !! t) as [s|] eqn:Hs; simpl.
    + destruct (Hwd t s Hs) as [HD HF]. split; [done|]. by apply Forall_cons.
    + split; [done|]. by apply Forall_cons.
  - rewrite lookup_insert_ne by done. apply Hwd.
Qed.

Lemma well_dated_empty : well_dated ∅.
Proof. intros t d Hd. by rewrite lookup_empty in Hd. Qed.

Lemma Process_add (srt : Sorter) (x : Dated) :
  Process srt x = mkSorter (Some (add (default ∅ (AST srt)) x)).
Proof. unfold Process, add. by destruct (Elem x). Qed.

(** After the first directive the tree exists; it holds what was added. *)
Lemma foldl_Process (input : list Dated) (srt : Sorter) :
  input ≠ [] →
  foldl Process srt input = mkSorter (Some (foldl add (default ∅ (AST srt)) input)).
Proof.
  revert srt. induction input as [|x rest IH]; intros srt Hne; [done|].
  simpl. rewrite Process_add. destruct rest as [|y rest]; [done|].
  by rewrite IH.
Qed.

Lemma foldl_add_items (input : list Dated) (days : gmap Time Day) :
  (map_to_list (foldl add days input)).*2 ≫= day_items ≡ₚ
  ((map_to_list days).*2 ≫= day_items) ++ map own_date input.
Proof.
  revert days. induction input as [|x rest IH]; intros days.
  - simpl. by rewrite app_nil_r.
  - simpl. rewrite IH, all_items_add. solve_Permutation.
Qed.

Lemma foldl_add_well_dated (input : list Dated) (days : gmap Time Day) :
  well_dated days → well_dated (foldl add days input).
Proof.
  revert days. induction input as [|x rest IH]; intros days Hwd; [done|].
  simpl. apply IH. by apply well_dated_add.
Qed.

(** *** The sorted days *)

#[local] Instance Day_le_transitive : Transitive Day_le.
Proof. intros d1 d2 d3. unfold Day_le. lia. Qed.

#[local] Instance Day_le_total : Total Day_le.
Proof. intros d1 d2. unfold Day_le. lia. Qed.

Lemma SortedDays_Permutation (days : gmap Time Day) :
  SortedDays days ≡ₚ (map_to_list days).*2.
Proof. apply merge_sort_Permutation. Qed.

Lemma SortedDays_elem_of (days : gmap Time Day) (d : Day) :
  d ∈ SortedDays days ↔ ∃ t, days !! t = Some d.
Proof.
  rewrite SortedDays_Permutation, list_elem_of_fmap. split.
  - intros ([t d'] & -> & Hin). exists t. by apply elem_of_map_to_list.
  - intros [t Ht]. exists (t, d). split; [done|]. by apply elem_of_map_to_list.
Qed.

Lemma well_dated_dates (days : gmap Time Day) :
  well_dated days → DayDate <$> (map_to_list days).*2 = (map_to_list days).*1.
Proof.
  intros Hwd. rewrite <- list_fmap_compose. apply list_fmap_ext.
  intros i [t d] Hi. simpl.
  apply list_elem_of_lookup_2, elem_of_map_to_list in Hi. by destruct (Hwd t d Hi).
Qed.

Lemma StronglySorted_strict (l : list Day) :
  StronglySorted Day_le l → NoDup (DayDate <$> l) →
  StronglySorted (λ d1 d2, (DayDate d1 < DayDate d2)%Z) l.
Proof.
  induction l as [|d l IH]; intros Hs Hnd; [constructor|].
  apply StronglySorted_cons in Hs as [Hle Hs].
  rewrite fmap_cons in Hnd. apply NoDup_cons in Hnd as [Hd Hnd].
  apply StronglySorted_cons. split; [|by apply IH].
  apply Forall_forall. intros d' Hd'.
  rewrite Forall_forall in Hle. specialize (Hle d' Hd'). unfold Day_le in Hle.
  assert (DayDate d ≠ DayDate d'); [|lia].
  intros Heq. apply Hd. rewrite Heq. apply list_elem_of_fmap. by exists d'.
Qed.

(** The days come in strictly ascending date order. *)
Lemma SortedDays_ascending (days : gmap Time Day) :
  well_dated days →
  StronglySorted (λ d1 d2, (DayDate d1 < DayDate d2)%Z) (SortedDays days).
Proof.
  intros Hwd. apply StronglySorted_strict.
  - apply StronglySorted_merge_sort; apply _.
  - rewrite SortedDays_Permutation, well_dated_dates by done.
    apply NoDup_fst_map_to_list.
Qed.

(** *** The order within a day and across days *)

Lemma in_order_const (rank : Directive → nat) (t : Time) (a : nat) (l : list Dated) :
  Forall (λ x, Date x = t) l → Forall (λ x, rank (Elem x) = a) l → in_order rank l.
Proof.
  unfold in_order. induction l as [|x l IH]; intros Hd Hr; [constructor|].
  apply Forall_cons in Hd as [Hx Hd]. apply Forall_cons in Hr as [Hrx Hr].
  apply StronglySorted_cons. split; [|by apply IH].
  rewrite Forall_forall in Hd, Hr. apply Forall_forall. intros y Hy.
  right. rewrite Hx, (Hd y Hy), Hrx, (Hr y Hy). done.
Qed.

Lemma in_order_app (rank : Directive → nat) (t : Time) (a : nat) (l1 l2 : list Dated) :
  Forall (λ x, Date x = t) l1 → Forall (λ x, Date x = t) l2 →
  Forall (λ x, (rank (Elem x) ≤ a)%nat) l1 → Forall (λ x, (a ≤ rank (Elem x))%nat) l2 →
  in_order rank l1 → in_order rank l2 → in_order rank (l1 ++ l2).
Proof.
  intros Hd1 Hd2 Hr1 Hr2 Hs1 Hs2. apply StronglySorted_app_2; [|done..].
  rewrite Forall_forall in Hd1, Hd2, Hr1, Hr2.
  intros x1 x2 H1 H2. right. rewrite (Hd1 x1 H1), (Hd2 x2 H2). split; [done|].
  specialize (Hr1 x1 H1). specialize (Hr2 x2 H2). simpl in *. lia.
Qed.

Ltac rank_facts :=
  rewrite ?Forall_app, ?Forall_fmap; repeat split; apply Forall_true; intros ?; simpl; lia.

(** Within a day: openings, prices, transactions, values, assertions,
    closings. *)
Lemma day_items_in_order (d : Day) (t : Time) :
  Forall (λ x, Date x = t) (day_items d) → in_order emitted_rank (day_items d).
Proof.
  unfold day_items. rewrite !Forall_app. intros (H0 & H1 & H2 & H3 & H4 & H5).
  apply (in_order_app _ t 0); rewrite ?Forall_app; try done; try rank_facts;
    [by apply (in_order_const _ t 0%nat); [|rank_facts]|].
  apply (in_order_app _ t 1); rewrite ?Forall_app; try done; try rank_facts;
    [by apply (in_order_const _ t 1%nat); [|rank_facts]|].
  apply (in_order_app _ t 2); rewrite ?Forall_app; try done; try rank_facts;
    [by apply (in_order_const _ t 2%nat); [|rank_facts]|].
  apply (in_order_app _ t 3); rewrite ?Forall_app; try done; try rank_facts;
    [by apply (in_order_const _ t 3%nat); [|rank_facts]|].
  apply (in_order_app _ t 4); rewrite ?Forall_app; try done; try rank_facts;
    [by apply (in_order_const _ t 4%nat); [|rank_facts]|].
  by apply (in_order_const _ t 5%nat); [|rank_facts].
Qed.

Lemma days_items_in_order (l : list Day) :
  StronglySorted (λ d1 d2, (DayDate d1 < DayDate d2)%Z) l →
  (∀ d, d ∈ l → Forall (λ x, Date x = DayDate d) (day_items d)) →
  in_order emitted_rank (l ≫= day_items).
Proof.
  induction l as [|d l IH]; intros Hs Hd; [constructor|].
  apply StronglySorted_cons in Hs as [Hlt Hs]. rewrite bind_cons.
  apply StronglySorted_app_2.
  - intros x1 x2 H1 H2. left.
    apply list_elem_of_bind in H2 as (d' & H2 & Hd').
    pose proof (Hd d (list_elem_of_here _ _)) as Hx1.
    pose proof (Hd d' (list_elem_of_further _ _ _ Hd')) as Hx2.
    rewrite Forall_forall in Hx1. rewrite Forall_forall in Hx2.
    rewrite (Hx1 x1 H1), (Hx2 x2 H2).
    apply (proj1 (Forall_forall _ _) Hlt). done.
  - apply (day_items_in_order d (DayDate d)). apply Hd. left.
  - apply IH; [done|]. intros d' Hd'. apply Hd. by right.
Qed.

(** All directives of the tree, in the order [Finalize] emits them. *)
Lemma tree_in_order (days : gmap Time Day) :
  well_dated days → in_order emitted_rank (SortedDays days ≫= day_items).
Proof.
  intros Hwd. apply days_items_in_order; [by apply SortedDays_ascending|].
  intros d [t Ht]%SortedDays_elem_of. destruct (Hwd t d Ht) as [-> HF]. done.
Qed.

(** The stage as a whole: what [next] receives is a prefix of the directives
    of the tree in their order, all of them if [next] never answers false. *)
Lemma run_spec (next : list Dated → Dated → bool) (input : list Dated) :
  input ≠ [] →
  ∃ k, run next input = Some (take k (SortedDays (foldl add ∅ input) ≫= day_items)) ∧
       ((∀ h x, next h x = true) →
        run next input = Some (SortedDays (foldl add ∅ input) ≫= day_items)).
Proof.
  intros Hne. unfold run, Finalize. rewrite foldl_Process by done. simpl.
  rewrite foldl_Finalize_day.
  destruct (foldl_call_next_prefix next (mkSink [] false)
              (SortedDays (foldl add ∅ input) ≫= day_items)) as [k Hk].
  exists k. split; [by rewrite Hk|].
  intros Hnext. by rewrite foldl_call_next_all.
Qed.

(** C7, as the code has it: for every nonempty stream of parsed directives,
    the sequence [Sorter.Finalize] hands to the next stage is a prefix (the
    whole, if the consumer never stops it) of a rearrangement of all
    directives processed, each under its own date, that is sorted by date and
    has, within each date, the kinds in the order Open, Price, Transaction,
    Value, Assertion, Close. *)
Theorem C7_Finalize_emits_by_date_then_Open_Price_first
  (next : list Dated → Dated → bool) (input : list Dated) :
  input ≠ [] →
  ∃ out full,
    run next input = Some out ∧
    out `prefix_of` full ∧
    ((∀ h x, next h x = true) → out = full) ∧
    full ≡ₚ map own_date input ∧
    in_order emitted_rank full ∧
    in_order emitted_rank out.
Proof.
  intros Hne. destruct (run_spec next input Hne) as (k & Hrun & Hall).
  set (full := SortedDays (foldl add ∅ input) ≫= day_items) in *.
  assert (in_order emitted_rank full) as Hfull.
  { apply tree_in_order. apply foldl_add_well_dated, well_dated_empty. }
  exists (take k full), full. split; [done|]. split; [apply prefix_take|].
  split; [|split; [|split; [done|]]].
  - intros Hnext. rewrite (Hall Hnext) in Hrun. by simplify_eq.
  - unfold full. rewrite SortedDays_Permutation, foldl_add_items.
    by rewrite map_to_list_empty.
  - unfold in_order in *. rewrite <- (take_drop k full) in Hfull.
    by apply StronglySorted_app_1_l in Hfull.
Qed.

Lemma C7_witness :
  ∃ out full,
    run always [a_price; an_open] = Some out ∧
    out `prefix_of` full ∧
    ((∀ h x, always h x = true) → out = full) ∧
    full ≡ₚ map own_date [a_price; an_open] ∧
    in_order emitted_rank full ∧
    in_order emitted_rank out.
Proof.
  apply (C7_Finalize_emits_by_date_then_Open_Price_first always [a_price; an_open]).
  discriminate.
Defined.

(** A price and an open directive of one day are handed on with the open
    directive first, against the priority Price, Open of the claim. *)
Lemma C7_counterexample :
  run always [a_price; an_open] = Some [an_open; a_price] ∧
  ¬ in_order specified_rank [an_open; a_price].
Proof.
  split; [reflexivity|].
  unfold in_order. intros Hs. apply StronglySorted_cons in Hs as [Hhd _].
  apply Forall_cons in Hhd as [[Hlt|[_ Hle]] _]; simpl in *; lia.
Qed.

End sorter_props.

(** ** Printing a transaction *)
Module printer_props.
Import printer fixtures.

(** *** Strings *)

Lemma append_nil_r (s : string) : s +:+ EmptyString = s.
Proof.
  induction s as [|a s IH]; [done|].
  change (String a (s +:+ EmptyString) = String a s). by rewrite IH.
Qed.

Lemma append_assoc (s1 s2 s3 : string) : (s1 +:+ s2) +:+ s3 = s1 +:+ (s2 +:+ s3).
Proof.
  induction s1 as [|a s1 IH]; [done|].
  change (String a ((s1 +:+ s2) +:+ s3) = String a (s1 +:+ (s2 +:+ s3))). by rewrite IH.
Qed.

Lemma length_append (s1 s2 : string) :
  String.length (s1 +:+ s2) = (String.length s1 + String.length s2)%nat.
Proof.
  induction s1 as [|a s1 IH]; [done|].
  change (S (String.length (s1 +:+ s2)) = S (String.length s1 + String.length s2)).
  by rewrite IH.
Qed.

(** *** The postings at odd indices *)

Lemma odd_indexed_cons {A : Type} (x : A) (l : list A) :
  odd_indexed (x :: l) = even_indexed l.
Proof. by destruct l. Qed.

Lemma odd_indexed_lookup {A : Type} (l : list A) (k : nat) :
  odd_indexed l !! k = l !! (2 * k + 1)%nat.
Proof.
  revert l. induction k as [|k IH]; intros [|x [|y l]]; try done.
  simpl. rewrite IH. replace (k + S (k + 0) + 1)%nat with (S (2 * k + 1)) by lia. done.
Qed.

Lemma odd_indexed_length_bounded {A : Type} (n : nat) (l : list A) :
  (length l ≤ n)%nat →
  (2 * length (odd_indexed l) ≤ length l ≤ 2 * length (odd_indexed l) + 1)%nat.
Proof.
  revert l. induction n as [|n IH]; intros [|x [|y l]] Hn; simpl in *; try lia.
  specialize (IH l). lia.
Qed.

Lemma odd_indexed_length {A : Type} (l : list A) :
  length (odd_indexed l) = (length l / 2)%nat.
Proof.
  pose proof (odd_indexed_length_bounded (length l) l (le_n _)) as Hb.
  apply (Nat.div_unique _ 2 _ (length l - 2 * length (odd_indexed l))); lia.
Qed.

(** *** Writing to a writer that does not fail *)

Definition wrote (p : Printer) (text : string) : Printer :=
  {| writer := {| written := written (writer p) +:+ text; room := None |};
     padding := padding p;
     count := count p + Z.of_nat (String.length text) |}.

Lemma wrote_nil (p : Printer) : room (writer p) = None → wrote p EmptyString = p.
Proof.
  intros Hroom. destruct p as [[w r] pad c]. simpl in *. subst r.
  unfold wrote. simpl. rewrite append_nil_r. f_equal. lia.
Qed.

Lemma wrote_wrote (p : Printer) (s1 s2 : string) :
  wrote (wrote p s1) s2 = wrote p (s1 +:+ s2).
Proof.
  unfold wrote. simpl. rewrite append_assoc, length_append. f_equal. lia.
Qed.

Lemma Write_wrote (bs : string) (p : Printer) :
  room (writer p) = None →
  Write bs p = (wrote p bs, (Z.of_nat (String.length bs), None)).
Proof. intros Hroom. unfold Write, Writer_Write. by rewrite Hroom. Qed.

Lemma or_return_wrote (start : Z) (text : string) (k : io (Z * option error)) (p : Printer) :
  room (writer p) = None →
  or_return start (Write text) k p = k (wrote p text).
Proof. intros Hroom. unfold or_return. by rewrite Write_wrote. Qed.

Section Printer.

Variable Format : Time → string.
Variable Decimal_String : Decimal → string.
Variable RuneCountInString : string → Z.

Abbreviation posting_text := (posting_text Decimal_String RuneCountInString).
Abbreviation posting_lines := (posting_lines Decimal_String RuneCountInString).
Abbreviation printTransaction_loop := (printTransaction_loop Decimal_String RuneCountInString).

Lemma printed_from_nil (i : nat) : printed_from i [] = [].
Proof. unfold printed_from. by destruct (decide (i mod 2 = 0)%nat). Qed.

Lemma parity_succ (i : nat) : (i mod 2 = 0 ↔ S i mod 2 ≠ 0)%nat.
Proof.
  pose proof (Nat.mod_upper_bound i 2). pose proof (Nat.mod_upper_bound (S i) 2).
  pose proof (Nat.div_mod_eq i 2). pose proof (Nat.div_mod_eq (S i) 2). lia.
Qed.

Lemma printed_from_skip (i : nat) (po : Posting) (rest : list Posting) :
  (i mod 2 = 0)%nat → printed_from i (po :: rest) = printed_from (S i) rest.
Proof.
  intros He. unfold printed_from. rewrite decide_True by done.
  rewrite decide_False by (by apply parity_succ). apply odd_indexed_cons.
Qed.

Lemma printed_from_print (i : nat) (po : Posting) (rest : list Posting) :
  (i mod 2 ≠ 0)%nat → printed_from i (po :: rest) = po :: printed_from (S i) rest.
Proof.
  intros Ho. unfold printed_from. rewrite decide_False by done.
  rewrite decide_True; [done|].
  destruct (decide (S i mod 2 = 0)%nat) as [|Hn]; [done|].
  destruct Ho. by apply parity_succ.
Qed.

Lemma or_return_printPosting (start : Z) (po : Posting) (k : io (Z * option error))
  (p : Printer) :
  room (writer p) = None →
  or_return start (printPosting Decimal_String RuneCountInString po) k p =
  k (wrote p (posting_text p po)).
Proof.
  intros Hroom. unfold or_return, printPosting, Fprintf. by rewrite Write_wrote.
Qed.

Lemma printTransaction_loop_wrote (start : Z) (i : nat) (postings : list Posting) (p : Printer) :
  room (writer p) = None →
  printTransaction_loop start i postings p =
    (wrote p (posting_lines p (printed_from i postings)),
     (count (wrote p (posting_lines p (printed_from i postings))) - start, None)).
Proof.
  revert i p. induction postings as [|po rest IH]; intros i p Hroom.
  - rewrite printed_from_nil.
    change (posting_lines p []) with EmptyString. rewrite wrote_nil by done. done.
  - change (printTransaction_loop start i (po :: rest) p)
      with ((if decide (i mod 2 = 0)%nat then printTransaction_loop start (S i) rest
             else or_return start (printPosting Decimal_String RuneCountInString po)
                    (or_return start (WriteString newline)
                       (printTransaction_loop start (S i) rest))) p).
    destruct (decide (i mod 2 = 0)%nat) as [He|Ho].
    + rewrite printed_from_skip by done. by apply IH.
    + rewrite printed_from_print by done.
      rewrite or_return_printPosting by done. unfold WriteString.
      rewrite or_return_wrote by done.
      rewrite IH by done. rewrite !wrote_wrote.
      change (posting_lines (wrote p (posting_text p po +:+ newline)) (printed_from (S i) rest))
        with (posting_lines p (printed_from (S i) rest)).
      change (posting_lines p (po :: printed_from (S i) rest))
        with (posting_text p po +:+ newline +:+ posting_lines p (printed_from (S i) rest)).
      done.
Qed.

Lemma posting_lines_wrote (p : Printer) (text : string) (postings : list Posting) :
  posting_lines (wrote p text) postings = posting_lines p postings.
Proof. reflexivity. Qed.

(** With a writer that does not fail, [printTransaction] writes the
    annotation line (if any), the header line and the lines of the postings
    at odd indices, and returns the number of bytes written. *)
Lemma printTransaction_wrote (t : Transaction) (p : Printer) :
  room (writer p) = None →
  printTransaction Format Decimal_String RuneCountInString t p =
    (wrote p (annotation_text t +:+ header_text Format t +:+ newline +:+
              posting_lines p (odd_indexed (Postings t))),
     (Z.of_nat (String.length
                  (annotation_text t +:+ header_text Format t +:+ newline +:+
                   posting_lines p (odd_indexed (Postings t)))),
      None)).
Proof.
  intros Hroom. unfold printTransaction, annotation_text, Fprintf, WriteString.
  assert (∀ q, room (writer q) = None →
            or_return (count p) (Write (header_text Format t))
              (or_return (count p) (Write newline)
                 (printTransaction_loop (count p) 0 (Postings t))) q =
            (wrote q (header_text Format t +:+ newline +:+
                      posting_lines q (odd_indexed (Postings t))),
             (count (wrote q (header_text Format t +:+ newline +:+
                              posting_lines q (odd_indexed (Postings t)))) - count p,
              None))) as Hrest.
  { intros q Hq. rewrite or_return_wrote by done. rewrite or_return_wrote by done.
    rewrite printTransaction_loop_wrote by done.
    change (printed_from 0 (Postings t)) with (odd_indexed (Postings t)).
    rewrite !wrote_wrote.
    change (posting_lines (wrote q (header_text Format t +:+ newline))
              (odd_indexed (Postings t)))
      with (posting_lines q (odd_indexed (Postings t))).
    done. }
  destruct (Targets t) as [targets|].
  - rewrite or_return_wrote by done. rewrite Hrest by done.
    rewrite wrote_wrote.
    change (posting_lines (wrote p (performance_text targets)) (odd_indexed (Postings t)))
      with (posting_lines p (odd_indexed (Postings t))).
    f_equal. f_equal. unfold wrote. cbn [count]. lia.
  - unfold or_return at 1. rewrite Hrest by done.
    change (EmptyString +:+ ?s) with s. f_equal. f_equal. unfold wrote. cbn [count]. lia.
Qed.

End Printer.

(** C9: for every transaction printed to a writer that does not fail, the
    output is the annotation line (if the transaction has targets), the
    header line, and one line for each posting at an odd index 1, 3, 5, ... of
    the posting list, in this order: as many posting lines as half the length
    of the list, rounded down.  A transaction whose posting list has length 1
    is printed with its header line and no posting line. *)
Theorem C9_printTransaction_prints_postings_at_odd_indices
  (Format : Time → string) (Decimal_String : Decimal → string)
  (RuneCountInString : string → Z) (t : Transaction) (p : Printer) :
  room (writer p) = None →
  (printTransaction Format Decimal_String RuneCountInString t p).1 =
    wrote p (annotation_text t +:+ header_text Format t +:+ newline +:+
             posting_lines Decimal_String RuneCountInString p (odd_indexed (Postings t))) ∧
  (printTransaction Format Decimal_String RuneCountInString t p).2.2 = None ∧
  (∀ k, odd_indexed (Postings t) !! k = Postings t !! (2 * k + 1)%nat) ∧
  length (odd_indexed (Postings t)) = (length (Postings t) / 2)%nat ∧
  (length (Postings t) = 1%nat →
   (printTransaction Format Decimal_String RuneCountInString t p).1 =
     wrote p (annotation_text t +:+ header_text Format t +:+ newline)).
Proof.
  intros Hroom. rewrite printTransaction_wrote by done. cbn [fst snd].
  split; [done|]. split; [done|].
  split; [intros k; apply odd_indexed_lookup|].
  split; [apply odd_indexed_length|].
  intros Hlen. by destruct (Postings t) as [|po [|po' rest]].
Qed.

Lemma C9_witness :
  (printTransaction show_date show_decimal count_bytes lunch (New buffer)).1 =
    wrote (New buffer)
      (annotation_text lunch +:+ header_text show_date lunch +:+ newline +:+
       posting_lines show_decimal count_bytes (New buffer) (odd_indexed (Postings lunch))).
Proof.
  apply (C9_printTransaction_prints_postings_at_odd_indices show_date show_decimal count_bytes
           lunch (New buffer)).
  reflexivity.
Defined.

End printer_props.

(** ** Decimal arithmetic is arithmetic on the numbers denoted *)
Module numeric_props.
Import QArith Qcanon Qpower numeric.
Local Open Scope Z_scope.

Lemma ten_not_zero : ¬ (inject_Z 10 == 0)%Q.
Proof. discriminate. Qed.

Lemma rational_rescale (d : Decimal) (e : Z) :
  e ≤ exp d → (rational (rescale d e) == rational d)%Q.
Proof.
  intros He. unfold rescale, rational.
  destruct (decide (exp d = e)) as [->|Hne]; [reflexivity|].
  rewrite decide_False by lia. simpl.
  rewrite Z.abs_neq by lia.
  replace (- (e - exp d)) with (exp d - e) by lia.
  assert (inject_Z 10 ^ exp d == inject_Z 10 ^ (exp d - e) * inject_Z 10 ^ e)%Q as Hp.
  { rewrite <- (Qpower_plus _ _ _ ten_not_zero).
    replace (exp d - e + e) with (exp d) by lia. reflexivity. }
  rewrite Hp, inject_Z_mult, Zpower_Qpower by lia. ring.
Qed.

Lemma RescalePair_spec (d1 d2 : Decimal) :
  (rational (RescalePair d1 d2).1 == rational d1)%Q ∧
  (rational (RescalePair d1 d2).2 == rational d2)%Q ∧
  exp (RescalePair d1 d2).1 = Z.min (exp d1) (exp d2) ∧
  exp (RescalePair d1 d2).2 = Z.min (exp d1) (exp d2).
Proof.
  unfold RescalePair. destruct (decide (exp d1 = exp d2)) as [He|He]; simpl.
  - repeat split; try reflexivity; lia.
  - destruct (decide (Z.min (exp d1) (exp d2) ≠ exp d1)) as [Hm|Hm]; simpl.
    + split; [apply rational_rescale; lia|]. split; [reflexivity|].
      unfold rescale. rewrite decide_False by lia.
      destruct (decide (exp d1 < Z.min (exp d1) (exp d2))); simpl; lia.
    + split; [reflexivity|]. split; [apply rational_rescale; lia|].
      unfold rescale. rewrite decide_False by lia.
      destruct (decide (exp d2 < Z.min (exp d1) (exp d2))); simpl; lia.
Qed.

Lemma rational_Add (d d2 : Decimal) :
  (rational (Add d d2) == rational d + rational d2)%Q.
Proof.
  destruct (RescalePair_spec d d2) as (H1 & H2 & He1 & He2).
  unfold Add. destruct (RescalePair d d2) as [rd rd2]. simpl in *.
  rewrite <- H1, <- H2. unfold rational. simpl. rewrite inject_Z_plus, He1, He2. ring.
Qed.

Lemma rational_Sub (d d2 : Decimal) :
  (rational (Sub d d2) == rational d - rational d2)%Q.
Proof.
  destruct (RescalePair_spec d d2) as (H1 & H2 & He1 & He2).
  unfold Sub. destruct (RescalePair d d2) as [rd rd2]. simpl in *.
  rewrite <- H1, <- H2. unfold rational. simpl.
  unfold Z.sub. rewrite inject_Z_plus, inject_Z_opp, He1, He2. ring.
Qed.

Lemma number_Add (d d2 : Decimal) : number (Add d d2) = (number d + number d2)%Qc.
Proof.
  unfold number, Qcplus. apply Q2Qc_eq_iff. simpl.
  rewrite !Qred_correct. apply rational_Add.
Qed.

Lemma number_Sub (d d2 : Decimal) : number (Sub d d2) = (number d - number d2)%Qc.
Proof.
  unfold number, Qcminus, Qcplus, Qcopp. apply Q2Qc_eq_iff. simpl.
  rewrite !Qred_correct. apply rational_Sub.
Qed.

Lemma number_zero_value : number zero_value = Q2Qc 0.
Proof. apply Q2Qc_eq_iff. reflexivity. Qed.

Lemma rational_zero_iff (d : Decimal) : (rational d == 0)%Q ↔ value d = 0.
Proof.
  unfold rational. split.
  - intros H. apply Qmult_integral in H as [H|H].
    + unfold Qeq in H. simpl in H. lia.
    + by apply Qpower_not_0 in H; [|apply ten_not_zero].
  - intros ->. ring.
Qed.

(** [IsZero] holds exactly of the decimals that denote zero. *)
Lemma IsZero_number (d : Decimal) : IsZero d = true ↔ number d = Q2Qc 0.
Proof.
  unfold IsZero, number. rewrite bool_decide_eq_true, Q2Qc_eq_iff.
  symmetry. apply rational_zero_iff.
Qed.

(** [Equal] holds exactly of the decimals that denote the same number. *)
Lemma Equal_number (d d2 : Decimal) : Equal d d2 = true ↔ number d = number d2.
Proof.
  destruct (RescalePair_spec d d2) as (H1 & H2 & He1 & He2).
  unfold Equal, Cmp, number. rewrite Q2Qc_eq_iff.
  destruct (RescalePair d d2) as [rd rd2]. simpl in *.
  rewrite <- H1, <- H2. unfold rational. rewrite He1, He2.
  destruct (Z.compare_spec (value rd) (value rd2)) as [Heq|Hlt|Hgt].
  - rewrite Heq. split; [reflexivity | done].
  - split; [done|]. intros H. apply Qmult_inj_r in H.
    + unfold Qeq in H. simpl in H. lia.
    + apply Qpower_not_0, ten_not_zero.
  - split; [done|]. intros H. apply Qmult_inj_r in H.
    + unfold Qeq in H. simpl in H. lia.
    + apply Qpower_not_0, ten_not_zero.
Qed.

End numeric_props.

(** ** Double entry: totals are conserved *)
Module conservation_props.
Import QArith Qcanon numeric numeric_props ledger balance balance_props.
Local Open Scope Z_scope.

Lemma share_zero_value c k : share c k zero_value = Q2Qc 0.
Proof. unfold share. destruct (decide _); [apply number_zero_value | done]. Qed.

Lemma total_empty c : total c ∅ = Q2Qc 0.
Proof. unfold total. by rewrite map_fold_empty. Qed.

Lemma total_insert_fresh c (am : gmap CommodityAccount Decimal) k v :
  am !! k = None → total c (<[k := v]> am) = (share c k v + total c am)%Qc.
Proof.
  intros Hk. unfold total. rewrite map_fold_insert_L; [done| |done].
  intros j1 j2 z1 z2 y _ _ _. ring.
Qed.

(** Writing a position changes the total by the difference between the new
    and the old share of the position. *)
Lemma total_insert c (am : gmap CommodityAccount Decimal) k v :
  total c (<[k := v]> am) = (total c am - share c k (get am k) + share c k v)%Qc.
Proof.
  unfold get. destruct (am !! k) as [old|] eqn:Hk; simpl.
  - rewrite <- (insert_delete_eq am), total_insert_fresh by apply lookup_delete_eq.
    rewrite <- (insert_delete_id am k old Hk) at 2.
    rewrite total_insert_fresh by apply lookup_delete_eq. ring.
  - rewrite total_insert_fresh by done. rewrite share_zero_value. ring.
Qed.

(** The two assignments made for a posting leave every total as it is. *)
Lemma total_booked c (am : gmap CommodityAccount Decimal) (cr dr : Account) (q : Decimal)
  (co : Commodity) :
  total c (amounts.Book am cr dr q co) = total c am.
Proof.
  unfold amounts.Book. rewrite !total_insert. rewrite !get_insert.
  unfold share. simpl.
  destruct (decide (co = c)); [|ring].
  destruct (decide (mkCommodityAccount dr co = mkCommodityAccount cr co)) as [Heq|Hne];
    rewrite ?number_Add, ?number_Sub; ring.
Qed.

Lemma bookAmount_loop_total c t postings b :
  total c (Amounts (bookAmount_loop t postings b).1) = total c (Amounts b).
Proof.
  revert b. induction postings as [|posting rest IH]; intros b; [done|].
  simpl. destruct (negb (IsOpen (Accounts b) (Credit posting))); [done|].
  destruct (negb (IsOpen (Accounts b) (Debit posting))); [done|].
  rewrite IH. simpl.
  apply (total_booked c (Amounts b) (Credit posting) (Debit posting) (Amount posting)
           (PCommodity posting)).
Qed.

Lemma bookValue_loop_total c postings b :
  total c (Values (bookValue_loop postings b)) = total c (Values b).
Proof.
  revert b. induction postings as [|posting rest IH]; intros b; [done|].
  simpl. rewrite IH. simpl.
  apply (total_booked c (Values b) (Credit posting) (Debit posting) (Value posting)
           (PCommodity posting)).
Qed.

End conservation_props.

(** ** More on booking and on the open-account set *)
Module booking_props.
Import QArith Qcanon numeric numeric_props ledger balance balance_props conservation_props fixtures.
Local Open Scope Z_scope.

(** Double entry: booking a transaction, completely or up to the posting
    that is refused, leaves the total of every commodity over all accounts as
    it was; so after any history of bookings on a new balance every total is
    zero. *)
Theorem bookAmount_conserves_totals (b : Balance) (t : Transaction) (ts : list Transaction)
  (c : Commodity) (valuation : option Commodity) :
  total c (Amounts (bookAmount b t).1) = total c (Amounts b) ∧
  total c (Amounts (book_all (New valuation) ts)) = Q2Qc 0.
Proof.
  split; [apply bookAmount_loop_total|].
  assert (∀ b0, total c (Amounts (book_all b0 ts)) = total c (Amounts b0)) as Hall.
  { induction ts as [|t0 ts IH]; intros b0; [done|].
    unfold book_all in *. simpl. rewrite IH. apply bookAmount_loop_total. }
  rewrite Hall. apply total_empty.
Qed.

Lemma bookValue_loop_cons posting rest b :
  bookValue_loop (posting :: rest) b =
  bookValue_loop rest
    (set_Values b
       (<[drPos posting :=
            Add (get (<[crPos posting := Sub (get (Values b) (crPos posting)) (Value posting)]>
                        (Values b)) (drPos posting)) (Value posting)]>
          (<[crPos posting := Sub (get (Values b) (crPos posting)) (Value posting)]>
             (Values b)))).
Proof. reflexivity. Qed.

Lemma bookValue_loop_spec postings b :
  ∃ va, bookValue_loop postings b = set_Values b va ∧
    (∀ k, get va k = foldl (posting_value_effect k) (get (Values b) k) postings).
Proof.
  revert b. induction postings as [|posting rest IH]; intros b.
  - exists (Values b). split; [by destruct b | done].
  - rewrite bookValue_loop_cons.
    set (va1 := <[crPos posting := _]> (Values b)).
    set (va2 := <[drPos posting := _]> va1).
    destruct (IH (set_Values b va2)) as (va & Heq & Hget).
    exists va. split; [by rewrite Heq|].
    intros k. rewrite Hget. simpl. f_equal.
    unfold posting_value_effect, va2, va1. rewrite !get_insert.
    repeat case_decide; subst; congruence.
Qed.

(** [bookValue] never fails and never looks at the open accounts: for every
    balance and transaction it returns nil, changes nothing but [Values],
    subtracts each posting's value at its credit position and adds it at its
    debit position, and leaves the total value of every commodity as it
    was. *)
Theorem bookValue_books_unconditionally (b : Balance) (t : Transaction) :
  (bookValue b t).2 = None ∧
  ∃ va, (bookValue b t).1 = set_Values b va ∧
    (∀ k, get va k = foldl (posting_value_effect k) (get (Values b) k) (Postings t)) ∧
    (∀ c, total c va = total c (Values b)).
Proof.
  split; [done|]. destruct (bookValue_loop_spec (Postings t) b) as (va & Heq & Hget).
  exists va. split; [done|]. split; [done|].
  intros c. pose proof (bookValue_loop_total c (Postings t) b) as Ht.
  by rewrite Heq in Ht.
Qed.

Lemma bookAmount_loop_app t pre rest b :
  (bookAmount_loop t pre b).2 = None →
  bookAmount_loop t (pre ++ rest) b = bookAmount_loop t rest (bookAmount_loop t pre b).1.
Proof.
  revert b. induction pre as [|posting pre IH]; intros b Hok; [done|].
  simpl in *. destruct (negb (IsOpen (Accounts b) (Credit posting))); [done|].
  destruct (negb (IsOpen (Accounts b) (Debit posting))); [done|].
  by apply IH.
Qed.

(** [bookAmount] is not atomic: when the first posting with an account that
    is not open comes after postings whose accounts are all open, those
    earlier postings stay booked in the balance that is returned with the
    error, and the postings from the refused one on are not booked. *)
Theorem bookAmount_keeps_bookings_before_error
  (b : Balance) (t : Transaction) (pre rest : list Posting) (bad : Posting) :
  Postings t = pre ++ bad :: rest →
  all_open (Accounts b) pre →
  IsOpen (Accounts b) (Credit bad) = false ∨ IsOpen (Accounts b) (Debit bad) = false →
  ∃ am e, bookAmount b t = (set_Amounts b am, Some e) ∧
    (∀ k, get am k = foldl (posting_effect k) (get (Amounts b) k) pre).
Proof.
  intros Hp Hopen Hbad. unfold bookAmount. rewrite Hp.
  destruct (bookAmount_loop_all_open t pre b Hopen) as (am & Hpre & Hget & _).
  rewrite bookAmount_loop_app by (by rewrite Hpre). rewrite Hpre. simpl.
  exists am. destruct (IsOpen (Accounts b) (Credit bad)) eqn:Hc; simpl.
  - destruct Hbad as [?|Hd]; [done|]. rewrite Hd. simpl. eauto.
  - eauto.
Qed.

Lemma bookAmount_keeps_bookings_before_error_witness :
  ∃ am e,
    bookAmount (opened [Assets_Cash; Expenses_Food])
      {| TDate := day1; Description := "Lunch, twice";
         Postings := [food_posting] ++
                     {| Credit := Assets_Broker; Debit := Expenses_Food; PCommodity := USD;
                        Amount := ten; Value := zero_value |} :: [] |} =
      (set_Amounts (opened [Assets_Cash; Expenses_Food]) am, Some e) ∧
    (∀ k, get am k =
          foldl (posting_effect k) (get (Amounts (opened [Assets_Cash; Expenses_Food])) k)
            [food_posting]).
Proof.
  apply (bookAmount_keeps_bookings_before_error (opened [Assets_Cash; Expenses_Food])
           {| TDate := day1; Description := "Lunch, twice";
              Postings := [food_posting] ++
                          {| Credit := Assets_Broker; Debit := Expenses_Food; PCommodity := USD;
                             Amount := ten; Value := zero_value |} :: [] |}
           [food_posting] []
           {| Credit := Assets_Broker; Debit := Expenses_Food; PCommodity := USD;
              Amount := ten; Value := zero_value |}).
  - reflexivity.
  - intros posting Hp. apply list_elem_of_singleton in Hp. subst posting. split; reflexivity.
  - left. reflexivity.
Defined.

(** *** The open-account set *)

(** Opening an account that has no entry succeeds and makes it open;
    closing it again succeeds and gives back the set as it was before.
    Opening an account that is open fails with "already open" and leaves the
    set as it is. *)
Theorem Open_then_Close_restores (oa : gmap Account bool) (a : Account) :
  (oa !! a = None →
   Open oa a = (<[a := true]> oa, None) ∧
   IsOpen (Open oa a).1 a = true ∧
   Close (Open oa a).1 a = (oa, None)) ∧
  (oa !! a = Some true →
   Open oa a = (oa, Some (Errorf ("account " +:+ Account_String a +:+ " is already open")))).
Proof.
  split.
  - intros Hnone. unfold Open, is_set. rewrite Hnone. simpl. split; [done|].
    split.
    + apply IsOpen_true. left. apply lookup_insert_eq.
    + unfold Close, is_set. rewrite lookup_insert_eq. simpl.
      by rewrite delete_insert_id.
  - intros Hopen. unfold Open, is_set. by rewrite Hopen.
Qed.

Lemma Open_then_Close_restores_witness :
  Open ∅ Assets_Cash = (<[Assets_Cash := true]> ∅, None) ∧
  IsOpen (Open ∅ Assets_Cash).1 Assets_Cash = true ∧
  Close (Open ∅ Assets_Cash).1 Assets_Cash = (∅, None).
Proof.
  apply (proj1 (Open_then_Close_restores ∅ Assets_Cash)). reflexivity.
Defined.

(** The open-account map only ever holds [true]: this holds of the empty map
    and is kept by [Open] and [Close], whether they fail or not; on such a map
    [Accounts.Copy] returns an equal map, so that the copy has exactly the
    same open accounts. *)
Theorem Accounts_hold_true_and_Copy_is_exact (oa : gmap Account bool) (a : Account) :
  all_true ∅ ∧
  (all_true oa → all_true (Open oa a).1 ∧ all_true (Close oa a).1) ∧
  (all_true oa → Accounts_Copy oa = oa ∧ ∀ a', IsOpen (Accounts_Copy oa) a' = IsOpen oa a').
Proof.
  split; [apply map_Forall_empty|]. split.
  - intros Hall. split.
    + unfold Open. destruct (is_set oa a); [done|]. simpl. by apply map_Forall_insert_2.
    + unfold Close. destruct (negb (is_set oa a)); [done|]. simpl.
      by apply map_Forall_delete.
  - intros Hall. assert (Accounts_Copy oa = oa) as ->; [|done].
    apply map_eq. intros a'. unfold Accounts_Copy. rewrite lookup_fmap.
    destruct (oa !! a') as [v|] eqn:Ha; [|done]. simpl. by rewrite (Hall a' v Ha).
Qed.

Lemma Accounts_hold_true_witness :
  Accounts_Copy (Open ∅ Assets_Cash).1 = (Open ∅ Assets_Cash).1 ∧
  ∀ a', IsOpen (Accounts_Copy (Open ∅ Assets_Cash).1) a' = IsOpen (Open ∅ Assets_Cash).1 a'.
Proof.
  apply (proj2 (proj2 (Accounts_hold_true_and_Copy_is_exact (Open ∅ Assets_Cash).1 Assets_Cash))).
  apply (proj1 (proj1 (proj2 (Accounts_hold_true_and_Copy_is_exact ∅ Assets_Cash))
                  (proj1 (Accounts_hold_true_and_Copy_is_exact ∅ Assets_Cash)))).
Defined.

End booking_props.

(** ** More on differences *)
Module minus_props.
Import QArith Qcanon numeric numeric_props balance process fixtures.
Import balance_props heap_props differ_props.
Local Open Scope Z_scope.

(** Pointwise subtraction subtracts the numbers held, a missing entry
    counting as zero. *)
Lemma number_pointwise_minus (r a b : gmap CommodityAccount Decimal) (k : CommodityAccount) :
  r !! k = pointwise_minus a b k →
  number (get r k) = (number (get a k) - number (get b k))%Qc.
Proof.
  unfold pointwise_minus, get. intros Hr. rewrite Hr.
  destruct (b !! k) as [vb|]; simpl.
  - apply number_Sub.
  - rewrite number_zero_value. ring.
Qed.

Lemma dom_pointwise_minus (r a b : gmap CommodityAccount Decimal) :
  (∀ k, r !! k = pointwise_minus a b k) → dom r = dom a ∪ dom b.
Proof.
  intros Hr. apply set_eq. intros k.
  rewrite elem_of_union, !elem_of_dom, Hr. unfold pointwise_minus.
  destruct (b !! k) as [vb|]; split; intros H; try by eauto.
  - by destruct H as [?|[? ?]].
Qed.

(** [Minus] subtracts, at every position, the number the argument holds from
    the number the receiver holds, a missing entry counting as zero, for the
    amounts and for the values; the keys of the receiver become those of both
    balances; the other fields of the receiver, the argument (if it is another
    object) and all other objects are unchanged. *)
Theorem Minus_subtracts_at_every_position
  (h : gmap loc Balance) (b bo : loc) (x y : Balance) :
  h !! b = Some x → h !! bo = Some y →
  ∃ x', Minus h b bo = Some (<[b := x']> h) ∧
    same_but_maps x x' ∧
    (∀ k, number (get (Amounts x') k) =
          (number (get (Amounts x) k) - number (get (Amounts y) k))%Qc) ∧
    (∀ k, number (get (Values x') k) =
          (number (get (Values x) k) - number (get (Values y) k))%Qc) ∧
    dom (Amounts x') = dom (Amounts x) ∪ dom (Amounts y) ∧
    dom (Values x') = dom (Values x) ∪ dom (Values y) ∧
    (b ≠ bo → (<[b := x']> h) !! bo = Some y).
Proof.
  intros Hb Hbo. exists (minus_balance x y).
  split; [by apply Minus_spec|]. split; [apply minus_balance_same_but_maps|].
  split; [intros k; apply number_pointwise_minus, minus_balance_Amounts|].
  split; [intros k; apply number_pointwise_minus, minus_balance_Values|].
  split; [apply dom_pointwise_minus; intros k; apply minus_balance_Amounts|].
  split; [apply dom_pointwise_minus; intros k; apply minus_balance_Values|].
  intros Hne. by rewrite lookup_insert_ne.
Qed.

Lemma Minus_subtracts_at_every_position_witness :
  ∃ x', Minus {[ 1%positive := lunch_once; 2%positive := lunch_twice ]} 2%positive 1%positive =
          Some (<[2%positive := x']> {[ 1%positive := lunch_once; 2%positive := lunch_twice ]}) ∧
    same_but_maps lunch_twice x' ∧
    get (Amounts lunch_once) Cash_USD = decimal.New (-1000) (-2) ∧
    get (Amounts lunch_twice) Cash_USD = decimal.New (-2000) (-2) ∧
    number (get (Amounts x') Cash_USD) =
      (number (decimal.New (-2000) (-2)) - number (decimal.New (-1000) (-2)))%Qc ∧
    get (Amounts x') Cash_USD = decimal.New (-1000) (-2) ∧
    get (Amounts x') Food_USD = decimal.New 1000 (-2) ∧
    dom (Amounts x') = dom (Amounts lunch_twice) ∪ dom (Amounts lunch_once) ∧
    (<[2%positive := x']> {[ 1%positive := lunch_once; 2%positive := lunch_twice ]}
       : gmap loc Balance) !! 1%positive = Some lunch_once.
Proof.
  destruct (Minus_subtracts_at_every_position
              {[ 1%positive := lunch_once; 2%positive := lunch_twice ]}
              2%positive 1%positive lunch_twice lunch_once)
    as (x' & HM & Hsame & HA & _ & HdA & _ & Hbo); [reflexivity | reflexivity |].
  exists x'. split; [exact HM|]. split; [exact Hsame|].
  split; [reflexivity|]. split; [reflexivity|].
  split; [exact (HA Cash_USD)|].
  assert (x' = minus_balance lunch_twice lunch_once) as ->.
  { pose proof (Minus_spec {[ 1%positive := lunch_once; 2%positive := lunch_twice ]}
                  2%positive 1%positive lunch_twice lunch_once eq_refl eq_refl) as HM'.
    rewrite HM in HM'.
    assert (∀ m1 m2 : gmap loc Balance, Some m1 = Some m2 →
              m1 !! 2%positive = m2 !! 2%positive) as Hinj by (by intros m1 m2 [= ->]).
    apply Hinj in HM'. rewrite !lookup_insert_eq in HM'. congruence. }
  split; [reflexivity|]. split; [reflexivity|]. split; [exact HdA|].
  apply Hbo. discriminate.
Defined.

(** [Diffs] leaves the first balance, and every balance that is not in the
    slice, exactly as it was; only the balances it returns are changed. *)
Theorem Diffs_leaves_first_balance (h : gmap loc Balance) (bals : list loc) (b0 : loc) :
  bals ≠ [] → NoDup bals → (∀ l, l ∈ bals → is_Some (h !! l)) →
  head bals = Some b0 →
  ∃ h', Diffs h bals = Some (h', tail bals) ∧
    h' !! b0 = h !! b0 ∧
    (∀ l, l ∉ bals → h' !! l = h !! l).
Proof.
  intros Hne Hnd Hdom Hhd.
  destruct (Diffs_spec h bals Hne Hnd Hdom) as (h' & HD & _ & Hframe).
  exists h'. split; [done|]. destruct bals as [|b rest]; [done|]. simpl in *.
  apply NoDup_cons in Hnd as [Hb _]. simplify_eq. split.
  - by apply Hframe.
  - intros l Hl. apply Hframe. intros Hin. apply Hl. by right.
Qed.

Lemma Diffs_leaves_first_balance_witness :
  ∃ h', Diffs {[ 1%positive := New None; 2%positive := New (Some USD) ]}
          [1%positive; 2%positive] = Some (h', [2%positive]) ∧
    h' !! 1%positive =
      ({[ 1%positive := New None; 2%positive := New (Some USD) ]} : gmap loc Balance)
        !! 1%positive ∧
    (∀ l, l ∉ [1%positive; 2%positive] →
       h' !! l =
       ({[ 1%positive := New None; 2%positive := New (Some USD) ]} : gmap loc Balance) !! l).
Proof.
  apply (Diffs_leaves_first_balance
           {[ 1%positive := New None; 2%positive := New (Some USD) ]}
           [1%positive; 2%positive] 1%positive).
  - discriminate.
  - apply NoDup_cons. split; [|apply NoDup_singleton].
    intros Hin. apply list_elem_of_singleton in Hin. discriminate Hin.
  - intros l Hl. apply elem_of_cons in Hl as [->|Hl]; [by eexists|].
    apply list_elem_of_singleton in Hl. subst l. by eexists.
  - reflexivity.
Defined.

(** *** The streaming differ *)

Lemma sum_snoc (l : list Decimal) (d : Decimal) :
  sum (l ++ [d]) = (sum l + number d)%Qc.
Proof.
  unfold sum. induction l as [|x l IH]; simpl.
  - ring.
  - rewrite IH. ring.
Qed.

(** The differences [Differ.Process2] pushes add up again: at every position
    the numbers held by the first [n+1] output days sum to the number held by
    the [n]-th input day. *)
Theorem Differ_outputs_sum_to_input (inCh : list ast.Day) (n : nat) (d : ast.Day)
  (k : CommodityAccount) :
  inCh !! n = Some d →
  sum (map (λ o, get (ast.DayValue o) k) (take (S n) (Differ_Process2 true inCh))) =
  number (get (ast.DayValue d) k).
Proof.
  unfold Differ_Process2. simpl. revert d.
  induction n as [|n IH]; intros d Hd.
  - pose proof (Differ_Process2_loop_lookup ∅ inCh 0 d Hd) as Hout.
    rewrite (take_S_r _ _ _ Hout). simpl.
    unfold amounts.Clone. rewrite amounts_Minus_nil. unfold sum. simpl. ring.
  - destruct (lookup_lt_is_Some_2 inCh n) as [d0 Hd0].
    { apply lookup_lt_Some in Hd. lia. }
    pose proof (Differ_Process2_loop_lookup ∅ inCh (S n) d Hd) as Hout.
    rewrite (take_S_r _ _ _ Hout), map_app. cbn [map]. rewrite sum_snoc. rewrite (IH d0 Hd0).
    simpl. rewrite Hd0. simpl.
    rewrite (number_pointwise_minus (amounts.Minus (ast.DayValue d) (ast.DayValue d0))
               (ast.DayValue d) (ast.DayValue d0) k).
    + ring.
    + apply amounts_Minus_lookup.
Qed.

Lemma Differ_outputs_sum_to_input_witness :
  map (λ o, get (ast.DayValue o) Broker_AAPL)
    (Differ_Process2 true
       [valued_day day1 (decimal.New 45000 (-2)); valued_day day2 (decimal.New 48000 (-2))]) =
    [decimal.New 45000 (-2); decimal.New 3000 (-2)] ∧
  sum (map (λ o, get (ast.DayValue o) Broker_AAPL)
         (take 2 (Differ_Process2 true
                    [valued_day day1 (decimal.New 45000 (-2));
                     valued_day day2 (decimal.New 48000 (-2))]))) =
  number (get (ast.DayValue (valued_day day2 (decimal.New 48000 (-2)))) Broker_AAPL).
Proof.
  split; [reflexivity|].
  apply (Differ_outputs_sum_to_input
           [valued_day day1 (decimal.New 45000 (-2)); valued_day day2 (decimal.New 48000 (-2))]
           1 (valued_day day2 (decimal.New 48000 (-2))) Broker_AAPL).
  reflexivity.
Defined.

End minus_props.

(** ** More on valuation adjustments *)
Module valuation_props.
Import QArith Qcanon numeric numeric_props process fixtures.
Import balance_props conservation_props valuator_props.
Local Open Scope Z_scope.

Section Valuator.

Variable Valuate : gmap Commodity Decimal → Commodity → Decimal → option Decimal.
Variable ValuationAccountFor : Account → Account.
Variable Valuation : option Commodity.

Abbreviation revalued := (revalued Valuation).
Abbreviation adjustment := (adjustment Valuate Valuation).
Abbreviation no_valuation := (no_valuation Valuate Valuation).
Abbreviation book_adjustment := (book_adjustment ValuationAccountFor).
Abbreviation compute_loop := (computeValuationTransactions_loop Valuate ValuationAccountFor Valuation).
Abbreviation process2_loop := (processValuationTransactions2_loop Valuate ValuationAccountFor Valuation).

Lemma compute_loop_total (c : Commodity) (entries : list (CommodityAccount * Decimal))
  (day : val.Day) :
  total c (val.Values (outcome_day (compute_loop entries day))) = total c (val.Values day).
Proof.
  revert day. induction entries as [|[pos va] rest IH]; intros day; [done|].
  rewrite compute_loop_cons.
  destruct (decide (revalued pos)); [|apply IH].
  destruct (Valuate (val.Prices day) (pos_Commodity pos) va) as [value|]; [|done].
  destruct (IsZero (Sub value (get (val.Values day) pos))); [apply IH|].
  rewrite IH. simpl. apply total_booked.
Qed.

Lemma book_adjustment_self (v : gmap CommodityAccount Decimal) pos diff :
  valuation_accounts_apart ValuationAccountFor → revalued pos →
  get (book_adjustment v (pos, diff)) pos = Add (get v pos) diff.
Proof.
  intros Hapart [_ Hty]. unfold process.book_adjustment, amounts.Book. simpl.
  destruct (Hapart _ Hty) as [HA HL]. destruct pos as [a co]. simpl in *.
  rewrite !get_insert. rewrite decide_True by done.
  rewrite decide_False; [done|]. intros [= Heq]. rewrite <- Heq in HA, HL.
  destruct Hty; congruence.
Qed.

(** The value of a revalued position after a list of adjustments of distinct
    revalued positions were booked. *)
Lemma foldl_book_adjustment_get (adjs : list (CommodityAccount * Decimal))
  (v : gmap CommodityAccount Decimal) (pos : CommodityAccount) :
  valuation_accounts_apart ValuationAccountFor →
  NoDup adjs.*1 → (∀ a, a ∈ adjs → revalued a.1) → revalued pos →
  get (foldl book_adjustment v adjs) pos =
    match (list_to_map adjs : gmap CommodityAccount Decimal) !! pos with
    | Some diff => Add (get v pos) diff
    | None => get v pos
    end.
Proof.
  intros Hapart Hnd Hrev Hpos. revert v.
  induction adjs as [|[p0 d0] rest IH]; intros v; [done|].
  rewrite fmap_cons in Hnd. apply NoDup_cons in Hnd as [Hp0 Hnd].
  assert (revalued p0) as Hr0 by (apply (Hrev (p0, d0)); left).
  simpl. rewrite IH; [|done|intros a Ha; apply Hrev; by right].
  destruct (decide (pos = p0)) as [->|Hne].
  - rewrite lookup_insert_eq. rewrite (not_elem_of_list_to_map_1 _ p0) by done.
    by apply book_adjustment_self.
  - rewrite lookup_insert_ne by done.
    by rewrite (book_adjustment_other ValuationAccountFor Valuation) by done.
Qed.

Lemma adjustment_key prices (v : gmap CommodityAccount Decimal) e a :
  adjustment prices v e = Some a → a.1 = e.1 ∧ revalued e.1.
Proof.
  unfold process.adjustment. destruct (decide (revalued e.1)); [|done].
  destruct (Valuate prices (pos_Commodity e.1) e.2); [|done].
  destruct (IsZero _); [done|]. by intros [= <-].
Qed.

Lemma omap_adjustment_keys prices (v : gmap CommodityAccount Decimal)
  (entries : list (CommodityAccount * Decimal)) :
  NoDup entries.*1 →
  NoDup (omap (adjustment prices v) entries).*1 ∧
  (∀ a, a ∈ omap (adjustment prices v) entries → revalued a.1 ∧ a.1 ∈ entries.*1).
Proof.
  induction entries as [|e rest IH]; intros Hnd.
  - split; [constructor|]. intros a Ha. by apply elem_of_nil in Ha.
  - rewrite fmap_cons in Hnd. apply NoDup_cons in Hnd as [He Hnd].
    destruct (IH Hnd) as [IH1 IH2]. rewrite omap_cons_eq.
    destruct (adjustment prices v e) as [a0|] eqn:Ha0.
    + destruct (adjustment_key _ _ _ _ Ha0) as [Hk Hr]. split.
      * rewrite fmap_cons. apply NoDup_cons. split; [|done].
        rewrite Hk. intros Hin. apply He.
        apply list_elem_of_fmap in Hin as (a & -> & Ha). by apply IH2.
      * intros a [->|Ha]%elem_of_cons.
        -- rewrite Hk. split; [done|]. rewrite fmap_cons. left.
        -- destruct (IH2 a Ha). split; [done|]. rewrite fmap_cons. by right.
    + split; [done|]. intros a Ha. destruct (IH2 a Ha). split; [done|].
      rewrite fmap_cons. by right.
Qed.

Lemma omap_adjustment_lookup prices (v : gmap CommodityAccount Decimal)
  (entries : list (CommodityAccount * Decimal)) (pos : CommodityAccount) (va : Decimal) :
  NoDup entries.*1 → (pos, va) ∈ entries →
  (list_to_map (omap (adjustment prices v) entries) : gmap CommodityAccount Decimal) !! pos =
    snd <$> adjustment prices v (pos, va).
Proof.
  induction entries as [|e rest IH]; intros Hnd Hin; [by apply elem_of_nil in Hin|].
  rewrite fmap_cons in Hnd. apply NoDup_cons in Hnd as [He Hnd].
  rewrite omap_cons_eq. apply elem_of_cons in Hin as [<-|Hin].
  - destruct (adjustment prices v (pos, va)) as [a0|] eqn:Ha0.
    + destruct (adjustment_key _ _ _ _ Ha0) as [Hk _]. simpl in Hk.
      destruct a0 as [k0 d0]. simpl in *. subst k0. apply lookup_insert_eq.
    + simpl. apply not_elem_of_list_to_map_1. intros Hk. apply He.
      apply list_elem_of_fmap in Hk as (a & Hk & Ha).
      destruct (omap_adjustment_keys prices v rest Hnd) as [_ Hkeys].
      destruct (Hkeys a Ha) as [_ ?]. simpl. by rewrite Hk.
  - assert (e.1 ≠ pos) as Hne.
    { intros Heq. apply He. rewrite Heq. apply list_elem_of_fmap. by exists (pos, va). }
    destruct (adjustment prices v e) as [a0|] eqn:Ha0; [|by apply IH].
    destruct (adjustment_key _ _ _ _ Ha0) as [Hk _]. destruct a0 as [k0 d0]. simpl in *.
    rewrite lookup_insert_ne by congruence. by apply IH.
Qed.

(** After a step that returns, the value recorded for a revalued position
    is, as a number, its recomputed value. *)
Lemma compute_loop_records_value (entries : list (CommodityAccount * Decimal)) (day : val.Day)
  (pos : CommodityAccount) (va value : Decimal) :
  NoDup entries.*1 →
  valuation_accounts_apart ValuationAccountFor →
  (pos, va) ∈ entries → revalued pos →
  Valuate (val.Prices day) (pos_Commodity pos) va = Some value →
  number (get (foldl book_adjustment (val.Values day)
                 (omap (adjustment (val.Prices day) (val.Values day)) entries)) pos) =
  number value.
Proof.
  intros Hnd Hapart Hin Hrev Hval.
  destruct (omap_adjustment_keys (val.Prices day) (val.Values day) entries Hnd) as [Hnd' Hkeys].
  rewrite foldl_book_adjustment_get; [|done|done| |done].
  - rewrite (omap_adjustment_lookup _ _ _ pos va) by done.
    destruct (IsZero (Sub value (get (val.Values day) pos))) eqn:Hz.
    + rewrite (adjustment_zero Valuate Valuation _ _ _ _ value) by done. simpl.
      apply IsZero_number in Hz. rewrite number_Sub in Hz.
      apply (f_equal (λ q, (q + number (get (val.Values day) pos))%Qc)) in Hz.
      ring_simplify in Hz. done.
    + rewrite (adjustment_nonzero Valuate Valuation _ _ _ _ value) by done. simpl.
      rewrite number_Add, number_Sub. ring.
  - intros a Ha. by destruct (Hkeys a Ha).
Qed.

Lemma omap_none {A B : Type} (f : A → option B) (l : list A) :
  (∀ x, x ∈ l → f x = None) → omap f l = [].
Proof.
  induction l as [|x l IH]; intros Hf; [done|].
  rewrite omap_cons_eq, (Hf x) by left. apply IH. intros y Hy. apply Hf. by right.
Qed.

End Valuator.

(** Valuation adjustments are balanced: whatever the outcome of the step and
    the order in which the positions are visited, the total of the values of
    every commodity over all accounts is what it was before the step; what is
    added to a position is taken from its valuation account. *)
Theorem valuation_step_conserves_total_value
  (Valuate : gmap Commodity Decimal → Commodity → Decimal → option Decimal)
  (ValuationAccountFor : Account → Account) (Valuation : option Commodity)
  (entries : list (CommodityAccount * Decimal)) (day : val.Day) (d : ast.Day) (c : Commodity) :
  total c (val.Values (outcome_day
     (computeValuationTransactions_in Valuate ValuationAccountFor Valuation entries day))) =
    total c (val.Values day) ∧
  total c (ast.DayValue
     (processValuationTransactions2_loop Valuate ValuationAccountFor Valuation entries d).1) =
    total c (ast.DayValue d).
Proof.
  split.
  - unfold computeValuationTransactions_in. destruct Valuation as [v|] eqn:Hv; [|done].
    apply compute_loop_total.
  - pose proof (compute_loop_total Valuate ValuationAccountFor Valuation c entries (to_val d))
      as Ht.
    destruct (process2_loop_simulates Valuate ValuationAccountFor Valuation entries d)
      as [Hsim _].
    rewrite Hsim in Ht.
    by destruct (processValuationTransactions2_loop _ _ _ entries d) as [d' [[msg]|]].
Qed.

(** When every position to be revalued can be valuated (the positions being
    distinct, and valuation accounts neither assets nor liabilities), the step
    returns with the value recorded for every revalued position equal, as a
    number, to its recomputed value; and running the step once more on the
    result changes nothing: no further transaction is made. *)
Theorem valuation_step_records_recomputed_values
  (Valuate : gmap Commodity Decimal → Commodity → Decimal → option Decimal)
  (ValuationAccountFor : Account → Account) (Valuation : option Commodity)
  (entries : list (CommodityAccount * Decimal)) (day : val.Day) :
  NoDup entries.*1 →
  valuation_accounts_apart ValuationAccountFor →
  (∀ e, e ∈ entries → ¬ no_valuation Valuate Valuation (val.Prices day) e) →
  ∃ day',
    computeValuationTransactions_loop Valuate ValuationAccountFor Valuation entries day =
      Returned day' ∧
    (∀ pos va value, (pos, va) ∈ entries → revalued Valuation pos →
       Valuate (val.Prices day) (pos_Commodity pos) va = Some value →
       Equal (get (val.Values day') pos) value = true) ∧
    computeValuationTransactions_loop Valuate ValuationAccountFor Valuation entries day' =
      Returned day'.
Proof.
  intros Hnd Hapart Hok.
  rewrite (compute_loop_exact Valuate ValuationAccountFor Valuation entries day) by done.
  set (values' := foldl (book_adjustment ValuationAccountFor) (val.Values day)
                    (omap (adjustment Valuate Valuation (val.Prices day) (val.Values day))
                       entries)).
  set (day' := {| val.Date := val.Date day; val.DayAmounts := val.DayAmounts day;
                  val.Prices := val.Prices day; val.Values := values';
                  val.Transactions := _ |}).
  exists day'. split; [reflexivity|].
  assert (∀ pos va value, (pos, va) ∈ entries → revalued Valuation pos →
            Valuate (val.Prices day) (pos_Commodity pos) va = Some value →
            number (get values' pos) = number value) as Hnum.
  { intros pos va value Hin Hrev Hval.
    by apply (compute_loop_records_value Valuate ValuationAccountFor Valuation entries day
                pos va value). }
  split.
  - intros pos va value Hin Hrev Hval. apply Equal_number. by eapply Hnum.
  - rewrite (compute_loop_exact Valuate ValuationAccountFor Valuation entries day') by done.
    rewrite (omap_none (adjustment Valuate Valuation (val.Prices day') (val.Values day'))).
    + unfold day'. simpl. by rewrite app_nil_r.
    + intros [pos va] Hin.
      destruct (decide (revalued Valuation pos)) as [Hrev|Hrev];
        [|by apply adjustment_not_revalued].
      destruct (Valuate (val.Prices day) (pos_Commodity pos) va) as [value|] eqn:Hval.
      * apply (adjustment_zero Valuate Valuation _ _ _ _ value); [done..|].
        apply IsZero_number. rewrite number_Sub. simpl.
        rewrite (Hnum pos va value) by done. ring.
      * destruct (Hok (pos, va) Hin). by split.
Qed.

Lemma valuation_step_records_recomputed_values_witness :
  ∃ day',
    computeValuationTransactions_loop price_lookup valuation_account (Some CHF)
      [(Broker_AAPL, decimal.New 3 0)] broker_day = Returned day' ∧
    (∀ pos va value, (pos, va) ∈ [(Broker_AAPL, decimal.New 3 0)] → revalued (Some CHF) pos →
       price_lookup (val.Prices broker_day) (pos_Commodity pos) va = Some value →
       Equal (get (val.Values day') pos) value = true) ∧
    computeValuationTransactions_loop price_lookup valuation_account (Some CHF)
      [(Broker_AAPL, decimal.New 3 0)] day' = Returned day'.
Proof.
  apply (valuation_step_records_recomputed_values price_lookup valuation_account (Some CHF)
           [(Broker_AAPL, decimal.New 3 0)] broker_day).
  - apply NoDup_singleton.
  - intros a _. split; discriminate.
  - intros e He [_ Hnone]. apply list_elem_of_singleton in He. subst e. discriminate Hnone.
Defined.

End valuation_props.

(** ** The order of positions *)
Module less_props.
Import balance fixtures.

Lemma ltb_strict (s1 s2 : string) :
  String.ltb s1 s2 = true ↔ strict String.le s1 s2.
Proof.
  unfold strict, String.le, String.leb, String.ltb.
  rewrite (String.compare_antisym s2 s1).
  destruct (String.compare s1 s2); simpl; split; try done; try tauto.
Qed.

Lemma ltb_irrefl (s : string) : String.ltb s s = false.
Proof.
  apply not_true_iff_false. rewrite ltb_strict. apply irreflexivity, _.
Qed.

Lemma ltb_trans (s1 s2 s3 : string) :
  String.ltb s1 s2 = true → String.ltb s2 s3 = true → String.ltb s1 s3 = true.
Proof. rewrite !ltb_strict. apply transitivity. Qed.

Lemma ltb_total (s1 s2 : string) :
  s1 ≠ s2 → String.ltb s1 s2 = true ∨ String.ltb s2 s1 = true.
Proof.
  intros Hne. unfold String.ltb. rewrite (String.compare_antisym s2 s1).
  destruct (String.compare s1 s2) eqn:Hc; simpl; auto.
  by apply String.compare_eq_iff in Hc.
Qed.

(** [Less] is a strict total order on positions, not only a partial one,
    whatever distinct numbers the account types have: no position is less than
    itself, the relation is transitive, and of two different positions one is
    less than the other. *)
Theorem Less_is_a_strict_total_order (type_number : AccountType → Z) :
  (∀ t1 t2, type_number t1 = type_number t2 → t1 = t2) →
  (∀ p, Less type_number p p = false) ∧
  (∀ p1 p2 p3, Less type_number p1 p2 = true → Less type_number p2 p3 = true →
               Less type_number p1 p3 = true) ∧
  (∀ p1 p2, p1 ≠ p2 → Less type_number p1 p2 = true ∨ Less type_number p2 p1 = true).
Proof.
  intros Hinj. split; [|split].
  - intros p. unfold Less. rewrite !decide_False by (by intros H; apply H).
    apply ltb_irrefl.
  - intros [[t1 n1] [c1]] [[t2 n2] [c2]] [[t3 n3] [c3]]. unfold Less. simpl.
    destruct (decide (t1 = t2)) as [->|Ht12].
    + rewrite !(decide_False (P := t2 ≠ t2)) by (by intros H; apply H).
      destruct (decide (t2 = t3)) as [->|Ht23].
      * rewrite !(decide_False (P := t3 ≠ t3)) by (by intros H; apply H).
        destruct (decide (n1 = n2)) as [->|Hn12].
        -- rewrite !(decide_False (P := n2 ≠ n2)) by (by intros H; apply H).
           destruct (decide (n2 = n3)) as [->|Hn23].
           ++ rewrite !(decide_False (P := n3 ≠ n3)) by (by intros H; apply H).
              apply ltb_trans.
           ++ rewrite !(decide_True (P := n2 ≠ n3)) by done. by intros _ H.
        -- rewrite !(decide_True (P := n1 ≠ n2)) by done.
           destruct (decide (n2 = n3)) as [->|Hn23].
           ++ rewrite !(decide_False (P := n3 ≠ n3)) by (by intros H; apply H).
              rewrite !(decide_True (P := n1 ≠ n3)) by done. by intros H _.
           ++ rewrite !(decide_True (P := n2 ≠ n3)) by done.
              intros H12 H23. pose proof (ltb_trans _ _ _ H12 H23) as H13.
              rewrite decide_True; [done|].
              intros ->. by rewrite ltb_irrefl in H13.
      * rewrite !(decide_True (P := t2 ≠ t3)) by done. by intros _ H.
    + rewrite !(decide_True (P := t1 ≠ t2)) by done.
      destruct (decide (t2 = t3)) as [->|Ht23].
      * rewrite !(decide_False (P := t3 ≠ t3)) by (by intros H; apply H).
        rewrite !(decide_True (P := t1 ≠ t3)) by done. by intros H _.
      * rewrite !(decide_True (P := t2 ≠ t3)) by done.
        rewrite !bool_decide_eq_true. intros H12 H23.
        rewrite decide_True; [rewrite bool_decide_eq_true; lia|].
        intros ->. lia.
  - intros [[t1 n1] [c1]] [[t2 n2] [c2]] Hne. unfold Less. simpl.
    destruct (decide (t1 = t2)) as [->|Ht].
    + rewrite !(decide_False (P := t2 ≠ t2)) by (by intros H; apply H).
      destruct (decide (n1 = n2)) as [->|Hn].
      * rewrite !(decide_False (P := n2 ≠ n2)) by (by intros H; apply H).
        apply ltb_total. congruence.
      * rewrite !(decide_True (P := n1 ≠ n2)) by done.
        rewrite !(decide_True (P := n2 ≠ n1)) by done. by apply ltb_total.
    + rewrite !(decide_True (P := t1 ≠ t2)) by done.
      rewrite !(decide_True (P := t2 ≠ t1)) by done.
      rewrite !bool_decide_eq_true.
      assert (type_number t1 ≠ type_number t2) by (intros H; by apply Ht, Hinj). lia.
Qed.

Lemma Less_is_a_strict_total_order_witness :
  (∀ p, Less (λ t, Z.of_nat (AccountType_to_nat t)) p p = false) ∧
  (∀ p1 p2 p3, Less (λ t, Z.of_nat (AccountType_to_nat t)) p1 p2 = true →
               Less (λ t, Z.of_nat (AccountType_to_nat t)) p2 p3 = true →
               Less (λ t, Z.of_nat (AccountType_to_nat t)) p1 p3 = true) ∧
  (∀ p1 p2, p1 ≠ p2 →
     Less (λ t, Z.of_nat (AccountType_to_nat t)) p1 p2 = true ∨
     Less (λ t, Z.of_nat (AccountType_to_nat t)) p2 p1 = true).
Proof.
  apply (Less_is_a_strict_total_order (λ t, Z.of_nat (AccountType_to_nat t))).
  intros [] []; simpl; intros H; try reflexivity; discriminate H.
Defined.

End less_props.

(** ** What the printer writes, to any writer *)
Module layout_props.
Import printer printer_props fixtures.

(** *** Prefixes of strings *)

Lemma substring_length (r : nat) (s : string) :
  String.length (String.substring 0 r s) = (r `min` String.length s)%nat.
Proof.
  revert s. induction r as [|r IH]; intros [|c s]; simpl; try done.
  by rewrite IH.
Qed.

Lemma substring_all (r : nat) (s : string) :
  (String.length s ≤ r)%nat → String.substring 0 r s = s.
Proof.
  revert s. induction r as [|r IH]; intros [|c s] Hle; simpl in *; try done; try lia.
  rewrite IH; [done | lia].
Qed.

Lemma substring_app_fit (r : nat) (s1 s2 : string) :
  (String.length s1 ≤ r)%nat →
  String.substring 0 r (s1 +:+ s2) = s1 +:+ String.substring 0 (r - String.length s1) s2.
Proof.
  revert r. induction s1 as [|c s1 IH]; intros r Hle.
  - simpl. by rewrite Nat.sub_0_r.
  - destruct r as [|r]; simpl in *; [lia|].
    change (String c (String.substring 0 r (s1 +:+ s2)) =
            String c (s1 +:+ String.substring 0 (r - String.length s1) s2)).
    rewrite IH; [done | lia].
Qed.

Lemma substring_app_over (r : nat) (s1 s2 : string) :
  (r ≤ String.length s1)%nat →
  String.substring 0 r (s1 +:+ s2) = String.substring 0 r s1.
Proof.
  revert r. induction s1 as [|c s1 IH]; intros r Hle.
  - simpl in *. assert (r = 0%nat) as -> by lia. by destruct s2.
  - destruct r as [|r]; [done|]. simpl in *.
    change (String c (String.substring 0 r (s1 +:+ s2)) = String c (String.substring 0 r s1)).
    rewrite IH; [done | lia].
Qed.

(** *** One write and a sequence of writes *)

(** The writer after it was offered a text. *)
Definition wput (w : Writer) (text : string) : Writer :=
  {| written := written w +:+ accepted (room w) text; room := left_room (room w) text |}.

(** The error of a write of the text. *)
Definition short (w : Writer) (text : string) : option error :=
  if fits (room w) text then None else Some ErrShortWrite.

(** The printer after the text was offered to it through [Printer.Write]. *)
Definition put (p : Printer) (text : string) : Printer :=
  {| writer := wput (writer p) text;
     padding := padding p;
     count := count p + Z.of_nat (String.length (accepted (room (writer p)) text)) |}.

Lemma Writer_Write_spec (w : Writer) (bs : string) :
  Writer_Write w bs =
  (wput w bs, (Z.of_nat (String.length (accepted (room w) bs)), short w bs)).
Proof.
  unfold Writer_Write, wput, short, accepted, fits, left_room.
  destruct (room w) as [r|]; [|done].
  destruct (decide (String.length bs ≤ r)%nat) as [Hle|Hgt].
  - rewrite bool_decide_eq_true_2 by done. by rewrite substring_all.
  - rewrite bool_decide_eq_false_2 by done. rewrite substring_length.
    replace (r - String.length bs)%nat with 0%nat by lia.
    replace (r `min` String.length bs)%nat with r by lia. done.
Qed.

Lemma Write_spec (bs : string) (p : Printer) :
  Write bs p =
  (put p bs, (Z.of_nat (String.length (accepted (room (writer p)) bs)), short (writer p) bs)).
Proof. unfold Write. by rewrite Writer_Write_spec. Qed.

Lemma wput_nil (w : Writer) : wput w EmptyString = w.
Proof.
  destruct w as [s [r|]]; unfold wput; simpl.
  - rewrite Nat.sub_0_r. destruct r; simpl; by rewrite append_nil_r.
  - by rewrite append_nil_r.
Qed.

Lemma short_nil (w : Writer) : short w EmptyString = None.
Proof.
  unfold short, fits. destruct (room w) as [r|]; [|done].
  rewrite bool_decide_eq_true_2; [done | simpl; lia].
Qed.

Lemma put_nil (p : Printer) : put p EmptyString = p.
Proof.
  destruct p as [w pad c]. unfold put. simpl. rewrite wput_nil. f_equal.
  destruct (room w) as [[|r]|]; simpl; lia.
Qed.

Lemma wput_app_fit (w : Writer) (s1 s2 : string) :
  fits (room w) s1 = true →
  wput (wput w s1) s2 = wput w (s1 +:+ s2) ∧
  short (wput w s1) s2 = short w (s1 +:+ s2) ∧
  String.length (accepted (room w) (s1 +:+ s2)) =
    (String.length (accepted (room w) s1) +
     String.length (accepted (room (wput w s1)) s2))%nat.
Proof.
  unfold wput, short, fits, accepted, left_room. destruct (room w) as [r|]; simpl.
  - intros Hfit%bool_decide_eq_true. rewrite (substring_all r s1) by done.
    rewrite substring_app_fit by done. rewrite append_assoc, !length_append.
    split; [f_equal; f_equal; lia|]. split; [|done].
    destruct (decide (String.length s2 ≤ r - String.length s1)%nat).
    + rewrite !bool_decide_eq_true_2; [done | lia | done].
    + rewrite !bool_decide_eq_false_2; [done | lia | done].
  - intros _. by rewrite append_assoc, length_append.
Qed.

Lemma wput_app_over (w : Writer) (s1 s2 : string) :
  fits (room w) s1 = false →
  wput w (s1 +:+ s2) = wput w s1 ∧
  short w (s1 +:+ s2) = Some ErrShortWrite ∧
  short w s1 = Some ErrShortWrite ∧
  accepted (room w) (s1 +:+ s2) = accepted (room w) s1.
Proof.
  unfold wput, short, fits, accepted, left_room. destruct (room w) as [r|]; simpl; [|done].
  intros Hfit%bool_decide_eq_false. rewrite substring_app_over by lia.
  rewrite length_append.
  rewrite !bool_decide_eq_false_2 by lia.
  split; [f_equal; f_equal; lia|]. done.
Qed.

Lemma put_app_fit (p : Printer) (s1 s2 : string) :
  fits (room (writer p)) s1 = true →
  put (put p s1) s2 = put p (s1 +:+ s2) ∧
  short (writer (put p s1)) s2 = short (writer p) (s1 +:+ s2).
Proof.
  intros Hfit. destruct (wput_app_fit (writer p) s1 s2 Hfit) as (Hw & Hs & Hl).
  split; [|done]. unfold put. cbn [writer padding count]. rewrite Hw, Hl. f_equal. lia.
Qed.

Lemma put_app_over (p : Printer) (s1 s2 : string) :
  fits (room (writer p)) s1 = false →
  put p (s1 +:+ s2) = put p s1 ∧ short (writer p) (s1 +:+ s2) = Some ErrShortWrite.
Proof.
  intros Hfit. destruct (wput_app_over (writer p) s1 s2 Hfit) as (Hw & Hs & _ & Ha).
  split; [|done]. unfold put. by rewrite Hw, Ha.
Qed.

(** The result of a method that offers the text and returns the bytes
    written since [start]. *)
Definition offered (start : Z) (p : Printer) (text : string) : Printer * (Z * option error) :=
  (put p text, (count (put p text) - start, short (writer p) text)).

Lemma or_return_offered (start : Z) (s text : string) (k : io (Z * option error))
  (p : Printer) :
  k (put p s) = offered start (put p s) text →
  or_return start (Write s) k p = offered start p (s +:+ text).
Proof.
  intros Hk. unfold or_return. rewrite Write_spec. unfold short at 1.
  destruct (fits (room (writer p)) s) eqn:Hfit.
  - rewrite Hk. unfold offered. destruct (put_app_fit p s text Hfit) as [-> ->]. done.
  - unfold offered. destruct (put_app_over p s text Hfit) as [-> ->]. done.
Qed.

Section Printer.

Variable Format : Time → string.
Variable Decimal_String : Decimal → string.
Variable RuneCountInString : string → Z.

Abbreviation posting_text := (posting_text Decimal_String RuneCountInString).
Abbreviation posting_lines := (posting_lines Decimal_String RuneCountInString).
Abbreviation printTransaction_loop := (printTransaction_loop Decimal_String RuneCountInString).
Abbreviation directive_text :=
  (directive_text Format Decimal_String RuneCountInString odd_indexed).
Abbreviation PrintDirective := (PrintDirective Format Decimal_String RuneCountInString).

Lemma printTransaction_loop_offered (start : Z) (i : nat) (postings : list Posting)
  (p : Printer) :
  printTransaction_loop start i postings p =
  offered start p (posting_lines p (printed_from i postings)).
Proof.
  revert i p. induction postings as [|po rest IH]; intros i p.
  - rewrite printed_from_nil. change (posting_lines p []) with EmptyString.
    unfold offered. by rewrite put_nil, short_nil.
  - change (printTransaction_loop start i (po :: rest) p)
      with ((if decide (i mod 2 = 0)%nat then printTransaction_loop start (S i) rest
             else or_return start (printPosting Decimal_String RuneCountInString po)
                    (or_return start (WriteString newline)
                       (printTransaction_loop start (S i) rest))) p).
    destruct (decide (i mod 2 = 0)%nat) as [He|Ho].
    + rewrite printed_from_skip by done. apply IH.
    + rewrite printed_from_print by done.
      change (posting_lines p (po :: printed_from (S i) rest))
        with (posting_text p po +:+ newline +:+ posting_lines p (printed_from (S i) rest)).
      change (or_return start (printPosting Decimal_String RuneCountInString po) ?k p)
        with (or_return start (Write (posting_text p po)) k p).
      apply or_return_offered. apply or_return_offered.
      exact (IH (S i) (put (put p (posting_text p po)) newline)).
Qed.

Lemma printTransaction_offered (t : Transaction) (p : Printer) :
  printTransaction Format Decimal_String RuneCountInString t p =
  offered (count p) p (directive_text p (DTransaction t)).
Proof.
  unfold printTransaction, Fprintf.
  assert (∀ q, padding q = padding p →
            or_return (count p) (Write (header_text Format t))
              (or_return (count p) (WriteString newline)
                 (printTransaction_loop (count p) 0 (Postings t))) q =
            offered (count p) q
              (header_text Format t +:+ newline +:+
               posting_lines p (odd_indexed (Postings t)))) as Hrest.
  { intros q Hq. apply or_return_offered. apply or_return_offered.
    rewrite printTransaction_loop_offered.
    change (printed_from 0 (Postings t)) with (odd_indexed (Postings t)).
    f_equal. unfold printer.posting_lines, printer.posting_text, rightPad.
    cbn [padding put]. by rewrite Hq. }
  unfold printer.directive_text, annotation_text. destruct (Targets t) as [targets|].
  - apply or_return_offered. by apply Hrest.
  - unfold or_return at 1. by apply Hrest.
Qed.

Lemma PrintDirective_offered (d : Directive) (p : Printer) :
  PrintDirective d p = offered (count p) p (directive_text p d).
Proof.
  destruct d as [t|o|c|a|pr]; [apply printTransaction_offered|..];
    unfold PrintDirective, printer.PrintDirective, Fprintf; rewrite Write_spec;
    unfold offered; f_equal; f_equal; unfold put, printer.directive_text; cbn [count]; lia.
Qed.

End Printer.


(** *** The padding *)

Section Padding.

Variable RuneCountInString : string → Z.

Abbreviation updatePadding := (updatePadding RuneCountInString).
Abbreviation Initialize := (Initialize RuneCountInString).
Abbreviation width := (λ a : Account, RuneCountInString (Account_String a)).

(** The padding is the greatest width seen. *)
Definition widest (p p' : Printer) (accounts : list Account) : Prop :=
  writer p' = writer p ∧ count p' = count p ∧
  padding p ≤ padding p' ∧
  (∀ a, a ∈ accounts → width a ≤ padding p') ∧
  (padding p' = padding p ∨ ∃ a, a ∈ accounts ∧ padding p' = width a).

Lemma widest_nil (p : Printer) : widest p p [].
Proof.
  split; [done|]. split; [done|]. split; [lia|]. split; [|by left].
  intros a Ha. by apply elem_of_nil in Ha.
Qed.

Lemma widest_app (p p1 p2 : Printer) (l1 l2 : list Account) :
  widest p p1 l1 → widest p1 p2 l2 → widest p p2 (l1 ++ l2).
Proof.
  intros (Hw1 & Hc1 & Hle1 & Hall1 & Hmax1) (Hw2 & Hc2 & Hle2 & Hall2 & Hmax2).
  split; [congruence|]. split; [congruence|]. split; [lia|]. split.
  - intros a [Ha|Ha]%elem_of_app; [specialize (Hall1 a Ha); lia | by apply Hall2].
  - destruct Hmax2 as [Heq|(a & Ha & Heq)].
    + destruct Hmax1 as [Heq1|(a & Ha & Heq1)]; [left; lia|].
      right. exists a. split; [apply elem_of_app; by left | lia].
    + right. exists a. split; [apply elem_of_app; by right | done].
Qed.

Lemma updatePadding_widest (t : Transaction) (p : Printer) :
  widest p (updatePadding t p) (Postings t ≫= λ po, [PAccount po; Other po]).
Proof.
  unfold printer.updatePadding. revert p.
  induction (Postings t) as [|po pos IH]; intros p; [apply widest_nil|].
  cbn [foldl]. rewrite bind_cons. eapply widest_app; [|apply IH].
  split; [by repeat case_decide|]. split; [by repeat case_decide|].
  split; [repeat case_decide; simpl in *; lia|]. split.
  - intros a Ha. apply elem_of_cons in Ha as [->|Ha];
      [|apply list_elem_of_singleton in Ha as ->]; repeat case_decide; simpl in *; lia.
  - assert (PAccount po ∈ [PAccount po; Other po]) as H1 by (apply elem_of_cons; by left).
    assert (Other po ∈ [PAccount po; Other po]) as H2
      by (apply elem_of_cons; right; by apply list_elem_of_singleton).
    repeat case_decide; simpl in *; try (by left); right;
      first [by exists (Other po) | by exists (PAccount po)].
Qed.

Lemma foldl_updatePadding_widest (ts : list Transaction) (p : Printer) :
  widest p (foldl (λ p t, updatePadding t p) p ts) (accounts_of ts).
Proof.
  revert p. induction ts as [|t ts IH]; intros p; [apply widest_nil|].
  cbn [foldl]. unfold accounts_of. rewrite bind_cons.
  eapply widest_app; [apply updatePadding_widest | apply IH].
Qed.

Lemma Initialize_foldl (directives : list Directive) (p : Printer) :
  Initialize directives p = foldl (λ p t, updatePadding t p) p (transactions_of directives).
Proof.
  unfold printer.Initialize, transactions_of. revert p.
  induction directives as [|d ds IH]; intros p; [done|].
  cbn [foldl]. rewrite IH. by destruct d.
Qed.

(** The first loop of [PrintJournal] does what [Initialize] does on the
    transactions of the days. *)
Lemma PrintJournal_padding (days : list Day) (p : Printer) :
  foldl (λ p day, foldl (λ p t, updatePadding t p) p (Transactions day)) p days =
  foldl (λ p t, updatePadding t p) p (days ≫= Transactions).
Proof.
  revert p. induction days as [|day days IH]; intros p; [done|].
  cbn [foldl]. rewrite bind_cons, foldl_app. apply IH.
Qed.

End Padding.

(** *** The journal *)

(** A step of [PrintJournal] that offers a text to the writer and returns the
    error of the write. *)
Definition emits (m : io (option error)) (text : Printer → string) : Prop :=
  ∀ p, writer (m p).1 = wput (writer p) (text p) ∧
       padding (m p).1 = padding p ∧
       (m p).2 = short (writer p) (text p).

(** A text that depends on the padding of the printer only. *)
Definition by_padding (text : Printer → string) : Prop :=
  ∀ p q, padding p = padding q → text p = text q.

Lemma emits_ext (m : io (option error)) (text text' : Printer → string) :
  emits m text → (∀ p, text p = text' p) → emits m text'.
Proof. intros Hm Heq p. rewrite <- Heq. apply Hm. Qed.

Lemma emits_then (m k : io (option error)) (text1 text2 : Printer → string) :
  emits m text1 → emits k text2 → by_padding text2 →
  emits (λ p, let '(p1, err) := m p in
              match err with
              | Some e => (p1, Some e)
              | None => k p1
              end) (λ p, text1 p +:+ text2 p).
Proof.
  intros Hm Hk Hpad p. cbn beta. destruct (Hm p) as (Hw & Hp & He).
  destruct (m p) as [p1 err]. cbn [fst snd] in *. subst err.
  destruct (fits (room (writer p)) (text1 p)) eqn:Hfit.
  - assert (short (writer p) (text1 p) = None) as -> by (unfold short; by rewrite Hfit).
    destruct (Hk p1) as (Hw' & Hp' & He'). rewrite (Hpad p1 p Hp) in *.
    destruct (wput_app_fit (writer p) (text1 p) (text2 p) Hfit) as (Hput & Hshort & _).
    rewrite Hw', He', Hw, Hput, Hshort, Hp', Hp. done.
  - assert (short (writer p) (text1 p) = Some ErrShortWrite) as ->
      by (unfold short; by rewrite Hfit).
    cbn [fst snd].
    destruct (wput_app_over (writer p) (text1 p) (text2 p) Hfit) as (Hput & Hshort & _).
    by rewrite Hw, Hput, Hshort.
Qed.

Lemma emits_nothing : emits (λ p, (p, None)) (λ _, EmptyString).
Proof. intros p. cbn [fst snd]. by rewrite wput_nil, short_nil. Qed.

Lemma print_newline_emits : emits print_newline (λ _, newline).
Proof.
  intros p. unfold print_newline. rewrite Writer_Write_spec. done.
Qed.

Lemma newline_after_emits {A : Type} (l : list A) (k : io (option error))
  (text : Printer → string) :
  emits k text → by_padding text →
  emits (newline_after l k) (λ p, (if l is [] then EmptyString else newline) +:+ text p).
Proof.
  intros Hk Hpad. destruct l as [|x l]; [done|].
  apply (emits_then print_newline k (λ _, newline) text); [apply print_newline_emits|done..].
Qed.

Lemma for_each_emits {A : Type} (f : A → io (option error)) (item : A → Printer → string)
  (l : list A) (k : io (option error)) (text : Printer → string) :
  (∀ x, emits (f x) (item x)) → (∀ x, by_padding (item x)) →
  emits k text → by_padding text →
  emits (for_each f l k)
    (λ p, foldr (λ x rest, item x p +:+ rest) EmptyString l +:+ text p) ∧
  by_padding (λ p, foldr (λ x rest, item x p +:+ rest) EmptyString l +:+ text p).
Proof.
  intros Hf Hfpad Hk Hpad. induction l as [|x l [IH IHpad]]; [done|]. split.
  - eapply emits_ext.
    + apply (emits_then (f x) (for_each f l k) (item x) _ (Hf x) IH IHpad).
    + intros p. cbn [foldr]. by rewrite append_assoc.
  - intros p q Hpq. cbn [foldr]. rewrite !append_assoc.
    by rewrite (Hfpad x p q Hpq), (IHpad p q Hpq).
Qed.

Section Journal.

Variable Format : Time → string.
Variable Decimal_String : Decimal → string.
Variable RuneCountInString : string → Z.

Abbreviation directive_text :=
  (directive_text Format Decimal_String RuneCountInString odd_indexed).
Abbreviation writeLn := (writeLn Format Decimal_String RuneCountInString).
Abbreviation day_text := (day_text Format Decimal_String RuneCountInString).
Abbreviation journal_text := (journal_text Format Decimal_String RuneCountInString).
Abbreviation PrintJournal_day := (PrintJournal_day Format Decimal_String RuneCountInString).

Lemma directive_text_by_padding (d : Directive) : by_padding (λ p, directive_text p d).
Proof.
  intros p q Hpq. destruct d as [t|o|c|a|pr]; try done.
  unfold printer.directive_text, posting_lines, posting_text, rightPad. by rewrite Hpq.
Qed.

Lemma writeLn_emits (d : Directive) : emits (writeLn d) (λ p, directive_text p d +:+ newline).
Proof.
  pose proof (emits_then (λ p, let r := PrintDirective Format Decimal_String RuneCountInString d p
                               in (r.1, r.2.2))
                print_newline (λ p, directive_text p d) (λ _, newline)) as Hthen.
  intros p. unfold printer.writeLn.
  specialize (Hthen ltac:(intros q; rewrite PrintDirective_offered; done)
                    print_newline_emits ltac:(done) p).
  cbn beta zeta in Hthen.
  destruct (PrintDirective Format Decimal_String RuneCountInString d p) as [p1 [n err]].
  exact Hthen.
Qed.

Lemma lines_foldr {A : Type} (text : A → string) (l : list A) :
  foldr (λ x rest, (text x +:+ newline) +:+ rest) EmptyString l = lines text l.
Proof.
  unfold lines. induction l as [|x l IH]; [done|]. cbn [foldr]. by rewrite IH, append_assoc.
Qed.

Lemma group_lines {A : Type} (text : A → string) (l : list A) (rest : string) :
  lines text l +:+ (if l is [] then EmptyString else newline) +:+ rest =
  group text l +:+ rest.
Proof. destruct l as [|x l]; [done|]. unfold group. by rewrite !append_assoc. Qed.

Lemma PrintJournal_day_emits (day : Day) (k : io (option error)) (text : Printer → string) :
  emits k text → by_padding text →
  emits (PrintJournal_day day k) (λ p, day_text p day +:+ text p) ∧
  by_padding (λ p, day_text p day +:+ text p).
Proof.
  intros Hk Hpad. unfold printer.PrintJournal_day.
  pose proof (newline_after_emits (Closings day) k text Hk Hpad) as H1.
  assert (by_padding (λ p, (if Closings day is [] then EmptyString else newline) +:+ text p))
    as P1 by (intros p q Hpq; by rewrite (Hpad p q Hpq)).
  destruct (for_each_emits (λ c, writeLn (DClose c)) (λ c p, directive_text p (DClose c) +:+ newline)
              (Closings day) _ _ (λ c, writeLn_emits (DClose c)) ltac:(done) H1 P1) as [H2 P2].
  pose proof (newline_after_emits (Assertions day) _ _ H2 P2) as H3.
  assert (by_padding (λ p, (if Assertions day is [] then EmptyString else newline) +:+
            (foldr (λ c rest, (directive_text p (DClose c) +:+ newline) +:+ rest) EmptyString
               (Closings day) +:+
             (if Closings day is [] then EmptyString else newline) +:+ text p))) as P3
    by (intros p q Hpq; by rewrite (P2 p q Hpq)).
  destruct (for_each_emits (λ a, writeLn (DAssertion a))
              (λ a p, directive_text p (DAssertion a) +:+ newline)
              (Assertions day) _ _ (λ a, writeLn_emits (DAssertion a)) ltac:(done) H3 P3)
    as [H4 P4].
  destruct (for_each_emits (λ t, writeLn (DTransaction t))
              (λ t p, directive_text p (DTransaction t) +:+ newline)
              (Transactions day) _ _ (λ t, writeLn_emits (DTransaction t))
              ltac:(intros t p q Hpq; by rewrite (directive_text_by_padding (DTransaction t) p q Hpq))
              H4 P4) as [H5 P5].
  pose proof (newline_after_emits (Openings day) _ _ H5 P5) as H6.
  assert (by_padding (λ p, (if Openings day is [] then EmptyString else newline) +:+
            (foldr (λ t rest, (directive_text p (DTransaction t) +:+ newline) +:+ rest)
               EmptyString (Transactions day) +:+
             foldr (λ a rest, (directive_text p (DAssertion a) +:+ newline) +:+ rest)
               EmptyString (Assertions day) +:+
             (if Assertions day is [] then EmptyString else newline) +:+
             foldr (λ c rest, (directive_text p (DClose c) +:+ newline) +:+ rest) EmptyString
               (Closings day) +:+
             (if Closings day is [] then EmptyString else newline) +:+ text p))) as P6
    by (intros p q Hpq; by rewrite (P5 p q Hpq)).
  destruct (for_each_emits (λ o, writeLn (DOpen o)) (λ o p, directive_text p (DOpen o) +:+ newline)
              (Openings day) _ _ (λ o, writeLn_emits (DOpen o)) ltac:(done) H6 P6) as [H7 P7].
  pose proof (newline_after_emits (Prices day) _ _ H7 P7) as H8.
  assert (by_padding (λ p, (if Prices day is [] then EmptyString else newline) +:+
            (foldr (λ o rest, (directive_text p (DOpen o) +:+ newline) +:+ rest) EmptyString
               (Openings day) +:+
             (if Openings day is [] then EmptyString else newline) +:+
             foldr (λ t rest, (directive_text p (DTransaction t) +:+ newline) +:+ rest)
               EmptyString (Transactions day) +:+
             foldr (λ a rest, (directive_text p (DAssertion a) +:+ newline) +:+ rest)
               EmptyString (Assertions day) +:+
             (if Assertions day is [] then EmptyString else newline) +:+
             foldr (λ c rest, (directive_text p (DClose c) +:+ newline) +:+ rest) EmptyString
               (Closings day) +:+
             (if Closings day is [] then EmptyString else newline) +:+ text p))) as P8
    by (intros p q Hpq; by rewrite (P7 p q Hpq)).
  destruct (for_each_emits (λ pr, writeLn (DPrice pr))
              (λ pr p, directive_text p (DPrice pr) +:+ newline)
              (Prices day) _ _ (λ pr, writeLn_emits (DPrice pr)) ltac:(done) H8 P8) as [H9 P9].
  assert (∀ p,
    foldr (λ pr rest, (directive_text p (DPrice pr) +:+ newline) +:+ rest) EmptyString
      (Prices day) +:+
    (if Prices day is [] then EmptyString else newline) +:+
    foldr (λ o rest, (directive_text p (DOpen o) +:+ newline) +:+ rest) EmptyString
      (Openings day) +:+
    (if Openings day is [] then EmptyString else newline) +:+
    foldr (λ t rest, (directive_text p (DTransaction t) +:+ newline) +:+ rest)
      EmptyString (Transactions day) +:+
    foldr (λ a rest, (directive_text p (DAssertion a) +:+ newline) +:+ rest)
      EmptyString (Assertions day) +:+
    (if Assertions day is [] then EmptyString else newline) +:+
    foldr (λ c rest, (directive_text p (DClose c) +:+ newline) +:+ rest) EmptyString
      (Closings day) +:+
    (if Closings day is [] then EmptyString else newline) +:+ text p =
    day_text p day +:+ text p) as Heq.
  { intros p.
    rewrite (lines_foldr (λ pr, directive_text p (DPrice pr))).
    rewrite (lines_foldr (λ o, directive_text p (DOpen o))).
    rewrite (lines_foldr (λ t, directive_text p (DTransaction t))).
    rewrite (lines_foldr (λ a, directive_text p (DAssertion a))).
    rewrite (lines_foldr (λ c, directive_text p (DClose c))).
    rewrite (group_lines _ (Closings day)), (group_lines _ (Assertions day)),
      (group_lines _ (Openings day)), (group_lines _ (Prices day)).
    unfold printer.day_text. by rewrite !append_assoc. }
  split.
  - eapply emits_ext; [exact H9 | exact Heq].
  - intros p q Hpq. rewrite <- !Heq. by apply P9.
Qed.

Lemma foldr_PrintJournal_day_emits (days : list Day) :
  emits (foldr PrintJournal_day (λ p, (p, None)) days) (λ p, journal_text p days) ∧
  by_padding (λ p, journal_text p days).
Proof.
  induction days as [|day days [IH IHpad]]; [split; [apply emits_nothing | done]|].
  cbn [foldr]. by apply PrintJournal_day_emits.
Qed.

End Journal.

(** [PrintJournal] to a writer of any room: the writer receives the text of
    the journal as far as it fits: day by day the prices, the openings, the
    transactions, the assertions and the closings, one directive a line,
    transactions with their posting lines, and an empty line after every
    group that is not empty and after every transaction.  The error is nil
    exactly when the whole text fits and a short write otherwise, and nothing
    is written after the write that failed. *)
Theorem PrintJournal_writes_what_fits
  (Format : Time → string) (Decimal_String : Decimal → string)
  (RuneCountInString : string → Z) (w : Writer) (days : list Day) :
  let r := PrintJournal Format Decimal_String RuneCountInString w days in
  let text := journal_text Format Decimal_String RuneCountInString r.1 days in
  written (writer r.1) = written w +:+ accepted (room w) text ∧
  r.2 = (if fits (room w) text then None else Some ErrShortWrite) ∧
  (room w = None → written (writer r.1) = written w +:+ text ∧ r.2 = None).
Proof.
  intros r text. subst text r. unfold PrintJournal. cbn zeta.
  rewrite PrintJournal_padding.
  set (p0 := foldl _ (New w) (days ≫= Transactions)).
  destruct (foldl_updatePadding_widest RuneCountInString (days ≫= Transactions) (New w))
    as (Hw0 & _). fold p0 in Hw0. change (writer (New w)) with w in Hw0.
  destruct (foldr_PrintJournal_day_emits Format Decimal_String RuneCountInString days)
    as [Hem Hpad].
  destruct (Hem p0) as (Hw & Hp & He).
  rewrite (Hpad _ p0 Hp), Hw, He, Hw0.
  split; [done|]. split; [done|].
  intros Hroom. unfold wput, short. rewrite Hroom. done.
Qed.

Lemma length_spaces (n : nat) : String.length (spaces n) = n.
Proof. induction n as [|n IH]; [done|]. simpl. by rewrite IH. Qed.

Lemma count_bytes_spaces (s : string) (n : nat) :
  count_bytes (s +:+ spaces n) = count_bytes s + Z.of_nat n.
Proof. unfold count_bytes. rewrite length_append, length_spaces. lia. Qed.

(** The padding makes the account columns equally wide.  [Initialize] (and
    the first loop of [PrintJournal], which does the same on the transactions
    of the journal) changes only the padding, never lowers it, and leaves it
    at the greatest rune count among the accounts of the postings, or where it
    was if that is greater; with that padding [rightPad] brings every such
    account to exactly the padding in runes.  Rune counts are assumed to grow
    by one for every space appended, as they do in Go. *)
Theorem Initialize_pads_to_the_widest_account
  (Format : Time → string) (Decimal_String : Decimal → string)
  (RuneCountInString : string → Z) (directives : list Directive) (p : Printer) :
  (∀ s n, RuneCountInString (s +:+ spaces n) = RuneCountInString s + Z.of_nat n) →
  let p' := Initialize RuneCountInString directives p in
  let accounts := accounts_of (transactions_of directives) in
  writer p' = writer p ∧ count p' = count p ∧
  padding p ≤ padding p' ∧
  (padding p' = padding p ∨
   ∃ a, a ∈ accounts ∧ padding p' = RuneCountInString (Account_String a)) ∧
  (∀ a, a ∈ accounts →
     RuneCountInString (Account_String a) ≤ padding p' ∧
     RuneCountInString (rightPad RuneCountInString p' a) = padding p') ∧
  (∀ w days,
     padding (PrintJournal Format Decimal_String RuneCountInString w days).1 =
     padding (Initialize RuneCountInString (map DTransaction (days ≫= Transactions)) (New w))).
Proof.
  intros Hspaces p' accounts. subst p' accounts. rewrite Initialize_foldl.
  destruct (foldl_updatePadding_widest RuneCountInString (transactions_of directives) p)
    as (Hw & Hc & Hle & Hall & Hmax).
  split; [done|]. split; [done|]. split; [done|]. split; [done|]. split.
  - intros a Ha. specialize (Hall a Ha). split; [done|].
    unfold rightPad. rewrite Hspaces. lia.
  - intros w days. rewrite Initialize_foldl.
    assert (transactions_of (map DTransaction (days ≫= Transactions)) =
            days ≫= Transactions) as ->.
    { unfold transactions_of. induction (days ≫= Transactions) as [|t ts IH]; [done|].
      simpl. f_equal. exact IH. }
    unfold PrintJournal. cbn zeta. rewrite PrintJournal_padding.
    destruct (foldr_PrintJournal_day_emits Format Decimal_String RuneCountInString days)
      as [Hem _].
    by destruct (Hem (foldl (λ p t, updatePadding RuneCountInString t p) (New w)
                        (days ≫= Transactions))) as (_ & Hp & _).
Qed.

Lemma Initialize_pads_to_the_widest_account_witness :
  padding (Initialize count_bytes [DTransaction lunch] (New buffer)) = 13 ∧
  count_bytes (rightPad count_bytes (Initialize count_bytes [DTransaction lunch] (New buffer))
                 Assets_Cash) = 13.
Proof.
  destruct (Initialize_pads_to_the_widest_account show_date show_decimal count_bytes
              [DTransaction lunch] (New buffer) count_bytes_spaces)
    as (_ & _ & _ & _ & Hall & _).
  split; [reflexivity|].
  refine (proj2 (Hall Assets_Cash _)). apply elem_of_cons. by left.
Defined.

End layout_props.

